(** * The economy and wagering engine of the casino bot (src/main.py)

    A shallow embedding of the bot's account store, its helper functions and
    its commands, followed by the properties of the natural-language
    specification that were checked against it.

    Conventions of the embedding
    - The module-level dictionary [users] and the file [users.json], as the
      loader reads it, are the two components of [state]; every command is a
      function from the state before the call to the state after it and the
      message it sends; each call of [save_users] has its outcome (written,
      not opened, truncated) as an argument.
    - Text is held as its UTF-8 bytes.
    - A Python variable holding an account dictionary is a reference into
      [users]: it is modelled by the key of the account, every read goes to
      the current store and every write updates the store in place.
    - Each reading of [datetime.utcnow()] and each use of the [random]
      module is an explicit argument of the command that performs it.
    - Integers are Python integers (unbounded): [Z]. *)

From Stdlib Require Import ZArith Lia List Bool Ascii String.
From Corelib Require Import SpecFloat.
From stdpp Require Import base option list strings pretty gmap sorting.

Open Scope Z_scope.

(** ** Python primitives used by the program *)

Module Py.

(** [str.lower].  Text is held as its UTF-8 bytes.  [str.lower] maps the
    letters A-Z to a-z and, alone among the code points outside ASCII, the
    KELVIN SIGN U+212A (bytes 226 132 170) to the ASCII letter k; the lower
    case of every other code point holds a code point outside ASCII.  The
    program compares lowered text with ASCII names only (the catalogue, the
    three colours), so the bytes of the other code points are left as they
    are. *)
Definition lower_ascii (c : ascii) : ascii :=
  let n := N_of_ascii c in
  if ((65 <=? n) && (n <=? 90))%N then ascii_of_N (n + 32) else c.

(** The UTF-8 bytes of U+212A. *)
Definition kelvin_sign : string :=
  String "226" (String "132" (String "170" EmptyString)).

Definition is_kelvin (c1 c2 c3 : ascii) : bool :=
  Ascii.eqb c1 "226" && Ascii.eqb c2 "132" && Ascii.eqb c3 "170".

Fixpoint lower (s : string) : string :=
  match s with
  | EmptyString => EmptyString
  | String c s' =>
      match s' with
      | String c2 (String c3 s'') =>
          if is_kelvin c c2 c3 then String "k" (lower s'')
          else String (lower_ascii c) (lower s')
      | _ => String (lower_ascii c) (lower s')
      end
  end.

(** [s.replace(a, b)] for one-character [a] and [b]. *)
Fixpoint replace (a b : ascii) (s : string) : string :=
  match s with
  | EmptyString => EmptyString
  | String c s' => String (if Ascii.eqb c a then b else c) (replace a b s')
  end.

(** [sub in s] on strings. *)
Fixpoint contains (sub s : string) : bool :=
  String.prefix sub s ||
  match s with
  | EmptyString => false
  | String _ s' => contains sub s'
  end.

(** [x in l] on a list of strings. *)
Definition mem (x : string) (l : list string) : bool :=
  existsb (String.eqb x) l.

(** [sum(cards)] and [cards.count(v)]. *)
Definition sum (l : list Z) : Z := fold_right Z.add 0 l.

Definition count (v : Z) (l : list Z) : nat :=
  List.length (List.filter (fun c => c =? v) l).

End Py.

(** ** The [random] module

    Every draw consumes one natural number of entropy [k]; the functions
    below map it onto the requested range the way [random] does with the
    result of [randbelow]. *)

Module Random.

(** [random.randint(a, b)], for [a <= b]: [k] ranging over [0 .. b-a]
    yields every value of [a .. b] exactly once. *)
Definition randint (a b : Z) (k : nat) : Z :=
  a + Z.of_nat k mod (b - a + 1).

(** [random.choice(seq)]: [seq[randbelow(len(seq))]]. *)
Definition choice {A} (seq : list A) (d : A) (k : nat) : A :=
  nth (k mod length seq)%nat seq d.

(** [random.choices(population, weights=weights)[0]] for integer weights:
    the first element whose cumulated weight exceeds the point drawn in
    [0 .. total-1]. *)
Fixpoint pick {A} (population : list A) (weights : list Z) (d : A) (x : Z) : A :=
  match population, weights with
  | p :: ps, w :: ws => if x <? w then p else pick ps ws d (x - w)
  | _, _ => d
  end.

Definition choices {A} (population : list A) (weights : list Z) (d : A) (k : nat) : A :=
  pick population weights d (Z.of_nat k mod Py.sum weights).

(** [random.random()] returns [r / 2^53] for an integer [0 <= r < 2^53], and
    the double nearest to [0.7] is [6305039478318694 / 2^53]; so
    [random.random() > 0.7] is a comparison of integers. *)
Definition random_gt_0_7 (r : Z) : bool := 6305039478318694 <? r.

End Random.

(** ** Binary64 arithmetic of [int(mise * 1.8)]

    Python converts the integer to a double (round to nearest even,
    [OverflowError] when it does not fit), multiplies by the double nearest
    to 1.8 and truncates the product; [int] of an infinity raises
    [OverflowError] too.  The operations are those of the IEEE-754
    specification in [SpecFloat]. *)

Module Float64.

Definition prec : Z := 53.
Definition emax : Z := 1024.

(** [float(n)] *)
Definition of_int (n : Z) : spec_float := binary_normalize prec emax n 0 false.

(** The literal [1.8], i.e. [0x1.ccccccccccccdp+0]. *)
Definition lit_1_8 : spec_float := S754_finite false 8106479329266893 (-52).

Definition mul : spec_float -> spec_float -> spec_float := SFmul prec emax.

(** [int(x)]: truncation toward zero; [None] is the exception raised on an
    infinity or a NaN. *)
Definition to_int (x : spec_float) : option Z :=
  match x with
  | S754_zero _ => Some 0
  | S754_finite s m e =>
      Some (cond_Zopp s (if 0 <=? e then Z.pos m * 2 ^ e else Z.pos m / 2 ^ (- e)))
  | S754_infinity _ | S754_nan => None
  end.

(** [int(mise * 1.8)]; [None] when an [OverflowError] is raised. *)
Definition int_times_1_8 (mise : Z) : option Z :=
  match of_int mise with
  | S754_infinity _ | S754_nan => None
  | x => to_int (mul x lit_1_8)
  end.

End Float64.

(** ** Data model *)

(** A string stored in a timestamp field, by what
    [datetime.fromisoformat] makes of it: the ISO text of the instant [t]
    (microseconds since the epoch, naive UTC, as [isoformat()] writes it), or
    a text that the parser rejects with [ValueError]. *)
Inductive isostring :=
| Iso (t : Z)
| Unparsable (text : string).

Definition isoformat (t : Z) : isostring := Iso t.

Definition fromisoformat (s : isostring) : option Z :=
  match s with
  | Iso t => Some t
  | Unparsable _ => None
  end.

(** Truth value of a string: false exactly for the empty string. *)
Definition truthy (s : isostring) : bool :=
  match s with
  | Iso _ => true
  | Unparsable text => negb (String.eqb text "")
  end.

Definition hours (n : Z) : Z := n * 3600000000.

(** [str(t.date())]: a date is represented by its day number, on which
    [str] is injective. *)
Definition date (t : Z) : Z := t / hours 24.

(** One account record, with the keys [get_user_data] gives it. *)
Record user := mkUser {
  balance : Z;
  last_daily : isostring;
  steals : list Z;
  items : list string;
  boost_end : option isostring;
  games_played : Z;
  total_winnings : Z;
  total_losses : Z
}.

Definition with_balance (f : Z -> Z) (u : user) : user :=
  mkUser (f (balance u)) (last_daily u) (steals u) (items u) (boost_end u)
         (games_played u) (total_winnings u) (total_losses u).

Definition with_last_daily (v : isostring) (u : user) : user :=
  mkUser (balance u) v (steals u) (items u) (boost_end u)
         (games_played u) (total_winnings u) (total_losses u).

Definition with_steals (f : list Z -> list Z) (u : user) : user :=
  mkUser (balance u) (last_daily u) (f (steals u)) (items u) (boost_end u)
         (games_played u) (total_winnings u) (total_losses u).

Definition with_items (f : list string -> list string) (u : user) : user :=
  mkUser (balance u) (last_daily u) (steals u) (f (items u)) (boost_end u)
         (games_played u) (total_winnings u) (total_losses u).

Definition with_boost_end (v : option isostring) (u : user) : user :=
  mkUser (balance u) (last_daily u) (steals u) (items u) v
         (games_played u) (total_winnings u) (total_losses u).

(** The record [get_user_data] creates. *)
Definition new_user : user :=
  mkUser 500 (Unparsable "") [] [] None 0 0 0.

#[global] Instance user_inhabited : Inhabited user := populate new_user.

(** The in-memory dictionary [users] and the content of [users.json], as
    the loader reads it. *)
Record state := mkState {
  users : gmap string user;
  disk : gmap string user
}.

Definition set_users (m : gmap string user) (st : state) : state :=
  mkState m (disk st).

(** The account behind a reference. *)
Definition deref (st : state) (ref : string) : user := users st !!! ref.

(** In-place update of the account behind a reference. *)
Definition update (ref : string) (f : user -> user) (st : state) : state :=
  set_users (alter f ref (users st)) st.

(** A guild member as the commands see it. *)
Record member := mkMember { id : Z; bot : bool }.

(** The catalogue, in display order: item and price. *)
Definition shop_items : list (string * Z) :=
  [ ("role_vip", 1000); ("ticket_loterie", 250); ("boost_x2", 1200);
    ("emoji_special", 300); ("badge", 500); ("boost_x3", 2000);
    ("skin_slot", 900); ("extra_steal", 1500) ]%string.

(** [shop_items[objet]['prix']], [None] when [objet not in shop_items]. *)
Fixpoint prix_in (catalogue : list (string * Z)) (objet : string) : option Z :=
  match catalogue with
  | [] => None
  | (name, prix) :: rest => if String.eqb objet name then Some prix else prix_in rest objet
  end.

Definition prix_of : string -> option Z := prix_in shop_items.

(** ** Messages *)

(** How a wager ended, with the amount credited on a win. *)
Inductive outcome :=
| Win (gain : Z)
| Push
| Loss.

(** What a command sends back. *)
Inductive reply :=
| NoMessage                     (* the empty [error_msg] of a valid bet *)
| BetNotPositive                (* validate_bet: the stake must be positive *)
| BetTooHigh                    (* validate_bet: not enough coins *)
| BadColour
| GameResult (o : outcome)
| DailyTooSoon (reste : Z)
| DailyGranted (gain : Z)
| UnknownItem
| TooExpensive (prix : Z)
| AlreadyOwned
| Bought (objet : string) (prix : Z)
| CannotSteal
| StealLimit (max_steals : Z)
| VictimTooPoor
| StealCaught
| StealDone (gain : Z)
| NotOwner
| Given (amount : Z)
| Removed (amount : Z)
| DonToBot
| DonToSelf
| DonNotPositive
| DonTooHigh
| DonDone (montant : Z)
| Crashed.                      (* an exception reached [on_command_error] *)

(** The messages of the rejection paths. *)
Definition rejection (r : reply) : bool :=
  match r with
  | BetNotPositive | BetTooHigh | BadColour | DailyTooSoon _ | UnknownItem
  | TooExpensive _ | AlreadyOwned | CannotSteal | StealLimit _ | VictimTooPoor
  | NotOwner | DonToBot | DonToSelf | DonNotPositive | DonTooHigh => true
  | _ => false
  end.

(** ** Utility functions *)

(** How a call of [save_users] ends: the dictionary is written; or
    [open("users.json", "w")] fails and the file is left as it was; or the
    file, emptied by [open], is left empty or partial by a failure of
    [json.dump], and the loader then reads it as the empty dictionary
    ([json.JSONDecodeError], "starting fresh").  Either failure is logged and
    the command goes on. *)
Inductive write := Written | NotOpened | Truncated.

(** What the loader reads from the file after a call of [save_users] on the
    dictionary [m], the file holding [old] before. *)
Definition file_after (io : write) (m old : gmap string user) : gmap string user :=
  match io with
  | Written => m
  | NotOpened => old
  | Truncated => ∅
  end.

Definition save_users (io : write) (st : state) : state :=
  mkState (users st) (file_after io (users st) (disk st)).

Definition get_user_data (user_id : Z) (st : state) : string * state :=
  let user_id_str := pretty user_id in
  match users st !! user_id_str with
  | Some _ => (user_id_str, st)
  | None => (user_id_str, set_users (<[user_id_str := new_user]> (users st)) st)
  end.

Definition has_boost (now : Z) (u : user) : bool :=
  match boost_end u with
  | Some boost_end =>
      if truthy boost_end then
        match fromisoformat boost_end with
        | Some boost_end_dt => now <? boost_end_dt
        | None => false                 (* ValueError: warning, no boost *)
        end
      else false
  | None => false
  end.

Definition get_boost_multiplier (now : Z) (u : user) : Z :=
  if negb (has_boost now u) then 1
  else if Py.mem "boost_x3" (items u) then 3
  else if Py.mem "boost_x2" (items u) then 2
  else 1.

Definition apply_boost (now : Z) (montant : Z) (u : user) : Z :=
  montant * get_boost_multiplier now u.

Definition reset_steals_if_needed (now : Z) (u : user) : user :=
  let today := date now in
  with_steals (List.filter (fun s => s =? today)) u.

Definition validate_bet (u : user) (mise : Z) : bool * reply :=
  if mise <=? 0 then (false, BetNotPositive)
  else if balance u <? mise then (false, BetTooHigh)
  else (true, NoMessage).

Definition record_game_result (mise gain : Z) (u : user) : user :=
  mkUser (balance u) (last_daily u) (steals u) (items u) (boost_end u)
         (games_played u + 1)
         (if mise <? gain then total_winnings u + (gain - mise) else total_winnings u)
         (if mise <? gain then total_losses u else total_losses u + mise).

(** ** Commands *)

Definition daily (author : Z) (now now_boost : Z) (io : write) (st : state)
  : state * reply :=
  let '(user, st) := get_user_data author st in
  let last_daily_str := last_daily (deref st user) in
  let too_soon :=
    if truthy last_daily_str then
      match fromisoformat last_daily_str with
      | Some last =>
          if now - last <? hours 24 then Some (hours 24 - (now - last)) else None
      | None => None                    (* ValueError: warning, claim goes on *)
      end
    else None in
  match too_soon with
  | Some reste => (st, DailyTooSoon reste)
  | None =>
      let base_gain := 100 in
      let gain := apply_boost now_boost base_gain (deref st user) in
      let st := update user (with_balance (fun b => b + gain)) st in
      let st := update user (with_last_daily (isoformat now)) st in
      (save_users io st, DailyGranted gain)
  end.

Definition acheter (author : Z) (objet : string) (now : Z) (io : write) (st : state)
  : state * reply :=
  let '(user, st) := get_user_data author st in
  let objet := Py.replace " " "_" (Py.lower objet) in
  match prix_of objet with
  | None => (st, UnknownItem)
  | Some prix =>
      if balance (deref st user) <? prix then (st, TooExpensive prix)
      else if Py.mem objet (items (deref st user)) then (st, AlreadyOwned)
      else
        let st := update user (with_balance (fun b => b - prix)) st in
        let st := update user (with_items (fun l => l ++ [objet])) st in
        let st :=
          if Py.contains "boost" objet
          then update user (with_boost_end (Some (isoformat (now + hours 1)))) st
          else st in
        (save_users io st, Bought objet prix)
  end.

Definition steal (author : Z) (cible : member) (now_reset now : Z) (r : Z) (k : nat)
    (io : write) (st : state) : state * reply :=
  if bot cible || (id cible =? author) then (st, CannotSteal) else
  let '(user, st) := get_user_data author st in
  let '(cible_user, st) := get_user_data (id cible) st in
  let st := update user (reset_steals_if_needed now_reset) st in
  let today_str := date now in
  let max_steals := if Py.mem "extra_steal" (items (deref st user)) then 4 else 3 in
  if max_steals <=? Z.of_nat (length (steals (deref st user)))
  then (st, StealLimit max_steals)
  else if balance (deref st cible_user) <? 50 then (st, VictimTooPoor)
  else if Random.random_gt_0_7 r then
    let st := update user (with_steals (fun l => l ++ [today_str])) st in
    (save_users io st, StealCaught)
  else
    let gain := Random.randint 20 (Z.min 100 (balance (deref st cible_user) / 2)) k in
    let st := update cible_user (with_balance (fun b => b - gain)) st in
    let st := update user (with_balance (fun b => b + gain)) st in
    let st := update user (with_steals (fun l => l ++ [today_str])) st in
    (save_users io st, StealDone gain).

(** [give] and [remove] are guarded by [commands.is_owner()]; [owner] tells
    whether the caller passes that check. *)
Definition give (owner : bool) (target : member) (amount : Z) (io : write) (st : state)
  : state * reply :=
  if negb owner then (st, NotOwner) else
  let '(user, st) := get_user_data (id target) st in
  let st := update user (with_balance (fun b => b + amount)) st in
  (save_users io st, Given amount).

Definition remove (owner : bool) (target : member) (amount : Z) (io : write) (st : state)
  : state * reply :=
  if negb owner then (st, NotOwner) else
  let '(user, st) := get_user_data (id target) st in
  let st := update user (with_balance (fun b => Z.max (b - amount) 0)) st in
  (save_users io st, Removed amount).

Definition don (author : Z) (membre : member) (montant : Z) (io : write) (st : state)
  : state * reply :=
  let '(donneur, st) := get_user_data author st in
  let '(receveur, st) := get_user_data (id membre) st in
  if bot membre then (st, DonToBot)
  else if id membre =? author then (st, DonToSelf)
  else if montant <=? 0 then (st, DonNotPositive)
  else if balance (deref st donneur) <? montant then (st, DonTooHigh)
  else
    let st := update donneur (with_balance (fun b => b - montant)) st in
    let st := update receveur (with_balance (fun b => b + montant)) st in
    (save_users io st, DonDone montant).

(** ** Wager games *)

Definition coinflip (author : Z) (mise : Z) (k1 k2 : nat) (now : Z) (io : write)
    (st : state) : state * reply :=
  let '(user, st) := get_user_data author st in
  let '(valid, error_msg) := validate_bet (deref st user) mise in
  if negb valid then (st, error_msg) else
  let st := update user (with_balance (fun b => b - mise)) st in
  let player_choice := Random.choice ["pile"; "face"] "" k1 in
  let bot_choice := Random.choice ["pile"; "face"] "" k2 in
  if String.eqb player_choice bot_choice then
    let gain := apply_boost now (mise * 2) (deref st user) in
    let st := update user (with_balance (fun b => b + gain)) st in
    let st := update user (record_game_result mise gain) st in
    (save_users io st, GameResult (Win gain))
  else
    let st := update user (record_game_result mise 0) st in
    (save_users io st, GameResult Loss).

Definition dice (author : Z) (mise : Z) (k1 k2 : nat) (now : Z) (io : write)
    (st : state) : state * reply :=
  let '(user, st) := get_user_data author st in
  let '(valid, error_msg) := validate_bet (deref st user) mise in
  if negb valid then (st, error_msg) else
  let st := update user (with_balance (fun b => b - mise)) st in
  let player_roll := Random.randint 1 6 k1 in
  let bot_roll := Random.randint 1 6 k2 in
  if bot_roll <? player_roll then
    match Float64.int_times_1_8 mise with
    | None => (st, Crashed)     (* OverflowError: stake spent, nothing saved *)
    | Some scaled =>
        let gain := apply_boost now scaled (deref st user) in
        let st := update user (with_balance (fun b => b + gain)) st in
        let st := update user (record_game_result mise gain) st in
        (save_users io st, GameResult (Win gain))
    end
  else if player_roll =? bot_roll then
    let st := update user (with_balance (fun b => b + mise)) st in
    let st := update user (record_game_result mise mise) st in
    (save_users io st, GameResult Push)
  else
    let st := update user (record_game_result mise 0) st in
    (save_users io st, GameResult Loss).

(** The wheel: 18 red, 18 black and one green pocket. *)
Definition resultats : list string :=
  repeat "rouge"%string 18 ++ repeat "noir"%string 18 ++ repeat "vert"%string 1.

Definition roulette (author : Z) (mise : Z) (couleur : string) (k : nat) (now : Z)
    (io : write) (st : state) : state * reply :=
  let couleur := Py.lower couleur in
  if negb (Py.mem couleur ["rouge"; "noir"; "vert"]) then (st, BadColour) else
  let '(user, st) := get_user_data author st in
  let '(valid, error_msg) := validate_bet (deref st user) mise in
  if negb valid then (st, error_msg) else
  let st := update user (with_balance (fun b => b - mise)) st in
  let resultat := Random.choice resultats "" k in
  if String.eqb couleur resultat then
    let gain :=
      if String.eqb couleur "vert"
      then apply_boost now (mise * 35) (deref st user)
      else apply_boost now (mise * 2) (deref st user) in
    let st := update user (with_balance (fun b => b + gain)) st in
    let st := update user (record_game_result mise gain) st in
    (save_users io st, GameResult (Win gain))
  else
    let st := update user (record_game_result mise 0) st in
    (save_users io st, GameResult Loss).

Definition get_card_value (k : nat) : Z := Random.randint 1 11 k.

(** The loop [while total > 21 and aces > 0: total -= 10; aces -= 1]. *)
Fixpoint reduce_aces (aces : nat) (total : Z) : Z :=
  match aces with
  | S aces' => if 21 <? total then reduce_aces aces' (total - 10) else total
  | O => total
  end.

Definition get_hand_value (cards : list Z) : Z :=
  let total := Py.sum cards in
  let aces := Py.count 11 cards in
  reduce_aces aces total.

(** The loop [while dealer_total < 17: dealer_cards.append(get_card_value())];
    [draw i] is the entropy of the [i]-th card dealt in the game, and [None]
    means that the loop is still running after [fuel] iterations. *)
Fixpoint dealer_hits (fuel : nat) (draw : nat -> nat) (i : nat) (dealer_cards : list Z)
  : option (list Z) :=
  if get_hand_value dealer_cards <? 17 then
    match fuel with
    | S fuel' => dealer_hits fuel' draw (S i) (dealer_cards ++ [get_card_value (draw i)])
    | O => None
    end
  else Some dealer_cards.

Definition blackjack (fuel : nat) (author : Z) (mise : Z) (draw : nat -> nat) (now : Z)
    (io : write) (st : state) : option (state * reply) :=
  let '(user, st) := get_user_data author st in
  let '(valid, error_msg) := validate_bet (deref st user) mise in
  if negb valid then Some (st, error_msg) else
  let st := update user (with_balance (fun b => b - mise)) st in
  let player_cards := [get_card_value (draw 0%nat); get_card_value (draw 1%nat)] in
  let dealer_cards := [get_card_value (draw 2%nat); get_card_value (draw 3%nat)] in
  let player_total := get_hand_value player_cards in
  match dealer_hits fuel draw 4 dealer_cards with
  | None => None
  | Some dealer_cards =>
      let dealer_total := get_hand_value dealer_cards in
      if 21 <? player_total then
        let st := update user (record_game_result mise 0) st in
        Some (save_users io st, GameResult Loss)
      else if 21 <? dealer_total then
        let gain := apply_boost now (mise * 2) (deref st user) in
        let st := update user (with_balance (fun b => b + gain)) st in
        let st := update user (record_game_result mise gain) st in
        Some (save_users io st, GameResult (Win gain))
      else if dealer_total <? player_total then
        let gain := apply_boost now (mise * 2) (deref st user) in
        let st := update user (with_balance (fun b => b + gain)) st in
        let st := update user (record_game_result mise gain) st in
        Some (save_users io st, GameResult (Win gain))
      else if player_total =? dealer_total then
        let st := update user (with_balance (fun b => b + mise)) st in
        let st := update user (record_game_result mise mise) st in
        Some (save_users io st, GameResult Push)
      else
        let st := update user (record_game_result mise 0) st in
        Some (save_users io st, GameResult Loss)
  end.

(** The eight symbols of the reels, in the order of [symbols]. *)
Inductive symbol :=
| Apple | Orange | Lemon | Grapes | Cherries | Gem | Star | Seven.

#[global] Instance symbol_eq_dec : EqDecision symbol.
Proof. solve_decision. Defined.

Definition symbols : list symbol :=
  [Apple; Orange; Lemon; Grapes; Cherries; Gem; Star; Seven].

Definition weights : list Z := [20; 20; 20; 15; 15; 5; 3; 2].

Definition slot_multiplier (reel1 reel2 reel3 : symbol) : Z :=
  if bool_decide (reel1 = reel2) && bool_decide (reel2 = reel3) then
    if bool_decide (reel1 = Seven) then 50
    else if bool_decide (reel1 = Star) then 25
    else if bool_decide (reel1 = Gem) then 15
    else if bool_decide (reel1 = Cherries) then 10
    else 5
  else if bool_decide (reel1 = reel2) || bool_decide (reel2 = reel3)
          || bool_decide (reel1 = reel3) then 2
  else 0.

Definition slot (author : Z) (mise : Z) (k1 k2 k3 : nat) (now : Z) (io : write)
    (st : state) : state * reply :=
  let '(user, st) := get_user_data author st in
  let '(valid, error_msg) := validate_bet (deref st user) mise in
  if negb valid then (st, error_msg) else
  let st := update user (with_balance (fun b => b - mise)) st in
  let reel1 := Random.choices symbols weights Apple k1 in
  let reel2 := Random.choices symbols weights Apple k2 in
  let reel3 := Random.choices symbols weights Apple k3 in
  let multiplier := slot_multiplier reel1 reel2 reel3 in
  if 0 <? multiplier then
    let gain := apply_boost now (mise * multiplier) (deref st user) in
    let st := update user (with_balance (fun b => b + gain)) st in
    let st := update user (record_game_result mise gain) st in
    (save_users io st, GameResult (Win gain))
  else
    let st := update user (record_game_result mise 0) st in
    (save_users io st, GameResult Loss).

(** ** One invocation of a command of the economy engine *)

Inductive command :=
| Daily (author : Z) (now now_boost : Z)
| Acheter (author : Z) (objet : string) (now : Z)
| Steal (author : Z) (cible : member) (now_reset now : Z) (r : Z) (k : nat)
| Give (owner : bool) (target : member) (amount : Z)
| Remove (owner : bool) (target : member) (amount : Z)
| Don (author : Z) (membre : member) (montant : Z)
| Coinflip (author : Z) (mise : Z) (k1 k2 : nat) (now : Z)
| Dice (author : Z) (mise : Z) (k1 k2 : nat) (now : Z)
| Roulette (author : Z) (mise : Z) (couleur : string) (k : nat) (now : Z)
| Blackjack (author : Z) (mise : Z) (draw : nat -> nat) (now : Z)
| Slot (author : Z) (mise : Z) (k1 k2 k3 : nat) (now : Z).

(** Running a command; [None] only when the dealer of [Blackjack] is still
    drawing after [fuel] cards. *)
Definition run (fuel : nat) (io : write) (c : command) (st : state)
  : option (state * reply) :=
  match c with
  | Daily author now now_boost => Some (daily author now now_boost io st)
  | Acheter author objet now => Some (acheter author objet now io st)
  | Steal author cible now_reset now r k =>
      Some (steal author cible now_reset now r k io st)
  | Give owner target amount => Some (give owner target amount io st)
  | Remove owner target amount => Some (remove owner target amount io st)
  | Don author membre montant => Some (don author membre montant io st)
  | Coinflip author mise k1 k2 now => Some (coinflip author mise k1 k2 now io st)
  | Dice author mise k1 k2 now => Some (dice author mise k1 k2 now io st)
  | Roulette author mise couleur k now =>
      Some (roulette author mise couleur k now io st)
  | Blackjack author mise draw now => blackjack fuel author mise draw now io st
  | Slot author mise k1 k2 k3 now => Some (slot author mise k1 k2 k3 now io st)
  end.

(** The five wager games. *)
Inductive game := G_coinflip | G_dice | G_roulette | G_blackjack | G_slot.

(** The state in which nothing has been stored yet. *)
Definition empty_state : state := mkState ∅ ∅.

(** A state holding the single account [u] for the user [uid], saved. *)
Definition single (uid : Z) (u : user) : state :=
  mkState {[ pretty uid := u ]} {[ pretty uid := u ]}.

(** ** Notions used by the properties *)

(** The account [get_user_data] hands out for [uid]: the stored record, or
    the default one when none is stored yet. *)
Definition account (st : state) (uid : Z) : user :=
  default new_user (users st !! pretty uid).

(** The state after [get_user_data uid]. *)
Definition ensure (uid : Z) (st : state) : state := (get_user_data uid st).2.

(** No account of the dictionary has a negative balance. *)
Definition solvent (m : gmap string user) : Prop :=
  map_Forall (λ _ u, 0 ≤ balance u) m.

(** Neither the dictionary nor the file holds a negative balance. *)
Definition sound (st : state) : Prop := solvent (users st) ∧ solvent (disk st).

(** Game, caller and stake of a wager. *)
Definition wager_of (c : command) : option (game * Z * Z) :=
  match c with
  | Coinflip author mise _ _ _ => Some (G_coinflip, author, mise)
  | Dice author mise _ _ _ => Some (G_dice, author, mise)
  | Roulette author mise _ _ _ => Some (G_roulette, author, mise)
  | Blackjack author mise _ _ => Some (G_blackjack, author, mise)
  | Slot author mise _ _ _ _ => Some (G_slot, author, mise)
  | _ => None
  end.

(** What a finished game pays back to the balance: the [gain] passed to
    [record_game_result]. *)
Definition payout (mise : Z) (o : outcome) : Z :=
  match o with
  | Win gain => gain
  | Push => mise
  | Loss => 0
  end.

(** The hand-value reducer as the specification words it: one step subtracts
    10 for one ace while the total exceeds 21 and an ace is left; the loop
    stops when no step applies. *)
Inductive ace_step : Z * nat → Z * nat → Prop :=
| ace_step_intro total aces :
    21 < total → ace_step (total, S aces) (total - 10, aces).

Definition ace_halted (s : Z * nat) : Prop := s.1 ≤ 21 ∨ s.2 = 0%nat.

(** The state in which the account of [uid] is [u]. *)
Definition put (uid : Z) (u : user) (st : state) : state :=
  mkState (<[pretty uid := u]> (users st)) (disk st).

(** What a finished game makes of the caller's account: the stake is taken,
    the payout credited, the statistics recorded. *)
Definition settle (mise : Z) (o : outcome) (u : user) : user :=
  let u := with_balance (λ b, b - mise) u in
  match o with
  | Win gain => record_game_result mise gain (with_balance (λ b, b + gain) u)
  | Push => record_game_result mise mise (with_balance (λ b, b + mise) u)
  | Loss => record_game_result mise 0 u
  end.

(** The ways a wager [c] of [author] at stake [mise] can end, with the state
    it leaves and the message it sends. *)
Inductive wager_result (io : write) (c : command) (author mise : Z) (st : state)
  : state → reply → Prop :=
| wager_bad_colour couleur k now :
    c = Roulette author mise couleur k now →
    Py.mem (Py.lower couleur) ["rouge"; "noir"; "vert"]%string = false →
    wager_result io c author mise st st BadColour
| wager_not_positive :
    mise ≤ 0 →
    wager_result io c author mise st (ensure author st) BetNotPositive
| wager_too_high :
    0 < mise → balance (account st author) < mise →
    wager_result io c author mise st (ensure author st) BetTooHigh
| wager_crashed k1 k2 now :
    c = Dice author mise k1 k2 now →
    Float64.int_times_1_8 mise = None →
    0 < mise ≤ balance (account st author) →
    wager_result io c author mise st
      (put author (with_balance (λ b, b - mise) (account st author)) st) Crashed
| wager_played o :
    0 < mise ≤ balance (account st author) →
    0 ≤ payout mise o →
    wager_result io c author mise st
      (save_users io (put author (settle mise o (account st author)) st))
      (GameResult o).

(** The accounts [u] and [u'] agree on everything but the list of steals. *)
Definition same_but_steals (u u' : user) : Prop :=
  balance u' = balance u ∧ items u' = items u ∧ last_daily u' = last_daily u
  ∧ boost_end u' = boost_end u ∧ games_played u' = games_played u
  ∧ total_winnings u' = total_winnings u ∧ total_losses u' = total_losses u.

(** The states a rejected command can leave behind: nothing was touched, or
    the accounts the command looked up were created, or (in [steal]) the
    caller's steals were pruned as well. *)
Inductive rejected_from (c : command) (st : state) : state → Prop :=
| rejected_untouched : rejected_from c st st
| rejected_one a : rejected_from c st (ensure a st)
| rejected_two a b : rejected_from c st (ensure b (ensure a st))
| rejected_pruned a cible now_reset now r k :
    c = Steal a cible now_reset now r k →
    id cible ≠ a →
    rejected_from c st
      (update (pretty a) (reset_steals_if_needed now_reset)
         (ensure (id cible) (ensure a st))).

(** The validity of the colour of a roulette bet (other wagers have none). *)
Definition colour_ok (c : command) : Prop :=
  match c with
  | Roulette _ _ couleur _ _ =>
      Py.mem (Py.lower couleur) ["rouge"; "noir"; "vert"]%string = true
  | _ => True
  end.

(** What the reply says was credited to the caller of a wager. *)
Definition credited (mise : Z) (r : reply) : Z :=
  match r with
  | GameResult o => payout mise o
  | _ => 0
  end.

(** The steals left after [reset_steals_if_needed] and the quota of [steal]. *)
Definition steals_today (now : Z) (u : user) : list Z :=
  List.filter (λ s, s =? date now) (steals u).

Definition max_steals_of (u : user) : Z :=
  if Py.mem "extra_steal" (items u) then 4 else 3.

(** The commands that cannot push a balance below zero: all but a [give] of
    a negative amount by the owner. *)
Definition credits_only (c : command) : Prop :=
  match c with
  | Give owner _ amount => owner = true → 0 ≤ amount
  | _ => True
  end.

(** ** Read-only commands *)

(** What [profil] displays of an account. *)
Record profile := mkProfile {
  shown_creator : bool;         (* the special title of the owner *)
  shown_balance : Z;
  shown_items : list string;
  shown_boost : bool;           (* "Actif" / "Inactif" *)
  shown_steals : nat;           (* "Vols aujourd'hui" *)
  shown_games : Z;
  shown_winnings : Z;
  shown_losses : Z
}.

(** [profil]: the profile of [member], or of the caller when none is given;
    [owner_id] is the constant [OWNER_ID]. *)
Definition profil (owner_id : Z) (author : Z) (target : option member) (now : Z)
    (st : state) : state * profile :=
  let member_id := match target with Some m => id m | None => author end in
  let '(user, st) := get_user_data member_id st in
  (st, mkProfile (member_id =? owner_id)
         (balance (deref st user))
         (items (deref st user))
         (has_boost now (deref st user))
         (length (steals (deref st user)))
         (games_played (deref st user))
         (total_winnings (deref st user))
         (total_losses (deref st user))).

(** [sum(f(user) for user in users.values())] *)
Definition sum_over (f : user → Z) (m : gmap string user) : Z :=
  map_fold (λ _ u acc, acc + f u) 0 m.

(** [stats]: the number of players, the coins in circulation and the games
    played (the number of guilds belongs to the platform). *)
Definition stats (st : state) : nat * Z * Z :=
  (size (users st), sum_over balance (users st), sum_over games_played (users st)).

(** [sorted(l, key=balance, reverse=True)]: the stable sort by decreasing
    balance, entries of equal balance keeping their order. *)
Fixpoint insert_desc (x : Z * user) (l : list (Z * user)) : list (Z * user) :=
  match l with
  | [] => [x]
  | y :: l' => if balance x.2 <? balance y.2 then y :: insert_desc x l' else x :: l
  end.

Definition sorted_desc (l : list (Z * user)) : list (Z * user) :=
  foldr insert_desc [] l.

(** [classement]: the ten entries displayed; [entries] is [users.items()] in
    the order of the dictionary, each key read back with [int]. *)
Definition classement (owner_id : Z) (entries : list (Z * user)) : list (Z * user) :=
  let ranking :=
    sorted_desc
      (List.filter (λ e, negb (e.1 =? owner_id) && (0 <? balance e.2)) entries) in
  take 10 ranking.

(** ** Notions used by the further properties *)

(** The users whose accounts a command looks up. *)
Definition parties (c : command) : list Z :=
  match c with
  | Daily author _ _ | Acheter author _ _ => [author]
  | Steal author cible _ _ _ _ => [author; id cible]
  | Give _ target _ | Remove _ target _ => [id target]
  | Don author membre _ => [author; id membre]
  | Coinflip author _ _ _ _ | Dice author _ _ _ _ | Roulette author _ _ _ _
  | Blackjack author _ _ _ | Slot author _ _ _ _ _ => [author]
  end.

(** The statistics of [u'] are those of [u] or larger. *)
Definition counters_grow (u u' : user) : Prop :=
  games_played u ≤ games_played u'
  ∧ total_winnings u ≤ total_winnings u'
  ∧ total_losses u ≤ total_losses u'.

(** Every account of the dictionary satisfies [P]. *)
Definition every_account (P : user → Prop) (m : gmap string user) : Prop :=
  map_Forall (λ _ u, P u) m.

(** The command was carried out: neither rejected nor interrupted. *)
Definition carried_out (r : reply) : bool :=
  match r with
  | GameResult _ | DailyGranted _ | Bought _ _ | StealCaught | StealDone _
  | Given _ | Removed _ | DonDone _ => true
  | _ => false
  end.

(** What the command [c], answered by [r], makes of the account [u] of the
    user [a]; it gathers, answer by answer, the updates of the command. *)
Definition effect (c : command) (r : reply) (a : Z) (u : user) : user :=
  match c, r with
  | Daily author now _, DailyGranted gain =>
      if a =? author
      then with_last_daily (isoformat now) (with_balance (λ b, b + gain) u)
      else u
  | Acheter author _ now, Bought objet prix =>
      if a =? author then
        let u := with_items (λ l, l ++ [objet]) (with_balance (λ b, b - prix) u) in
        if Py.contains "boost" objet
        then with_boost_end (Some (isoformat (now + hours 1))) u
        else u
      else u
  | Steal author _ now_reset _ _ _, (StealLimit _ | VictimTooPoor) =>
      if a =? author then reset_steals_if_needed now_reset u else u
  | Steal author _ now_reset now _ _, StealCaught =>
      if a =? author
      then with_steals (λ l, l ++ [date now]) (reset_steals_if_needed now_reset u)
      else u
  | Steal author cible now_reset now _ _, StealDone gain =>
      if a =? author
      then with_steals (λ l, l ++ [date now])
             (with_balance (λ b, b + gain) (reset_steals_if_needed now_reset u))
      else if a =? id cible then with_balance (λ b, b - gain) u
      else u
  | Give _ target _, Given amount =>
      if a =? id target then with_balance (λ b, b + amount) u else u
  | Remove _ target _, Removed amount =>
      if a =? id target then with_balance (λ b, Z.max (b - amount) 0) u else u
  | Don author membre _, DonDone montant =>
      if a =? author then with_balance (λ b, b - montant) u
      else if a =? id membre then with_balance (λ b, b + montant) u
      else u
  | (Coinflip author mise _ _ _ | Dice author mise _ _ _ | Roulette author mise _ _ _
    | Blackjack author mise _ _ | Slot author mise _ _ _ _), GameResult o =>
      if a =? author then settle mise o u else u
  | Dice author mise _ _ _, Crashed =>
      if a =? author then with_balance (λ b, b - mise) u else u
  | _, _ => u
  end.

(** A session: the commands the bot serves one after the other, each with
    the fate of its write to the file. *)
Fixpoint session (fuel : nat) (cs : list (write * command)) (st : state) : option state :=
  match cs with
  | [] => Some st
  | (io, c) :: cs' =>
      match run fuel io c st with
      | Some (st', _) => session fuel cs' st'
      | None => None
      end
  end.

(** The number of games a reply reports as played. *)
Definition games_of (r : reply) : Z :=
  match r with
  | GameResult _ => 1
  | _ => 0
  end.

(** The commands that move coins from one account to another. *)
Definition transfer (c : command) : bool :=
  match c with
  | Don _ _ _ | Steal _ _ _ _ _ _ => true
  | _ => false
  end.

(** The entries [classement] ranks: not the owner, and a positive balance. *)
Definition ranked (owner_id : Z) (e : Z * user) : Prop :=
  e.1 ≠ owner_id ∧ 0 < balance e.2.

(** The dictionary in which the account of each user of [l] is [g] of it. *)
Definition written (g : Z → user) (l : list Z) (m : gmap string user) : gmap string user :=
  foldr (λ a m', <[pretty a := g a]> m') m l.

(** The dictionary a command that touched the store leaves. *)
Definition applied (c : command) (r : reply) (st : state) : gmap string user :=
  written (λ a, effect c r a (account st a)) (parties c) (users st).

(** The total of [f] beyond what the default records contribute. *)
Definition circulation (f : user → Z) (m : gmap string user) : Z :=
  sum_over f m - f new_user * Z.of_nat (size m).

(** The account after a granted claim. *)
Definition granted (now gain : Z) (u : user) : user :=
  with_last_daily (isoformat now) (with_balance (λ b, b + gain) u).

(** The colour of the pocket the ball lands in, by its index on the wheel. *)
Definition pocket (n : nat) : string :=
  if (n <? 18)%nat then "rouge" else if (n <? 36)%nat then "noir" else "vert".

(** The multiplier of a winning bet on [colour]. *)
Definition colour_odds (colour : string) : Z :=
  if String.eqb colour "vert" then 35 else 2.

(** [x] is listed before [y]: its balance is at least that of [y]. *)
Definition before (x y : Z * user) : Prop := balance y.2 ≤ balance x.2.


(** Whether the text starts with the bytes of the KELVIN SIGN. *)
Definition kelvin_at (s : string) : bool :=
  match s with
  | String c (String c2 (String c3 _)) => Py.is_kelvin c c2 c3
  | _ => false
  end.

(** The account [after] is [before] with one game of stake [mise] and
    outcome [o] recorded: one game more, the payout credited against the
    stake, and the winnings or the losses increased. *)
Definition recorded (mise : Z) (o : outcome) (before after : user) : Prop :=
  games_played after = games_played before + 1
  ∧ balance after = balance before - mise + payout mise o
  ∧ (mise < payout mise o →
       total_winnings after = total_winnings before + (payout mise o - mise)
       ∧ total_losses after = total_losses before)
  ∧ (payout mise o ≤ mise →
       total_losses after = total_losses before + mise
       ∧ total_winnings after = total_winnings before)
  ∧ (o = Push →
       total_losses after = total_losses before + mise
       ∧ balance after = balance before).

(** The same request made again: the same command with the same arguments,
    whatever the clock readings, the random draws and the fate of the write
    of the second call. *)
Definition same_request (c c' : command) : Prop :=
  match c, c' with
  | Daily a _ _, Daily a' _ _ => a' = a
  | Acheter a objet _, Acheter a' objet' _ => a' = a ∧ objet' = objet
  | Steal a cible _ _ _ _, Steal a' cible' _ _ _ _ => a' = a ∧ cible' = cible
  | Give owner target amount, Give owner' target' amount' =>
      owner' = owner ∧ target' = target ∧ amount' = amount
  | Remove owner target amount, Remove owner' target' amount' =>
      owner' = owner ∧ target' = target ∧ amount' = amount
  | Don a membre montant, Don a' membre' montant' =>
      a' = a ∧ membre' = membre ∧ montant' = montant
  | Coinflip a mise _ _ _, Coinflip a' mise' _ _ _ => a' = a ∧ mise' = mise
  | Dice a mise _ _ _, Dice a' mise' _ _ _ => a' = a ∧ mise' = mise
  | Roulette a mise couleur _ _, Roulette a' mise' couleur' _ _ =>
      a' = a ∧ mise' = mise ∧ couleur' = couleur
  | Blackjack a mise _ _, Blackjack a' mise' _ _ => a' = a ∧ mise' = mise
  | Slot a mise _ _ _ _, Slot a' mise' _ _ _ _ => a' = a ∧ mise' = mise
  | _, _ => False
  end.

(** The second call reads the clock as the first did, as far as a rejection
    can tell: the same instant in [daily], the same day in [steal]. *)
Definition same_time (c c' : command) : Prop :=
  match c, c' with
  | Daily _ now _, Daily _ now' _ => now' = now
  | Steal _ _ now_reset _ _ _, Steal _ _ now_reset' _ _ _ =>
      date now_reset' = date now_reset
  | _, _ => True
  end.

(** The rejections that depend on the clock: the cooldown of [daily], and
    the quota and the poor victim of [steal], which come after the pruning
    of the steals of the day. *)
Definition timed (r : reply) : bool :=
  match r with
  | DailyTooSoon _ | StealLimit _ | VictimTooPoor => true
  | _ => false
  end.

(** The rejections that come before any account is looked up. *)
Definition early (r : reply) : bool :=
  match r with
  | BadColour | CannotSteal | NotOwner => true
  | _ => false
  end.

(** The state a rejection of the command [c] leaves: nothing is touched by
    an early rejection; otherwise the accounts the command looked up exist,
    and the caller of [steal] has the steals pruned to those of the day. *)
Definition left_by_rejection (c : command) (r : reply) (st : state) : state :=
  if early r then st else
  match c with
  | Steal a cible now_reset _ _ _ =>
      update (pretty a) (reset_steals_if_needed now_reset)
        (ensure (id cible) (ensure a st))
  | Don a membre _ => ensure (id membre) (ensure a st)
  | Give _ target _ | Remove _ target _ => ensure (id target) st
  | Daily a _ _ | Acheter a _ _ | Coinflip a _ _ _ _ | Dice a _ _ _ _
  | Roulette a _ _ _ _ | Blackjack a _ _ _ | Slot a _ _ _ _ _ => ensure a st
  end.

(** ** Basic facts about the store *)

Lemma get_user_data_ensure uid st :
  get_user_data uid st = (pretty uid, ensure uid st).
Proof. unfold ensure, get_user_data. by destruct (users st !! pretty uid). Qed.

Lemma ensure_insert uid st :
  ensure uid st = mkState (<[pretty uid := account st uid]> (users st)) (disk st).
Proof.
  unfold ensure, get_user_data, account.
  destruct (users st !! pretty uid) as [u|] eqn:E; simpl.
  - rewrite insert_id; [by destruct st | done].
  - done.
Qed.

Lemma ensure_present uid st u :
  users st !! pretty uid = Some u → ensure uid st = st.
Proof. intros E. unfold ensure, get_user_data. by rewrite E. Qed.

Lemma update_insert k f u m d :
  update k f (mkState (<[k := u]> m) d) = mkState (<[k := f u]> m) d.
Proof. unfold update, set_users; simpl. by rewrite alter_insert_eq. Qed.

Lemma deref_insert k u m d : deref (mkState (<[k := u]> m) d) k = u.
Proof. unfold deref; simpl. by rewrite lookup_total_insert_eq. Qed.

Lemma update_insert2 k1 k2 f u1 u2 m d :
  k1 ≠ k2 →
  update k1 f (mkState (<[k2 := u2]> (<[k1 := u1]> m)) d)
  = mkState (<[k2 := u2]> (<[k1 := f u1]> m)) d.
Proof.
  intros Hne. unfold update, set_users; simpl.
  by rewrite alter_insert_ne, alter_insert_eq.
Qed.

Lemma deref_insert2 k1 k2 u1 u2 m d :
  k1 ≠ k2 → deref (mkState (<[k2 := u2]> (<[k1 := u1]> m)) d) k1 = u1.
Proof.
  intros Hne. unfold deref; simpl.
  by rewrite lookup_total_insert_ne, lookup_total_insert_eq.
Qed.

Lemma account_insert uid u m d : account (mkState (<[pretty uid := u]> m) d) uid = u.
Proof. unfold account; simpl. by rewrite lookup_insert_eq. Qed.

Lemma pretty_ne (a b : Z) : a ≠ b → pretty a ≠ pretty b.
Proof. intros Hne E. by apply Hne, (inj pretty). Qed.

(** Rewriting a command into its effect on the accounts it touches. *)
Ltac store_simpl :=
  repeat first
    [ rewrite get_user_data_ensure
    | rewrite ensure_insert
    | rewrite update_insert
    | rewrite deref_insert
    | rewrite update_insert2 by (done || by apply pretty_ne)
    | rewrite deref_insert2 by (done || by apply pretty_ne)
    | progress cbn [save_users users disk fst snd set_users] ].

(** ** Boost multiplier *)

Lemma mem_In x l : Py.mem x l = true ↔ In x l.
Proof.
  unfold Py.mem. rewrite existsb_exists. split.
  - intros (y & Hy & E). apply String.eqb_eq in E. by subst.
  - intros H. exists x. split; [done | apply String.eqb_refl].
Qed.

Lemma mem_not_In x l : Py.mem x l = false ↔ ¬ In x l.
Proof. rewrite <- mem_In. by destruct (Py.mem x l). Qed.

Lemma has_boost_iff now u :
  has_boost now u = true ↔ ∃ t, boost_end u = Some (Iso t) ∧ now < t.
Proof.
  unfold has_boost. destruct (boost_end u) as [[t|text]|]; simpl.
  - rewrite Z.ltb_lt. split; [eauto | by intros (t' & [= ->] & ?)].
  - destruct (negb _); split; try done; by intros (? & ? & ?).
  - split; [done | by intros (? & ? & ?)].
Qed.

Lemma get_boost_multiplier_range now u : 1 ≤ get_boost_multiplier now u ≤ 3.
Proof. unfold get_boost_multiplier. repeat case_match; lia. Qed.

(** C7: the boost multiplier is 1, 2 or 3; it is 1 without an active boost,
    that is when [boost_end] is absent, does not parse (no exception is
    raised) or is not strictly later than now; with an active boost it is 3
    when boost_x3 is owned, else 2 when boost_x2 is owned, else 1. *)
Theorem boost_multiplier_spec (now : Z) (u : user) :
  (get_boost_multiplier now u = 1 ∨ get_boost_multiplier now u = 2
   ∨ get_boost_multiplier now u = 3)
  ∧ (has_boost now u = true ↔ ∃ t, boost_end u = Some (Iso t) ∧ now < t)
  ∧ (boost_end u = None → get_boost_multiplier now u = 1)
  ∧ (∀ text, boost_end u = Some (Unparsable text) →
       has_boost now u = false ∧ get_boost_multiplier now u = 1)
  ∧ (∀ t, boost_end u = Some (Iso t) → t ≤ now → get_boost_multiplier now u = 1)
  ∧ (has_boost now u = false → get_boost_multiplier now u = 1)
  ∧ (has_boost now u = true →
       (In "boost_x3"%string (items u) → get_boost_multiplier now u = 3)
       ∧ (¬ In "boost_x3"%string (items u) → In "boost_x2"%string (items u) →
            get_boost_multiplier now u = 2)
       ∧ (¬ In "boost_x3"%string (items u) → ¬ In "boost_x2"%string (items u) →
            get_boost_multiplier now u = 1)).
Proof.
  assert (Hoff : has_boost now u = false → get_boost_multiplier now u = 1).
  { intros H. unfold get_boost_multiplier. by rewrite H. }
  split; [unfold get_boost_multiplier; repeat case_match; auto|].
  split; [apply has_boost_iff|].
  split; [intros E; apply Hoff; unfold has_boost; by rewrite E|].
  split.
  { intros text E. assert (has_boost now u = false) as Hb; [|by auto].
    unfold has_boost. rewrite E. simpl. by destruct (negb _). }
  split.
  { intros t E Hle. apply Hoff. unfold has_boost. rewrite E. simpl.
    apply Z.ltb_ge. lia. }
  split; [done|].
  intros Hon. unfold get_boost_multiplier. rewrite Hon. simpl.
  split; [|split].
  - intros H3. apply mem_In in H3. by rewrite H3.
  - intros H3 H2. apply mem_not_In in H3. apply mem_In in H2. by rewrite H3, H2.
  - intros H3 H2. apply mem_not_In in H3. apply mem_not_In in H2. by rewrite H3, H2.
Qed.


(** ** Blackjack hands *)

Lemma reduce_aces_run aces total :
  ∃ aces', rtc ace_step (total, aces) (reduce_aces aces total, aces')
           ∧ ace_halted (reduce_aces aces total, aces').
Proof.
  revert total. induction aces as [|aces IH]; intros total; simpl.
  - exists 0%nat. split; [apply rtc_refl | by right].
  - destruct (21 <? total) eqn:E.
    + apply Z.ltb_lt in E. destruct (IH (total - 10)) as (a' & Hrun & Hhalt).
      exists a'. split; [|done]. eapply rtc_l; [|exact Hrun]. by constructor.
    + apply Z.ltb_ge in E. exists (S aces). split; [apply rtc_refl | by left].
Qed.

Lemma ace_halted_no_step s s' : ace_halted s → ¬ ace_step s s'.
Proof. intros [H|H] Hstep; inversion Hstep; subst; simpl in *; [lia | done]. Qed.

Lemma ace_step_det s s1 s2 : ace_step s s1 → ace_step s s2 → s1 = s2.
Proof. intros H1 H2. inversion H1; subst. by inversion H2. Qed.

Lemma ace_run_unique s s1 s2 :
  rtc ace_step s s1 → ace_halted s1 → rtc ace_step s s2 → ace_halted s2 → s1 = s2.
Proof.
  intros H1. revert s2. induction H1 as [s|s m s1 Hsm Hrun IH]; intros s2 Hh1 H2 Hh2.
  - destruct H2 as [|s m s2 Hstep _]; [done|].
    by destruct (ace_halted_no_step _ _ Hh1 Hstep).
  - destruct H2 as [|s m' s2 Hstep Hrest].
    + by destruct (ace_halted_no_step _ _ Hh2 Hsm).
    + rewrite <- (ace_step_det _ _ _ Hsm Hstep) in Hrest. by apply IH.
Qed.

(** C8: [get_hand_value] sums the cards and then subtracts 10 per card worth
    11 while the total exceeds 21 and such a card is left: its result is
    the total at which that loop stops, and the only one; the hand
    [11, 11, 10] is worth 12 and the hand [10, 10, 5] is worth 25, a bust. *)
Theorem get_hand_value_reducer (cards : list Z) :
  (∃ aces', rtc ace_step (Py.sum cards, Py.count 11 cards) (get_hand_value cards, aces')
            ∧ ace_halted (get_hand_value cards, aces'))
  ∧ (∀ total aces', rtc ace_step (Py.sum cards, Py.count 11 cards) (total, aces') →
       ace_halted (total, aces') → total = get_hand_value cards)
  ∧ get_hand_value [11; 11; 10] = 12
  ∧ get_hand_value [10; 10; 5] = 25
  ∧ 21 < get_hand_value [10; 10; 5].
Proof.
  split; [apply reduce_aces_run|]. split; [|by vm_compute].
  intros total aces' Hrun Hhalt.
  destruct (reduce_aces_run (Py.count 11 cards) (Py.sum cards)) as (a & Hrun' & Hhalt').
  by injection (ace_run_unique _ _ _ Hrun Hhalt Hrun' Hhalt').
Qed.

Lemma get_card_value_range k : 1 ≤ get_card_value k ≤ 11.
Proof.
  unfold get_card_value, Random.randint.
  pose proof (Z.mod_pos_bound (Z.of_nat k) (11 - 1 + 1)). lia.
Qed.

Lemma reduce_aces_lower aces total :
  total - 10 * Z.of_nat aces ≤ reduce_aces aces total.
Proof.
  revert total. induction aces as [|aces IH]; intros total; simpl; [lia|].
  destruct (21 <? total); [specialize (IH (total - 10))|]; lia.
Qed.

Lemma count_cons v c l :
  Py.count v (c :: l) = ((if (c =? v)%Z then 1 else 0) + Py.count v l)%nat.
Proof. unfold Py.count. simpl. by destruct (c =? v). Qed.

(** Every card weighs at least 1 once each ace has given up its 10. *)
Lemma hand_weight cards :
  Forall (λ c, 1 ≤ c ≤ 11) cards →
  Z.of_nat (length cards) ≤ Py.sum cards - 10 * Z.of_nat (Py.count 11 cards).
Proof.
  induction 1 as [|c l Hc _ IH]; [done|].
  rewrite count_cons. simpl. destruct (c =? 11) eqn:E; [apply Z.eqb_eq in E|]; lia.
Qed.

Lemma hand_value_length cards :
  Forall (λ c, 1 ≤ c ≤ 11) cards → Z.of_nat (length cards) ≤ get_hand_value cards.
Proof.
  intros H. apply hand_weight in H. unfold get_hand_value.
  pose proof (reduce_aces_lower (Py.count 11 cards) (Py.sum cards)). lia.
Qed.

Lemma dealt_cards_valid (ks : list nat) :
  Forall (λ c, 1 ≤ c ≤ 11) (map get_card_value ks).
Proof. apply Forall_map, Forall_forall. intros k _. apply get_card_value_range. Qed.

Lemma dealer_hits_total fuel draw i cards :
  Forall (λ c, 1 ≤ c ≤ 11) cards →
  (17 ≤ length cards + fuel)%nat →
  ∃ final, dealer_hits fuel draw i cards = Some final
           ∧ 17 ≤ get_hand_value final
           ∧ (length final ≤ Nat.max 17 (length cards))%nat.
Proof.
  revert i cards. induction fuel as [|fuel IH]; intros i cards Hvalid Hlen; simpl.
  - pose proof (hand_value_length cards Hvalid) as Hv.
    destruct (get_hand_value cards <? 17) eqn:E; [apply Z.ltb_lt in E; lia|].
    apply Z.ltb_ge in E. exists cards. split; [done|]. split; [done | lia].
  - destruct (get_hand_value cards <? 17) eqn:E.
    + apply Z.ltb_lt in E. pose proof (hand_value_length cards Hvalid) as Hv.
      destruct (IH (S i) (cards ++ [get_card_value (draw i)])) as (final & Hrun & Hge & Hl).
      * apply Forall_app. split; [done|]. repeat constructor; apply get_card_value_range.
      * rewrite length_app. simpl. lia.
      * exists final. split; [done|]. split; [done|].
        rewrite length_app in Hl. simpl in Hl. lia.
    + apply Z.ltb_ge in E. exists cards. split; [done|]. split; [done | lia].
Qed.

(** C10, as the code has it: a hand of [n] cards drawn from 1..11 is worth
    at least [n] after the aces are reduced, so for every sequence of draws
    the dealer's loop stops after at most 15 cards (17 in hand), and on exit
    the dealer's reduced total is at least 17. *)
Theorem dealer_loop_terminates (n : nat) (draw : nat → nat) :
  (∀ ks : list nat, Z.of_nat (length ks) ≤ get_hand_value (map get_card_value ks))
  ∧ ∃ final,
      dealer_hits (15 + n) draw 4
        [get_card_value (draw 2%nat); get_card_value (draw 3%nat)] = Some final
      ∧ 17 ≤ get_hand_value final
      ∧ (length final ≤ 17)%nat.
Proof.
  split.
  - intros ks. rewrite <- (length_map get_card_value).
    apply hand_value_length, dealt_cards_valid.
  - destruct (dealer_hits_total (15 + n) draw 4
                [get_card_value (draw 2%nat); get_card_value (draw 3%nat)])
      as (final & Hrun & Hge & Hl).
    + repeat constructor; apply get_card_value_range.
    + simpl. lia.
    + exists final. split; [done|]. split; [done|]. simpl in Hl. lia.
Qed.

(** C10 as stated fails in its reason: a drawn card can lower the reduced
    value of the dealer's hand: [11, 5] is worth 16 and, after a 6 is drawn,
    [11, 5, 6] is worth 12. *)
Lemma drawn_card_can_lower_hand_value :
  ¬ (∀ (cards : list Z) (k : nat),
       Forall (λ c, 1 ≤ c ≤ 11) cards → get_hand_value cards < 17 →
       get_hand_value cards + 1 ≤ get_hand_value (cards ++ [get_card_value k])).
Proof.
  intros H.
  assert (get_hand_value [11; 5] + 1
          ≤ get_hand_value ([11; 5] ++ [get_card_value 5%nat])) as Hle.
  { apply H; [|by vm_compute]. repeat constructor; lia. }
  vm_compute in Hle. by apply Hle.
Qed.

(** ** Wagers *)

Lemma validate_bet_cases u mise :
  (mise ≤ 0 ∧ validate_bet u mise = (false, BetNotPositive))
  ∨ (0 < mise ∧ balance u < mise ∧ validate_bet u mise = (false, BetTooHigh))
  ∨ (0 < mise ≤ balance u ∧ validate_bet u mise = (true, NoMessage)).
Proof.
  unfold validate_bet.
  destruct (mise <=? 0) eqn:E1; [apply Z.leb_le in E1; auto | apply Z.leb_gt in E1].
  destruct (balance u <? mise) eqn:E2; [apply Z.ltb_lt in E2 | apply Z.ltb_ge in E2].
  - right; left. auto.
  - right; right. auto with lia.
Qed.

Lemma apply_boost_nonneg now x u : 0 ≤ x → 0 ≤ apply_boost now x u.
Proof.
  intros Hx. unfold apply_boost.
  pose proof (get_boost_multiplier_range now u). nia.
Qed.

Ltac bet_cases st author mise :=
  destruct (validate_bet_cases (account st author) mise)
    as [[? ->]|[(? & ? & ->)|[? ->]]]; cbn [negb];
  [ intros [= <- <-]; rewrite <- ensure_insert; by apply wager_not_positive
  | intros [= <- <-]; rewrite <- ensure_insert; by apply wager_too_high
  | store_simpl ].

Ltac played o :=
  intros [= <- <-]; apply (wager_played _ _ _ _ _ o);
  [ done | cbn [payout]; try apply apply_boost_nonneg; try lia ].

Lemma coinflip_cases author mise k1 k2 now io st st' r :
  coinflip author mise k1 k2 now io st = (st', r) →
  wager_result io (Coinflip author mise k1 k2 now) author mise st st' r.
Proof.
  unfold coinflip. store_simpl. bet_cases st author mise.
  destruct (String.eqb _ _); store_simpl.
  - played (Win (apply_boost now (mise * 2) (account st author))).
  - played Loss.
Qed.

(** The sign of a rounded product is the sign it was given. *)
Lemma binary_round_aux_sign sx mx ex lx :
  match binary_round_aux Float64.prec Float64.emax sx mx ex lx with
  | S754_zero s | S754_infinity s | S754_finite s _ _ => s = sx
  | S754_nan => True
  end.
Proof.
  unfold binary_round_aux.
  destruct (shr_fexp _ _ mx ex lx) as [mrs' e'].
  destruct (shr_fexp _ _ _ e' loc_Exact) as [mrs'' e''].
  destruct (shr_m mrs''); [done| |done].
  by destruct (e'' <=? _).
Qed.

Lemma of_int_sign (n : Z) :
  0 < n →
  match Float64.of_int n with
  | S754_zero s | S754_infinity s | S754_finite s _ _ => s = false
  | S754_nan => True
  end.
Proof.
  intros Hn. destruct n as [|p|p]; try lia.
  unfold Float64.of_int, binary_normalize, binary_round.
  destruct (shl_align _ _ _) as [mz ez]. apply binary_round_aux_sign.
Qed.

Lemma to_int_nonneg x v :
  match x with
  | S754_zero s | S754_infinity s | S754_finite s _ _ => s = false
  | S754_nan => True
  end →
  Float64.to_int x = Some v → 0 ≤ v.
Proof.
  destruct x as [s|s| |s m e]; simpl; try done.
  - by intros _ [= <-].
  - intros -> [= <-]. simpl. destruct (0 <=? e) eqn:E.
    + apply Z.mul_nonneg_nonneg; [lia | apply Z.pow_nonneg; lia].
    + apply Z.leb_gt in E. apply Z.div_pos; [lia | apply Z.pow_pos_nonneg; lia].
Qed.

Lemma int_times_1_8_nonneg mise v :
  0 < mise → Float64.int_times_1_8 mise = Some v → 0 ≤ v.
Proof.
  intros Hm. unfold Float64.int_times_1_8.
  pose proof (of_int_sign mise Hm) as Hs.
  destruct (Float64.of_int mise) as [s|s| |s m e]; try done.
  - subst s. by intros [= <-].
  - subst s. apply to_int_nonneg. unfold Float64.mul, SFmul, Float64.lit_1_8.
    apply binary_round_aux_sign.
Qed.

Lemma dice_cases author mise k1 k2 now io st st' r :
  dice author mise k1 k2 now io st = (st', r) →
  wager_result io (Dice author mise k1 k2 now) author mise st st' r.
Proof.
  unfold dice. store_simpl. bet_cases st author mise.
  destruct (_ <? _).
  - destruct (Float64.int_times_1_8 mise) as [scaled|] eqn:E; store_simpl.
    + played (Win (apply_boost now scaled (account st author))).
      eapply int_times_1_8_nonneg; [|done]. lia.
    + intros [= <- <-]. by eapply wager_crashed.
  - destruct (_ =? _); store_simpl.
    + played Push.
    + played Loss.
Qed.

Lemma roulette_cases author mise couleur k now io st st' r :
  roulette author mise couleur k now io st = (st', r) →
  wager_result io (Roulette author mise couleur k now) author mise st st' r.
Proof.
  unfold roulette.
  destruct (Py.mem _ _) eqn:Ecol; cbn [negb].
  2: { intros [= <- <-]. by eapply wager_bad_colour. }
  store_simpl. bet_cases st author mise.
  destruct (String.eqb (Py.lower couleur) _); store_simpl.
  - destruct (String.eqb (Py.lower couleur) "vert").
    + played (Win (apply_boost now (mise * 35) (account st author))).
    + played (Win (apply_boost now (mise * 2) (account st author))).
  - played Loss.
Qed.

Lemma blackjack_cases fuel author mise draw now io st st' r :
  blackjack fuel author mise draw now io st = Some (st', r) →
  wager_result io (Blackjack author mise draw now) author mise st st' r.
Proof.
  unfold blackjack. store_simpl.
  destruct (validate_bet_cases (account st author) mise)
    as [[? ->]|[(? & ? & ->)|[? ->]]]; cbn [negb].
  - intros [= <- <-]. rewrite <- ensure_insert. by apply wager_not_positive.
  - intros [= <- <-]. rewrite <- ensure_insert. by apply wager_too_high.
  - store_simpl. destruct (dealer_hits _ _ _ _) as [dealer_cards|]; [|done].
    destruct (21 <? get_hand_value [_; _]); store_simpl.
    { played Loss. }
    destruct (21 <? _); store_simpl.
    { played (Win (apply_boost now (mise * 2) (account st author))). }
    destruct (_ <? _); store_simpl.
    { played (Win (apply_boost now (mise * 2) (account st author))). }
    destruct (_ =? _); store_simpl.
    + played Push.
    + played Loss.
Qed.

Lemma slot_cases author mise k1 k2 k3 now io st st' r :
  slot author mise k1 k2 k3 now io st = (st', r) →
  wager_result io (Slot author mise k1 k2 k3 now) author mise st st' r.
Proof.
  unfold slot. store_simpl. bet_cases st author mise.
  destruct (0 <? _) eqn:E; store_simpl.
  - apply Z.ltb_lt in E.
    played (Win (apply_boost now
                   (mise * slot_multiplier (Random.choices symbols weights Apple k1)
                             (Random.choices symbols weights Apple k2)
                             (Random.choices symbols weights Apple k3))
                   (account st author))).
  - played Loss.
Qed.

(** Every wager ends in one of the ways of [wager_result]. *)
Lemma wager_cases fuel io c g author mise st st' r :
  wager_of c = Some (g, author, mise) →
  run fuel io c st = Some (st', r) →
  wager_result io c author mise st st' r.
Proof.
  destruct c; try done; intros [= <- <- <-]; simpl.
  - intros [= H]. by apply coinflip_cases.
  - intros [= H]. by apply dice_cases.
  - intros [= H]. by apply roulette_cases.
  - by apply blackjack_cases.
  - intros [= H]. by apply slot_cases.
Qed.

Lemma account_save_users io st uid :
  account (save_users io st) uid = account st uid.
Proof. by destruct io. Qed.

Lemma account_put uid u st : account (put uid u st) uid = u.
Proof. unfold put. apply account_insert. Qed.

(** ** Rejection paths *)

Lemma rejected_state fuel io c st st' r :
  run fuel io c st = Some (st', r) → rejection r = true → rejected_from c st st'.
Proof.
  intros Hrun.
  destruct (wager_of c) as [[[g author] mise]|] eqn:Hw.
  { apply (wager_cases _ _ _ _ _ _ _ _ _ Hw) in Hrun.
    inversion Hrun; subst; try done; constructor. }
  destruct c; try done; simpl in Hrun; injection Hrun as Hrun; revert Hrun.
  - (* daily *)
    unfold daily. rewrite get_user_data_ensure.
    repeat case_match; intros [= <- <-]; try done; intros _; constructor.
  - (* acheter *)
    unfold acheter. rewrite get_user_data_ensure.
    repeat case_match; intros [= <- <-]; try done; intros _; constructor.
  - (* steal *)
    unfold steal.
    destruct (bot cible || (id cible =? author)) eqn:E.
    + intros [= <- <-] _. constructor.
    + apply orb_false_iff in E as [_ E]. apply Z.eqb_neq in E.
      rewrite !get_user_data_ensure.
      repeat case_match; intros [= <- <-]; try done; intros _;
        by eapply rejected_pruned.
  - (* give *)
    unfold give. destruct owner; simpl.
    + rewrite get_user_data_ensure. by intros [= <- <-].
    + intros [= <- <-] _. constructor.
  - (* remove *)
    unfold remove. destruct owner; simpl.
    + rewrite get_user_data_ensure. by intros [= <- <-].
    + intros [= <- <-] _. constructor.
  - (* don *)
    unfold don. rewrite !get_user_data_ensure.
    repeat case_match; intros [= <- <-]; try done; intros _; constructor.
Qed.

Lemma ensure_disk a st : disk (ensure a st) = disk st.
Proof. by rewrite ensure_insert. Qed.

Lemma ensure_keeps a st k u :
  users st !! k = Some u → users (ensure a st) !! k = Some u.
Proof.
  intros E. rewrite ensure_insert. simpl. unfold account.
  destruct (decide (k = pretty a)) as [->|Hne].
  - rewrite E. simpl. by rewrite lookup_insert_eq.
  - by rewrite lookup_insert_ne.
Qed.

Lemma ensure_fresh a st k :
  users st !! k = None →
  users (ensure a st) !! k = None ∨ users (ensure a st) !! k = Some new_user.
Proof.
  intros E. rewrite ensure_insert. simpl. unfold account.
  destruct (decide (k = pretty a)) as [->|Hne].
  - right. rewrite E. simpl. by rewrite lookup_insert_eq.
  - left. by rewrite lookup_insert_ne.
Qed.

Lemma same_but_steals_refl u : same_but_steals u u.
Proof. by repeat split. Qed.

(** The rejections that come before any account is looked up. *)
Lemma early_rejection fuel io c st st' r :
  run fuel io c st = Some (st', r) →
  r = BadColour ∨ r = CannotSteal ∨ r = NotOwner → st' = st.
Proof.
  intros Hrun.
  destruct (wager_of c) as [[[g author] mise]|] eqn:Hw.
  { apply (wager_cases _ _ _ _ _ _ _ _ _ Hw) in Hrun.
    inversion Hrun; subst; try done; by intros [|[|]]. }
  destruct c; try done; simpl in Hrun; injection Hrun as Hrun; revert Hrun.
  - unfold daily. rewrite get_user_data_ensure.
    repeat case_match; intros [= <- <-]; by intros [|[|]].
  - unfold acheter. rewrite get_user_data_ensure.
    repeat case_match; intros [= <- <-]; by intros [|[|]].
  - unfold steal. destruct (bot cible || (id cible =? author)).
    + by intros [= <- <-].
    + rewrite !get_user_data_ensure.
      repeat case_match; intros [= <- <-]; by intros [|[|]].
  - unfold give. destruct owner; simpl.
    + rewrite get_user_data_ensure. intros [= <- <-]; by intros [|[|]].
    + by intros [= <- <-].
  - unfold remove. destruct owner; simpl.
    + rewrite get_user_data_ensure. intros [= <- <-]; by intros [|[|]].
    + by intros [= <- <-].
  - unfold don. rewrite !get_user_data_ensure.
    repeat case_match; intros [= <- <-]; by intros [|[|]].
Qed.

(** ** Shop *)

Lemma deref_lookup st k u : users st !! k = Some u → deref st k = u.
Proof. intros E. unfold deref. by apply lookup_total_correct. Qed.

(** C5, as the code has it: buying again an item of the catalogue that the
    account already owns is always rejected and leaves the store unchanged,
    whatever the state of the boost; the rejection is AlreadyOwned when the
    balance still covers the price, and InsufficientFunds otherwise, because
    the price is checked first. *)
Theorem acheter_owned_item author objet now io st u prix :
  users st !! pretty author = Some u →
  prix_of (Py.replace " " "_" (Py.lower objet)) = Some prix →
  In (Py.replace " " "_" (Py.lower objet)) (items u) →
  acheter author objet now io st
  = (st, if balance u <? prix then TooExpensive prix else AlreadyOwned)
  ∧ rejection (if balance u <? prix then TooExpensive prix else AlreadyOwned) = true.
Proof.
  intros Hu Hprix Hown. split; [|by destruct (balance u <? prix)].
  unfold acheter. rewrite get_user_data_ensure, (ensure_present _ _ _ Hu).
  cbn zeta. rewrite Hprix, (deref_lookup _ _ _ Hu).
  apply mem_In in Hown. rewrite Hown. by destruct (balance u <? prix).
Qed.

Lemma acheter_owned_item_witness :
  let u := mkUser 2000 (Unparsable "") [] ["boost_x2"%string] (Some (Iso 5)) 0 0 0 in
  acheter 1 "Boost X2" 10 Written (single 1 u) = (single 1 u, AlreadyOwned).
Proof.
  intros u.
  apply (acheter_owned_item 1 "Boost X2" 10 Written (single 1 u) u 1200);
    [by vm_compute | by vm_compute | by left].
Defined.

(** C5 as stated fails: with exactly 1200 coins, boost_x2 is bought and a
    second purchase right after is rejected for insufficient funds, not as
    already owned. *)
Lemma second_purchase_not_already_owned :
  let st0 := single 1 (mkUser 1200 (Unparsable "") [] [] None 0 0 0) in
  let st1 := (acheter 1 "boost_x2" 0 Written st0).1 in
  (acheter 1 "boost_x2" 0 Written st0).2 = Bought "boost_x2" 1200
  ∧ In "boost_x2"%string (items (account st1 1))
  ∧ (acheter 1 "boost_x2" 1 Written st1).2 = TooExpensive 1200
  ∧ (acheter 1 "boost_x2" 1 Written st1).2 ≠ AlreadyOwned.
Proof. vm_compute. repeat split; auto; discriminate. Qed.

(** ** Steal *)

Lemma account_beside k u uid st d :
  k ≠ pretty uid → account (mkState (<[k := u]> (users st)) d) uid = account st uid.
Proof. intros Hne. unfold account. simpl. by rewrite lookup_insert_ne. Qed.


Lemma randint_range a b k : a ≤ b → a ≤ Random.randint a b k ≤ b.
Proof.
  intros Hab. unfold Random.randint.
  pose proof (Z.mod_pos_bound (Z.of_nat k) (b - a + 1)). lia.
Qed.





(** ** Balances never go below zero, but for [give] *)

Lemma solvent_insert m k u : solvent m → 0 ≤ balance u → solvent (<[k := u]> m).
Proof. intros Hm Hu. by apply map_Forall_insert_2. Qed.

Lemma account_solvent st uid : solvent (users st) → 0 ≤ balance (account st uid).
Proof.
  intros Hm. unfold account. destruct (users st !! pretty uid) as [u|] eqn:E; simpl.
  - by apply (Hm _ _ E).
  - done.
Qed.

Lemma sound_save io m d : solvent m → solvent d → sound (save_users io (mkState m d)).
Proof. intros Hm Hd. by destruct io. Qed.

Lemma sound_ensure a st : sound st → sound (ensure a st).
Proof.
  intros [Hm Hd]. rewrite ensure_insert. split; [|done]. simpl.
  by apply solvent_insert, account_solvent.
Qed.

Lemma sound_put a u st : sound st → 0 ≤ balance u → sound (put a u st).
Proof. intros [Hm Hd] Hu. split; [|done]. by apply solvent_insert. Qed.

Lemma sound_save_users io st : sound st → sound (save_users io st).
Proof. intros [Hm Hd]. by destruct io. Qed.

Lemma sound_rejected c st st' : rejected_from c st st' → sound st → sound st'.
Proof.
  intros [|a|a b|a cible now_reset now r k _ _] Hs; auto using sound_ensure.
  destruct (sound_ensure (id cible) _ (sound_ensure a _ Hs)) as [Hm Hd].
  split; [|done]. unfold update, set_users. simpl.
  intros key u. rewrite lookup_alter_Some.
  intros [(_ & u0 & E & ->)|[_ E]]; by apply (Hm _ _ E).
Qed.

Lemma sound_wager io c author mise st st' r :
  wager_result io c author mise st st' r → sound st → sound st'.
Proof.
  intros Hw Hs. pose proof (account_solvent st author (proj1 Hs)) as Hb.
  destruct Hw as [| | |k1 k2 now _ _ Hstake|o Hstake Hpay];
    auto using sound_ensure.
  - apply sound_put; [done|]. simpl. lia.
  - apply sound_save_users, sound_put; [done|].
    destruct o; simpl in *; lia.
Qed.

(** Every command keeps the balances of the dictionary and of the file
    non-negative, except [give] with a negative amount. *)
Theorem run_sound fuel io c st st' r :
  credits_only c → sound st → run fuel io c st = Some (st', r) → sound st'.
Proof.
  intros Hc Hs Hrun.
  destruct (wager_of c) as [[[g author] mise]|] eqn:Hw.
  { eapply sound_wager; [|done]. by eapply wager_cases. }
  destruct (rejection r) eqn:Hrej.
  { eapply sound_rejected; [|done]. by eapply rejected_state. }
  pose proof Hs as [Hm Hd].
  destruct c; try done; simpl in Hrun; injection Hrun as Hrun; revert Hrun.
  - (* daily *)
    unfold daily. store_simpl.
    pose proof (account_solvent st author Hm).
    pose proof (apply_boost_nonneg now_boost 100 (account st author)).
    repeat case_match; intros [= <- <-]; try done;
      (apply sound_save; [apply solvent_insert; simpl; auto with lia | done]).
  - (* acheter *)
    unfold acheter. store_simpl.
    pose proof (account_solvent st author Hm).
    destruct (prix_of _) as [prix|]; [|by intros [= <- <-]].
    destruct (balance (account st author) <? prix) eqn:E;
      [by intros [= <- <-]|apply Z.ltb_ge in E].
    destruct (Py.mem _ _); [by intros [= <- <-]|].
    store_simpl. destruct (Py.contains _ _); store_simpl; intros [= <- <-];
      (apply sound_save; [apply solvent_insert; simpl; auto with lia | done]).
  - (* steal *)
    unfold steal. destruct (bot cible || (id cible =? author)) eqn:E.
    { by intros [= <- <-]. }
    apply orb_false_iff in E as [_ E]. apply Z.eqb_neq in E.
    assert (pretty author ≠ pretty (id cible)) as Hk by (apply pretty_ne; congruence).
    store_simpl. rewrite (account_beside _ _ _ _ _ Hk). store_simpl.
    pose proof (account_solvent st author Hm).
    pose proof (account_solvent st (id cible) Hm).
    destruct (_ <=? _); [by intros [= <- <-]|].
    destruct (balance (account st (id cible)) <? 50) eqn:Er;
      [by intros [= <- <-]|apply Z.ltb_ge in Er].
    destruct (Random.random_gt_0_7 r0); store_simpl.
    + intros [= <- <-]. apply sound_save; [|done].
      by repeat apply solvent_insert.
    + intros [= <- <-]. apply sound_save; [|done].
      assert (20 ≤ Z.min 100 (balance (account st (id cible)) / 2)).
      { apply Z.min_glb; [lia|]. apply Z.div_le_lower_bound; lia. }
      pose proof (randint_range 20 (Z.min 100 (balance (account st (id cible)) / 2)) k).
      assert (balance (account st (id cible)) / 2 ≤ balance (account st (id cible))).
      { apply Z.div_le_upper_bound; lia. }
      repeat apply solvent_insert; simpl; try done; lia.
  - (* give *)
    unfold give. destruct owner; simpl; [|by intros [= <- <-]].
    store_simpl. intros [= <- <-].
    pose proof (account_solvent st (id target) Hm). specialize (Hc eq_refl).
    apply sound_save; [|done]. apply solvent_insert; simpl; auto with lia.
  - (* remove *)
    unfold remove. destruct owner; simpl; [|by intros [= <- <-]].
    store_simpl. intros [= <- <-].
    apply sound_save; [|done]. apply solvent_insert; simpl; auto with lia.
  - (* don *)
    unfold don. rewrite !get_user_data_ensure. cbn zeta.
    destruct (bot membre); [by intros [= <- <-]|].
    destruct (id membre =? author) eqn:E; [by intros [= <- <-]|].
    apply Z.eqb_neq in E.
    assert (pretty author ≠ pretty (id membre)) as Hk by (apply pretty_ne; congruence).
    store_simpl. rewrite (account_beside _ _ _ _ _ Hk). store_simpl.
    pose proof (account_solvent st author Hm).
    pose proof (account_solvent st (id membre) Hm).
    destruct (montant <=? 0) eqn:E0; [by intros [= <- <-]|apply Z.leb_gt in E0].
    destruct (_ <? montant) eqn:E1; [by intros [= <- <-]|apply Z.ltb_ge in E1].
    store_simpl. intros [= <- <-]. apply sound_save; [|done].
    repeat apply solvent_insert; simpl; try done; lia.
Qed.

(** C1 at the input on which the code breaks it: the owner's [give] of -600
    coins to an account holding the initial 500 stores the balance -100 in
    the dictionary and writes it to the file, whereas [remove] clamps at 0. *)
Theorem give_negative_amount_breaks_solvency :
  let st' := (give true (mkMember 7 false) (-600) Written empty_state).1 in
  sound empty_state
  ∧ run 0 Written (Give true (mkMember 7 false) (-600)) empty_state
    = Some (st', Given (-600))
  ∧ balance <$> users st' !! pretty 7 = Some (-100)
  ∧ balance <$> disk st' !! pretty 7 = Some (-100)
  ∧ ¬ sound st'
  ∧ balance (account (remove true (mkMember 7 false) 600 Written empty_state).1 7) = 0.
Proof.
  intros st'.
  assert (balance <$> users st' !! pretty 7 = Some (-100)) as Hneg by by vm_compute.
  split; [split; apply map_Forall_empty|].
  split; [by vm_compute|]. split; [done|]. split; [by vm_compute|].
  split; [|by vm_compute].
  intros [Hm _]. destruct (users st' !! pretty 7) as [u|] eqn:E; [|done].
  injection Hneg as Hneg. specialize (Hm _ _ E). simpl in Hm. lia.
Qed.

(** ** Stake validation and deduction *)

Lemma run_total n io c st : ∃ st' r, run (15 + n) io c st = Some (st', r).
Proof.
  destruct c; try (simpl; eexists _, _; by rewrite <- surjective_pairing).
  unfold run, blackjack. rewrite get_user_data_ensure. cbn zeta.
  destruct (validate_bet _ _) as [[] msg]; cbn [negb]; [|by eauto].
  destruct (dealer_hits_total (15 + n) draw 4
              [get_card_value (draw 2%nat); get_card_value (draw 3%nat)])
    as (final & -> & _).
  - repeat constructor; apply get_card_value_range.
  - simpl. lia.
  - repeat case_match; eauto.
Qed.

Lemma account_ensure a st : account (ensure a st) a = account st a.
Proof. rewrite ensure_insert. apply account_insert. Qed.

(** C2, as the code has it: in every game a stake [s] with
    [0 < s <= balance] is accepted (in roulette: once the colour is one of
    rouge, noir, vert) and taken from the balance whatever the draws are, so
    that the balance ends at [balance - s] plus what the outcome credits;
    a stake that is not positive or exceeds the balance is rejected and the
    balance stays as it was. *)
Theorem stake_deducted n io c g author mise st :
  wager_of c = Some (g, author, mise) →
  let before := balance (account st author) in
  ∃ st' r,
    run (15 + n) io c st = Some (st', r)
    ∧ (0 < mise ≤ before → colour_ok c →
         rejection r = false
         ∧ balance (account st' author) = before - mise + credited mise r)
    ∧ (mise ≤ 0 ∨ before < mise →
         rejection r = true
         ∧ balance (account st' author) = before
         ∧ (colour_ok c →
              (mise ≤ 0 ∧ r = BetNotPositive) ∨ (0 < mise ∧ r = BetTooHigh))).
Proof.
  intros Hc before. destruct (run_total n io c st) as (st' & r & Hrun).
  exists st', r. split; [done|].
  apply (wager_cases _ _ _ _ _ _ _ _ _ Hc) in Hrun.
  destruct Hrun as [couleur k now -> Hbad| | |k1 k2 now -> Hover Hstake|o Hstake Hpay].
  - split; [intros _ Hok; unfold colour_ok in Hok; congruence|].
    intros _. split; [done|]. split; [done|].
    intros Hok; unfold colour_ok in Hok; congruence.
  - split; [lia|]. intros _. rewrite account_ensure. auto.
  - split; [lia|]. intros _. rewrite account_ensure. auto.
  - split; [|lia]. intros _ _. split; [done|].
    rewrite account_put. simpl. subst before. lia.
  - split; [|lia]. intros _ _. split; [done|].
    rewrite account_save_users, account_put. subst before.
    destruct o; simpl; lia.
Qed.

Lemma stake_deducted_witness :
  ∃ st' r,
    run 15 Written (Slot 1 10 99 199 299 0) empty_state = Some (st', r)
    ∧ rejection r = false
    ∧ balance (account st' 1) = 500 - 10 + credited 10 r.
Proof.
  destruct (stake_deducted 0 Written (Slot 1 10 99 199 299 0) G_slot 1 10 empty_state
              eq_refl) as (st' & r & Hrun & Hok & _).
  exists st', r. split; [exact Hrun|]. apply Hok; [by vm_compute | exact I].
Defined.

(** C2 as stated fails for roulette: a stake within the balance is neither
    validated nor deducted when the colour is not one of the three tokens. *)
Lemma roulette_bad_colour_keeps_stake :
  ¬ (∀ fuel io c g author mise st st' r,
       wager_of c = Some (g, author, mise) →
       0 < mise ≤ balance (account st author) →
       run fuel io c st = Some (st', r) →
       rejection r = false
       ∧ balance (account st' author) = balance (account st author) - mise + credited mise r).
Proof.
  intros H.
  destruct (H 0%nat Written (Roulette 1 10 "bleu" 0 0) G_roulette 1 10 empty_state
              empty_state BadColour eq_refl) as [Hrej _]; by vm_compute.
Qed.

(** ** Binary64: [int(mise * 1.8)] against the exact floor

    The lemmas below follow the rounding of [SpecFloat] on the two
    operations at hand: the conversion of a stake below [2^52], which is
    exact, and the product by the literal 1.8, whose mantissa of 105 or 106
    bits is shifted down to 53 bits and rounded to nearest. *)

(** The mantissa of [lit_1_8] is the integer nearest to [1.8 * 2^52], and it
    has 53 bits: [lit_1_8] is the double nearest to 1.8. *)
Lemma lit_1_8_nearest :
  Float64.lit_1_8 = S754_finite false 8106479329266893 (-52)
  ∧ 2 ^ 52 ≤ 8106479329266893 < 2 ^ 53
  ∧ 2 * Z.abs (5 * 8106479329266893 - 9 * 2 ^ 52) < 5
  ∧ valid_binary Float64.prec Float64.emax Float64.lit_1_8 = true.
Proof. by vm_compute. Qed.

(** Likewise the threshold of [Random.random_gt_0_7] is the integer nearest
    to [0.7 * 2^53]. *)
Lemma lit_0_7_nearest :
  2 ^ 52 ≤ 6305039478318694 < 2 ^ 53
  ∧ 2 * Z.abs (10 * 6305039478318694 - 7 * 2 ^ 53) < 10
  ∧ ∀ r, Random.random_gt_0_7 r = true ↔ 6305039478318694 < r.
Proof. split; [by vm_compute|]. split; [by vm_compute|]. intros r. apply Z.ltb_lt. Qed.

Lemma digits2_pos_size p : digits2_pos p = Pos.size p.
Proof. induction p; simpl; congruence. Qed.

Lemma digits2_pos_log2 p : Z.pos (digits2_pos p) = Z.log2 (Z.pos p) + 1.
Proof.
  rewrite digits2_pos_size. destruct p; simpl; try lia.
Qed.

Lemma digits2_pos_bounds p :
  2 ^ (Z.pos (digits2_pos p) - 1) ≤ Z.pos p < 2 ^ Z.pos (digits2_pos p).
Proof.
  rewrite digits2_pos_log2. replace (Z.log2 (Z.pos p) + 1 - 1) with (Z.log2 (Z.pos p)) by lia.
  apply Z.log2_spec. lia.
Qed.

Lemma digits2_pos_unique p d :
  2 ^ (d - 1) ≤ Z.pos p < 2 ^ d → Z.pos (digits2_pos p) = d.
Proof.
  intros H. rewrite digits2_pos_log2.
  assert (0 < d).
  { destruct (Z.lt_ge_cases 0 d) as [|Hd]; [done|].
    rewrite (Z.pow_neg_r 2 (d - 1)) in H by lia.
    assert (2 ^ d ≤ 1); [|lia].
    destruct (Z.eq_dec d 0) as [->|]; [done|]. rewrite Z.pow_neg_r; lia. }
  assert (Z.log2 (Z.pos p) = d - 1) as ->; [|lia].
  apply Z.log2_unique; [lia|]. by replace (Z.succ (d - 1)) with d by lia.
Qed.

Lemma iter_xO_pow p n : Z.pos (Pos.iter xO p n) = Z.pos p * 2 ^ Z.pos n.
Proof.
  induction n as [|n IH] using Pos.peano_ind.
  - simpl. lia.
  - rewrite Pos.iter_succ, Pos2Z.inj_succ, Z.pow_succ_r by lia.
    rewrite Pos2Z.inj_xO, IH. lia.
Qed.

Lemma shr_1_m mrs : 0 ≤ shr_m mrs → shr_m (shr_1 mrs) = shr_m mrs / 2.
Proof.
  destruct mrs as [m r s]. cbn [shr_m]. intros Hm.
  destruct m as [|[p|p|]|p]; cbn [shr_1 shr_m]; try done.
  - rewrite Pos2Z.inj_xI. apply Z.div_unique with 1; lia.
  - rewrite Pos2Z.inj_xO. apply Z.div_unique with 0; lia.
Qed.

Lemma pow2_xI n : 2 ^ Z.pos n~1 = 2 * 2 ^ Z.pos n * 2 ^ Z.pos n.
Proof.
  replace (Z.pos n~1) with (1 + Z.pos n + Z.pos n) by lia.
  rewrite !Z.pow_add_r by lia. lia.
Qed.

Lemma pow2_xO n : 2 ^ Z.pos n~0 = 2 ^ Z.pos n * 2 ^ Z.pos n.
Proof.
  replace (Z.pos n~0) with (Z.pos n + Z.pos n) by lia.
  rewrite !Z.pow_add_r by lia. lia.
Qed.

Lemma iter_pos_shr_m n mrs :
  0 ≤ shr_m mrs → shr_m (SpecFloat.iter_pos shr_1 n mrs) = shr_m mrs / 2 ^ Z.pos n.
Proof.
  revert mrs. induction n as [n IH|n IH|]; intros mrs Hm; simpl SpecFloat.iter_pos.
  - assert (0 < 2 ^ Z.pos n) by (apply Z.pow_pos_nonneg; lia).
    assert (0 ≤ shr_m (shr_1 mrs)) by (rewrite shr_1_m by done; apply Z.div_pos; lia).
    assert (0 ≤ shr_m (SpecFloat.iter_pos shr_1 n (shr_1 mrs))).
    { rewrite IH by done. by apply Z.div_pos. }
    rewrite !IH, shr_1_m, pow2_xI by done.
    rewrite !Z.div_div by lia. f_equal; lia.
  - assert (0 < 2 ^ Z.pos n) by (apply Z.pow_pos_nonneg; lia).
    assert (0 ≤ shr_m (SpecFloat.iter_pos shr_1 n mrs)).
    { rewrite IH by done. by apply Z.div_pos. }
    rewrite !IH, pow2_xO by done.
    rewrite !Z.div_div by lia. f_equal; lia.
  - by rewrite shr_1_m.
Qed.

Lemma digits_le p b : 0 ≤ b → Z.pos p < 2 ^ b → Z.pos (digits2_pos p) ≤ b.
Proof.
  intros Hb Hp. pose proof (digits2_pos_bounds p) as [Hlo _].
  destruct (Z.le_gt_cases (Z.pos (digits2_pos p)) b) as [|Hgt]; [done|].
  assert (2 ^ b ≤ 2 ^ (Z.pos (digits2_pos p) - 1)) by (apply Z.pow_le_mono_r; lia).
  lia.
Qed.

(** Rounding a mantissa of exactly 53 bits leaves it as it is. *)
Lemma binary_round_aux_53 mz ez :
  Z.pos (digits2_pos mz) = 53 → -1074 ≤ ez ≤ 971 →
  binary_round_aux 53 1024 false (Z.pos mz) ez loc_Exact = S754_finite false mz ez.
Proof.
  intros Hd He. unfold binary_round_aux.
  assert (∀ m, m = Z.pos mz →
            shr_fexp 53 1024 m ez loc_Exact
            = ({| shr_m := Z.pos mz; shr_r := false; shr_s := false |}, ez)) as Hshr.
  { intros m ->. unfold shr_fexp, Zdigits2, fexp, emin. rewrite Hd.
    replace (Z.max (53 + ez - 53) (3 - 1024 - 53) - ez) with 0 by lia. done. }
  rewrite (Hshr _ eq_refl). cbn [shr_m loc_of_shr_record round_nearest_even].
  rewrite (Hshr _ eq_refl). cbn [shr_m].
  destruct (ez <=? 1024 - 53) eqn:E; [done|]. apply Z.leb_gt in E. lia.
Qed.

Lemma of_int_small p :
  Z.pos p < 2 ^ 52 →
  ∃ mz, Float64.of_int (Z.pos p)
        = S754_finite false mz (Z.pos (digits2_pos p) - 53)
        ∧ Z.pos mz = Z.pos p * 2 ^ (53 - Z.pos (digits2_pos p)).
Proof.
  intros Hp. pose proof (digits2_pos_bounds p) as Hb.
  pose proof (digits_le p 52 ltac:(lia) Hp) as Hd.
  set (d := Z.pos (digits2_pos p)) in *.
  assert (0 < d) by (subst d; lia).
  unfold Float64.of_int, binary_normalize, binary_round, Float64.prec, Float64.emax.
  unfold fexp at 1, emin. fold d.
  assert (Z.max (d + 0 - 53) (3 - 1024 - 53) = d - 53) as -> by lia.
  unfold shl_align. destruct (d - 53 - 0) as [|k|k] eqn:E; try lia.
  exists (Pos.iter xO p k).
  assert (Z.pos (Pos.iter xO p k) = Z.pos p * 2 ^ (53 - d)) as Hmz.
  { rewrite iter_xO_pow. do 2 f_equal. lia. }
  split; [|done].
  apply binary_round_aux_53; [|lia].
  apply digits2_pos_unique. rewrite Hmz.
  assert (2 ^ (53 - 1) = 2 ^ (d - 1) * 2 ^ (53 - d)) as ->
    by (rewrite <- Z.pow_add_r by lia; f_equal; lia).
  assert (2 ^ 53 = 2 ^ d * 2 ^ (53 - d)) as ->
    by (rewrite <- Z.pow_add_r by lia; f_equal; lia).
  assert (0 < 2 ^ (53 - d)) by (apply Z.pow_pos_nonneg; lia).
  split; [apply Z.mul_le_mono_nonneg_r | apply Z.mul_lt_mono_pos_r]; lia.
Qed.

Lemma shr_fexp_exact m e :
  let n := Z.pos (digits2_pos m) - 53 in
  -1074 ≤ e + n →
  ∃ mrs, shr_fexp 53 1024 (Z.pos m) e loc_Exact = (mrs, e + Z.max n 0)
         ∧ shr_m mrs = Z.pos m / 2 ^ Z.max n 0.
Proof.
  intros n Hn. unfold shr_fexp, Zdigits2, fexp, emin, shr.
  assert (Z.max (Z.pos (digits2_pos m) + e - 53) (3 - 1024 - 53) - e = n) as ->
    by (subst n; lia).
  destruct n as [|k|k] eqn:E; cbn [shr_record_of_loc].
  - eexists. split; [by rewrite Z.add_0_r|]. simpl. by rewrite Z.div_1_r.
  - eexists. split; [done|]. rewrite iter_pos_shr_m by done. done.
  - eexists. split; [by rewrite Z.add_0_r|]. simpl. by rewrite Z.div_1_r.
Qed.

Lemma round_nearest_even_bounds m l :
  m ≤ round_nearest_even m l ≤ m + 1.
Proof.
  destruct l as [|[]]; simpl; try lia. destruct (Z.even m); lia.
Qed.

Lemma round_product_to_int P ex n :
  Z.pos (digits2_pos P) = n + 53 →
  0 < n → -1074 ≤ ex + n → ex + n + 1 < 0 →
  ∃ q', Z.pos P / 2 ^ n ≤ q' ≤ Z.pos P / 2 ^ n + 1
        ∧ Float64.to_int (binary_round_aux 53 1024 false (Z.pos P) ex loc_Exact)
          = Some (q' / 2 ^ (- (ex + n))).
Proof.
  intros HD Hn Hlo Hhi. unfold binary_round_aux.
  pose proof (digits2_pos_bounds P) as [HPlo HPhi].
  destruct (shr_fexp_exact P ex) as (mrs & -> & Hm); rewrite HD in *.
  { lia. }
  replace (n + 53 - 53) with n in * by lia.
  rewrite Z.max_l in * by lia.
  assert (0 < 2 ^ n) as Hpow by (apply Z.pow_pos_nonneg; lia).
  assert (2 ^ 52 ≤ Z.pos P / 2 ^ n < 2 ^ 53) as Hq.
  { split.
    - apply Z.div_le_lower_bound; [done|].
      rewrite <- Z.pow_add_r by lia. by replace (n + 52) with (n + 53 - 1) by lia.
    - apply Z.div_lt_upper_bound; [done|].
      by rewrite <- Z.pow_add_r by lia. }
  pose proof (round_nearest_even_bounds (shr_m mrs) (loc_of_shr_record mrs)) as Hr.
  destruct (round_nearest_even (shr_m mrs) (loc_of_shr_record mrs))
    as [|pq|pq] eqn:Eq'; rewrite Hm in Hr; [lia| |lia].
  exists (Z.pos pq). split; [done|].
  destruct (Z.eq_dec (Z.pos pq) (2 ^ 53)) as [Etop|Htop].
  - assert (pq = 9007199254740992%positive) as -> by lia.
    pose proof (shr_fexp_exact 9007199254740992 (ex + n)) as H2.
    cbv zeta in H2.
    change (Z.pos (digits2_pos 9007199254740992) - 53) with 1 in H2.
    change (Z.max 1 0) with 1 in H2.
    destruct H2 as (mrs2 & -> & Hm2); [lia|].
    change (Z.pos 9007199254740992 / 2 ^ 1) with (Z.pos 4503599627370496) in Hm2.
    rewrite Hm2.
    destruct (ex + n + 1 <=? 1024 - 53) eqn:E; [|apply Z.leb_gt in E; lia].
    cbn [Float64.to_int cond_Zopp]. destruct (0 <=? ex + n + 1) eqn:E0; [apply Z.leb_le in E0; lia|].
    f_equal.
    change (Z.pos 4503599627370496) with (2 ^ 52).
    change (Z.pos 9007199254740992) with (2 ^ 52 * 2).
    replace (2 ^ (- (ex + n))) with (2 ^ (- (ex + n + 1)) * 2)
      by (rewrite Z.mul_comm, <- Z.pow_succ_r by lia; f_equal; lia).
    rewrite Z.div_mul_cancel_r; [done| |lia].
    apply Z.pow_nonzero; lia.
  - assert (Z.pos (digits2_pos pq) = 53) as Hd.
    { apply digits2_pos_unique. simpl (53 - 1). lia. }
    destruct (shr_fexp_exact pq (ex + n)) as (mrs2 & -> & Hm2).
    { rewrite Hd. lia. }
    rewrite Hm2, Hd. simpl Z.max. rewrite Z.div_1_r, Z.add_0_r.
    destruct (ex + n <=? 1024 - 53) eqn:E; [|apply Z.leb_gt in E; lia].
    cbn [Float64.to_int cond_Zopp]. destruct (0 <=? ex + n) eqn:E0; [apply Z.leb_le in E0; lia|].
    done.
Qed.

Lemma pow2_split a b : 0 ≤ a → 0 ≤ b → 2 ^ (a + b) = 2 ^ a * 2 ^ b.
Proof. intros. by rewrite Z.pow_add_r. Qed.

Lemma int_times_1_8_exact mise :
  0 < mise < 2 ^ 49 → Float64.int_times_1_8 mise = Some (9 * mise / 5).
Proof.
  intros [Hpos Hlt]. destruct mise as [|p|p]; try lia.
  destruct (of_int_small p) as (mz & Hof & Hmz); [lia|].
  pose proof (digits2_pos_bounds p) as Hdp.
  pose proof (digits_le p 49 ltac:(lia) Hlt) as Hd49.
  set (d := Z.pos (digits2_pos p)) in *.
  assert (0 < d) as Hd0 by (subst d; lia).
  unfold Float64.int_times_1_8. rewrite Hof.
  unfold Float64.mul, SFmul, Float64.lit_1_8, Float64.prec, Float64.emax. cbn [xorb].
  set (C := 8106479329266893%positive).
  (* the mantissa of [float(mise)] has 53 bits *)
  assert (2 ^ 52 ≤ Z.pos mz < 2 ^ 53) as Hmzb.
  { rewrite Hmz.
    assert (2 ^ 52 = 2 ^ (d - 1) * 2 ^ (53 - d)) as ->
      by (rewrite <- Z.pow_add_r by lia; f_equal; lia).
    assert (2 ^ 53 = 2 ^ d * 2 ^ (53 - d)) as ->
      by (rewrite <- Z.pow_add_r by lia; f_equal; lia).
    assert (0 < 2 ^ (53 - d)) by (apply Z.pow_pos_nonneg; lia).
    split; [apply Z.mul_le_mono_nonneg_r | apply Z.mul_lt_mono_pos_r]; lia. }
  (* the product of the mantissas has 105 or 106 bits *)
  pose proof (digits2_pos_bounds (mz * C)) as HPb.
  set (D := Z.pos (digits2_pos (mz * C))) in *.
  assert (2 ^ 104 ≤ Z.pos (mz * C) < 2 ^ 106) as HP.
  { rewrite Pos2Z.inj_mul. change (Z.pos C) with 8106479329266893.
    change (2 ^ 104) with (2 ^ 52 * 2 ^ 52). change (2 ^ 106) with (2 ^ 53 * 2 ^ 53).
    change (2 ^ 52) with 4503599627370496 in *.
    change (2 ^ 53) with 9007199254740992 in *. nia. }
  assert (105 ≤ D ≤ 106) as HD.
  { split.
    - destruct (Z.le_gt_cases 105 D) as [|Hs]; [done|].
      assert (2 ^ D ≤ 2 ^ 104) by (apply Z.pow_le_mono_r; lia). lia.
    - destruct (Z.le_gt_cases D 106) as [|Hs]; [done|].
      assert (2 ^ 106 ≤ 2 ^ (D - 1)) by (apply Z.pow_le_mono_r; lia). lia. }
  destruct (round_product_to_int (mz * C) (d - 53 + -52) (D - 53))
    as (q' & Hq' & ->); [subst D; lia | lia | lia | lia |].
  f_equal.
  (* the arithmetic of the rounding error *)
  set (n := D - 53) in *. set (K := - (d - 53 + -52 + n)).
  assert (3 ≤ K ≤ 52) as HK by (subst K n; lia).
  set (T := 2 ^ (53 - d)) in *.
  assert (0 < T) as HT by (apply Z.pow_pos_nonneg; lia).
  set (W := 2 ^ (52 - K)).
  assert (0 < W ≤ 2 ^ 49) as HW.
  { split; [apply Z.pow_pos_nonneg; lia|]. apply Z.pow_le_mono_r; lia. }
  assert (2 ^ n = W * T) as Hn.
  { subst W T. rewrite <- pow2_split by lia. f_equal. subst K n. lia. }
  assert (2 ^ K * W = 2 ^ 52) as HKW.
  { subst W. rewrite <- pow2_split by lia. f_equal. lia. }
  assert (0 < 2 ^ K) as HK0 by (apply Z.pow_pos_nonneg; lia).
  assert (0 < 2 ^ n) as Hn0 by lia.
  assert (Z.pos (mz * C) = Z.pos p * 8106479329266893 * T) as HPeq.
  { rewrite Pos2Z.inj_mul, Hmz. change (Z.pos C) with 8106479329266893. lia. }
  set (F := 9 * Z.pos p / 5).
  assert (5 * F ≤ 9 * Z.pos p ≤ 5 * F + 4) as HF.
  { subst F. pose proof (Z.div_mod (9 * Z.pos p) 5 ltac:(lia)).
    pose proof (Z.mod_pos_bound (9 * Z.pos p) 5 ltac:(lia)). lia. }
  change (2 ^ 49) with 562949953421312 in *.
  change (2 ^ 52) with 4503599627370496 in *.
  assert (F * 2 ^ K ≤ Z.pos (mz * C) / 2 ^ n) as Hlow.
  { apply Z.div_le_lower_bound; [done|]. rewrite HPeq, Hn.
    replace (W * T * (F * 2 ^ K)) with (F * (2 ^ K * W) * T) by lia.
    rewrite HKW. apply Z.mul_le_mono_nonneg_r; lia. }
  assert (Z.pos (mz * C) / 2 ^ n < (F + 1) * 2 ^ K - 1) as Hupp.
  { apply Z.div_lt_upper_bound; [done|]. rewrite HPeq, Hn.
    replace (W * T * ((F + 1) * 2 ^ K - 1))
      with (((F + 1) * (2 ^ K * W) - W) * T) by lia.
    rewrite HKW. apply Z.mul_lt_mono_pos_r; lia. }
  apply Z.le_antisymm.
  - assert (q' / 2 ^ K < F + 1); [|lia].
    apply Z.div_lt_upper_bound; [done|]. lia.
  - apply Z.div_le_lower_bound; [done|]. lia.
Qed.

(** ** Dice duel *)

(** C9, as the code has it: with a validated stake, equal rolls refund the
    stake and leave the balance at its value before the bet; a lower roll
    forfeits the stake; a higher roll credits [int(mise * 1.8)] times the
    boost multiplier, the product being computed in double precision: this
    is exactly [floor(1.8 * mise)] times the multiplier for every stake
    below [2^49], and when the product cannot be computed the stake is
    lost to the error. *)
Theorem dice_spec author mise k1 k2 now io st :
  0 < mise ≤ balance (account st author) →
  let before := account st author in
  let player_roll := Random.randint 1 6 k1 in
  let bot_roll := Random.randint 1 6 k2 in
  let multiplier := get_boost_multiplier now before in
  let st' := (dice author mise k1 k2 now io st).1 in
  let answer := (dice author mise k1 k2 now io st).2 in
  (player_roll = bot_roll →
     answer = GameResult Push ∧ balance (account st' author) = balance before)
  ∧ (bot_roll < player_roll → mise < 2 ^ 49 →
     answer = GameResult (Win (9 * mise / 5 * multiplier))
     ∧ balance (account st' author) = balance before - mise + 9 * mise / 5 * multiplier)
  ∧ (bot_roll < player_roll → ∀ scaled, Float64.int_times_1_8 mise = Some scaled →
     answer = GameResult (Win (scaled * multiplier))
     ∧ balance (account st' author) = balance before - mise + scaled * multiplier)
  ∧ (bot_roll < player_roll → Float64.int_times_1_8 mise = None →
     answer = Crashed ∧ balance (account st' author) = balance before - mise)
  ∧ (player_roll < bot_roll →
     answer = GameResult Loss ∧ balance (account st' author) = balance before - mise).
Proof.
  intros Hstake before player_roll bot_roll multiplier st' answer.
  assert (∀ scaled, bot_roll < player_roll → Float64.int_times_1_8 mise = Some scaled →
            answer = GameResult (Win (scaled * multiplier))
            ∧ balance (account st' author) = balance before - mise + scaled * multiplier)
    as Hwin.
  { intros scaled Hroll Hscaled. subst st' answer. unfold dice. store_simpl.
    destruct (validate_bet_cases (account st author) mise)
      as [[? ->]|[(? & ? & ->)|[_ ->]]]; [lia | lia |].
    cbn [negb]. store_simpl. fold player_roll bot_roll.
    apply Z.ltb_lt in Hroll. rewrite Hroll, Hscaled. store_simpl.
    unfold save_users; cbn [fst snd users disk]; rewrite account_insert;
      (split; [done|]); reflexivity. }
  split; [|split; [|split; [|split]]].
  - intros Htie. subst st' answer. unfold dice. store_simpl.
    destruct (validate_bet_cases (account st author) mise)
      as [[? ->]|[(? & ? & ->)|[_ ->]]]; [lia | lia |].
    cbn [negb]. store_simpl. fold player_roll bot_roll.
    rewrite Htie, Z.ltb_irrefl, Z.eqb_refl. store_simpl.
    unfold save_users; cbn [fst snd users disk]; rewrite account_insert;
      (split; [done|]); simpl; fold before; lia.
  - intros Hroll Hsmall. apply Hwin; [done|]. apply int_times_1_8_exact. lia.
  - intros Hroll scaled Hscaled. by apply Hwin.
  - intros Hroll Hnone. subst st' answer. unfold dice. store_simpl.
    destruct (validate_bet_cases (account st author) mise)
      as [[? ->]|[(? & ? & ->)|[_ ->]]]; [lia | lia |].
    cbn [negb]. store_simpl. fold player_roll bot_roll.
    apply Z.ltb_lt in Hroll. rewrite Hroll, Hnone.
    cbn [fst snd]. rewrite account_insert. done.
  - intros Hroll. subst st' answer. unfold dice. store_simpl.
    destruct (validate_bet_cases (account st author) mise)
      as [[? ->]|[(? & ? & ->)|[_ ->]]]; [lia | lia |].
    cbn [negb]. store_simpl. fold player_roll bot_roll.
    destruct (bot_roll <? player_roll) eqn:E1; [apply Z.ltb_lt in E1; lia|].
    destruct (player_roll =? bot_roll) eqn:E2; [apply Z.eqb_eq in E2; lia|].
    store_simpl.
    unfold save_users; cbn [fst snd users disk]; rewrite account_insert; done.
Qed.

Lemma dice_spec_witness :
  let st' := (dice 1 10 3 2 0 Written empty_state).1 in
  (dice 1 10 3 2 0 Written empty_state).2 = GameResult (Win 18)
  ∧ balance (account st' 1) = 508.
Proof.
  intros st'.
  destruct (dice_spec 1 10 3 2 0 Written empty_state) as (_ & Hwin & _);
    [by vm_compute|].
  destruct Hwin as [Hanswer Hbalance]; [by vm_compute | by vm_compute |].
  split; [exact Hanswer | exact Hbalance].
Defined.

(** C9 as stated fails for large stakes: with 10^16 + 1 coins staked and a
    higher roll, the double-precision product pays 18000000000000000, one
    coin less than floor(1.8 * stake) = 18000000000000001. *)
Lemma dice_large_stake_not_exact :
  ¬ (∀ author mise k1 k2 now io st,
       0 < mise ≤ balance (account st author) →
       Random.randint 1 6 k2 < Random.randint 1 6 k1 →
       (dice author mise k1 k2 now io st).2
       = GameResult (Win (9 * mise / 5 * get_boost_multiplier now (account st author)))).
Proof.
  intros H.
  pose (rich := mkUser (10 ^ 16 + 1) (Unparsable "") [] [] None 0 0 0).
  assert ((dice 1 (10 ^ 16 + 1) 1 0 0 Written (single 1 rich)).2
          = GameResult (Win (9 * (10 ^ 16 + 1) / 5
                             * get_boost_multiplier 0 (account (single 1 rich) 1)))) as E.
  { apply H; by vm_compute. }
  vm_compute in E. discriminate E.
Qed.

Lemma dice_large_stake_payout :
  let rich := mkUser (10 ^ 16 + 1) (Unparsable "") [] [] None 0 0 0 in
  (dice 1 (10 ^ 16 + 1) 1 0 0 Written (single 1 rich)).2
  = GameResult (Win 18000000000000000)
  ∧ 9 * (10 ^ 16 + 1) / 5 = 18000000000000001.
Proof. by vm_compute. Qed.

(** ** Game statistics *)

Lemma game_recorded fuel io c g author mise st st' o :
  wager_of c = Some (g, author, mise) →
  run fuel io c st = Some (st', GameResult o) →
  recorded mise o (account st author) (account st' author).
Proof.
  intros Hc Hrun. apply (wager_cases _ _ _ _ _ _ _ _ _ Hc) in Hrun.
  inversion Hrun as [| | | |o' Hstake Hpay Hst Hr]; subst o'.
  rewrite account_save_users, account_put. unfold recorded.
  destruct o as [gain| |]; cbn [settle payout record_game_result with_balance
    games_played balance total_winnings total_losses].
  - destruct (mise <? gain) eqn:E;
      [apply Z.ltb_lt in E | apply Z.ltb_ge in E]; repeat split; try lia; done.
  - rewrite Z.ltb_irrefl. repeat split; lia.
  - destruct (mise <? 0) eqn:E;
      [apply Z.ltb_lt in E | apply Z.ltb_ge in E]; repeat split; try lia; done.
Qed.

(** C3: every game call with a valid stake (and, in roulette, a valid
    colour) returns, whatever the draws; it is completed with a result,
    except the dice win whose payout [int(mise * 1.8)] overflows, possible
    only from a stake of 2^49 on, which is interrupted after the stake was
    taken and records nothing.  Every completed call adds 1 to
    [games_played]; when the payout exceeds the stake it adds
    (payout - stake) to [total_winnings], otherwise it adds the whole stake
    to [total_losses]; a push (payout equal to the stake) therefore counts
    the stake as a loss although the balance is back to its value before
    the bet.  The same holds of any call answered by a result. *)
Theorem game_statistics n io c g author mise st :
  wager_of c = Some (g, author, mise) →
  colour_ok c →
  0 < mise ≤ balance (account st author) →
  let before := account st author in
  (∃ st' r,
     run (15 + n) io c st = Some (st', r)
     ∧ let after := account st' author in
       ((∃ o, r = GameResult o ∧ recorded mise o before after)
        ∨ (r = Crashed ∧ g = G_dice
           ∧ Float64.int_times_1_8 mise = None ∧ 2 ^ 49 ≤ mise
           ∧ games_played after = games_played before
           ∧ total_winnings after = total_winnings before
           ∧ total_losses after = total_losses before
           ∧ balance after = balance before - mise)))
  ∧ (∀ fuel st' o,
       run fuel io c st = Some (st', GameResult o) →
       recorded mise o before (account st' author)).
Proof.
  intros Hw Hok Hstake before. split.
  - destruct (run_total n io c st) as (st' & r & Hrun). exists st', r.
    split; [done|]. cbn zeta.
    pose proof (wager_cases _ _ _ _ _ _ _ _ _ Hw Hrun) as Hres.
    inversion Hres as [couleur k now Hc Hbad| | |k1 k2 now Hc Hover _|o _ _]; subst.
    + unfold colour_ok in Hok. congruence.
    + lia.
    + lia.
    + right. injection Hw as <-. rewrite account_put.
      assert (2 ^ 49 ≤ mise).
      { destruct (Z.le_gt_cases (2 ^ 49) mise) as [?|Hlt]; [done|].
        rewrite int_times_1_8_exact in Hover by lia. done. }
      by repeat split.
    + left. exists o. split; [done|]. by apply (game_recorded _ _ _ _ _ _ _ _ _ Hw Hrun).
  - intros fuel st' o Hrun. by apply (game_recorded _ _ _ _ _ _ _ _ _ Hw Hrun).
Qed.

Lemma game_statistics_witness :
  (∃ st' o,
     run 15 Written (Slot 1 10 99 99 99 0) empty_state = Some (st', GameResult o)
     ∧ games_played (account st' 1) = 1)
  ∧ (∃ st' o,
       run 15 Written (Blackjack 1 10 (λ _, 9%nat) 0) empty_state
       = Some (st', GameResult o)
       ∧ o = Push ∧ total_losses (account st' 1) = 10 ∧ balance (account st' 1) = 500).
Proof.
  split.
  - destruct (game_statistics 0 Written (Slot 1 10 99 99 99 0) G_slot 1 10 empty_state)
      as [(st' & r & Hrun & [(o & -> & Hg & _)|(_ & [=] & _)]) _];
      [done|done|by vm_compute|].
    exists st', o. split; [exact Hrun|exact Hg].
  - destruct (game_statistics 0 Written (Blackjack 1 10 (λ _, 9%nat) 0) G_blackjack 1 10
                empty_state)
      as [(st' & r & Hrun & [(o & -> & _ & _ & _ & _ & Hpush)|(_ & [=] & _)]) _];
      [done|done|by vm_compute|].
    assert (o = Push) as ->.
    { vm_compute in Hrun. by injection Hrun as _ <-. }
    exists st', Push. split; [exact Hrun|]. split; [done|]. by apply Hpush.
Defined.

(** ** Looking up an account that exists already *)

Lemma ensure_same a st : is_Some (users st !! pretty a) → ensure a st = st.
Proof. intros [u E]. by apply (ensure_present _ _ u). Qed.

Lemma present_ensure a st : is_Some (users (ensure a st) !! pretty a).
Proof. rewrite ensure_insert. simpl. rewrite lookup_insert_eq. eauto. Qed.

Lemma present_ensure_other k b st :
  is_Some (users st !! k) → is_Some (users (ensure b st) !! k).
Proof. intros [u E]. exists u. by apply ensure_keeps. Qed.

Lemma present_update k k' f st :
  is_Some (users st !! k) → is_Some (users (update k' f st) !! k).
Proof. intros H. unfold update, set_users. simpl. by apply lookup_alter_is_Some. Qed.

Lemma reset_steals_twice now u :
  reset_steals_if_needed now (reset_steals_if_needed now u) = reset_steals_if_needed now u.
Proof.
  unfold reset_steals_if_needed, with_steals. simpl. f_equal.
  induction (steals u) as [|s l IH]; [done|]. simpl.
  destruct (s =? date now) eqn:E; simpl; [rewrite E|]; by rewrite IH.
Qed.

Lemma update_reset_twice k now st :
  update k (reset_steals_if_needed now) (update k (reset_steals_if_needed now) st)
  = update k (reset_steals_if_needed now) st.
Proof.
  unfold update, set_users. simpl. f_equal.
  rewrite alter_alter_eq. apply alter_ext. intros u _. simpl.
  apply reset_steals_twice.
Qed.

Create HintDb present.
#[local] Hint Resolve present_ensure present_ensure_other present_update : present.

(** A wager sees the store the same way once the caller's record exists. *)
Lemma wager_after_ensure fuel io c g author mise st :
  wager_of c = Some (g, author, mise) →
  colour_ok c →
  run fuel io c (ensure author st) = run fuel io c st.
Proof.
  destruct c; try done; intros [= <- <- <-] Hok; simpl.
  - unfold coinflip. by rewrite !get_user_data_ensure, ensure_same by auto with present.
  - unfold dice. by rewrite !get_user_data_ensure, ensure_same by auto with present.
  - unfold roulette. unfold colour_ok in Hok. rewrite Hok. cbn [negb].
    by rewrite !get_user_data_ensure, ensure_same by auto with present.
  - unfold blackjack. by rewrite !get_user_data_ensure, ensure_same by auto with present.
  - unfold slot. by rewrite !get_user_data_ensure, ensure_same by auto with present.
Qed.

Lemma bad_colour_rejected fuel io author mise couleur k now st :
  Py.mem (Py.lower couleur) ["rouge"; "noir"; "vert"]%string = false →
  run fuel io (Roulette author mise couleur k now) st = Some (st, BadColour).
Proof. intros H. simpl. unfold roulette. by rewrite H. Qed.

(** * Further properties of the code *)

(** ** The effect of every command, account by account *)

Lemma parties_wager c g author mise :
  wager_of c = Some (g, author, mise) → parties c = [author].
Proof. destruct c; try done; by intros [= <- <- <-]. Qed.

Lemma effect_wager c g author mise o a u :
  wager_of c = Some (g, author, mise) →
  effect c (GameResult o) a u = if a =? author then settle mise o u else u.
Proof. destruct c; try done; by intros [= <- <- <-]. Qed.

Lemma effect_rejection c r a u :
  is_Some (wager_of c) → rejection r = true → effect c r a u = u.
Proof. intros [x Hw]. by destruct c, r. Qed.

Lemma lookup_put a u st : users (put a u st) !! pretty a = Some u.
Proof. unfold put. simpl. by rewrite lookup_insert_eq. Qed.

Lemma lookup_put_ne a u st k : k ≠ pretty a → users (put a u st) !! k = users st !! k.
Proof. intros Hk. unfold put. simpl. by rewrite lookup_insert_ne. Qed.

Lemma lookup_ensure a st : users (ensure a st) !! pretty a = Some (account st a).
Proof. rewrite ensure_insert. simpl. by rewrite lookup_insert_eq. Qed.

Lemma lookup_ensure_ne a st k : k ≠ pretty a → users (ensure a st) !! k = users st !! k.
Proof. intros Hk. rewrite ensure_insert. simpl. by rewrite lookup_insert_ne. Qed.

Lemma users_save_users io st : users (save_users io st) = users st.
Proof. by destruct io. Qed.

Lemma disk_save_users io st :
  disk (save_users io st) = file_after io (users st) (disk st).
Proof. done. Qed.

(** The frame, the accounts of the parties and the file after a wager. *)
Lemma wager_effect io c g author mise st st' r :
  wager_of c = Some (g, author, mise) →
  wager_result io c author mise st st' r →
  (∀ k, k ≠ pretty author → users st' !! k = users st !! k)
  ∧ ((st' = st ∧ ∀ b u, effect c r b u = u)
     ∨ users st' !! pretty author = Some (effect c r author (account st author)))
  ∧ disk st' = (if carried_out r then file_after io (users st') (disk st) else disk st).
Proof.
  intros Hw Hres.
  destruct Hres as [couleur k0 now -> Hbad| | |k1 k2 now -> Hover Hstake|o Hstake Hpay].
  - auto.
  - split; [intros k Hk; by apply lookup_ensure_ne|]. split; [right|apply ensure_disk].
    rewrite lookup_ensure. by rewrite effect_rejection by eauto.
  - split; [intros k Hk; by apply lookup_ensure_ne|]. split; [right|apply ensure_disk].
    rewrite lookup_ensure. by rewrite effect_rejection by eauto.
  - injection Hw as <-.
    split; [intros k Hk; by apply lookup_put_ne|]. split; [right|done].
    rewrite lookup_put. simpl. by rewrite Z.eqb_refl.
  - split; [intros k Hk; rewrite users_save_users; by apply lookup_put_ne|].
    split; [right|].
    + rewrite users_save_users, lookup_put, (effect_wager _ _ _ _ _ _ _ Hw).
      by rewrite Z.eqb_refl.
    + rewrite disk_save_users, users_save_users. simpl. by destruct io.
Qed.

Lemma elem_of_one (a x : Z) : a ∈ [x] → a = x.
Proof. by intros ->%list_elem_of_singleton. Qed.

Lemma elem_of_two (a x y : Z) : a ∈ [x; y] → a = x ∨ a = y.
Proof. rewrite !elem_of_cons, elem_of_nil. tauto. Qed.

(** Setting the conclusion aside while the cases of a command are told apart. *)
Ltac hide_goal st r :=
  pattern st, r; lazymatch goal with |- ?P st r => set (Hidden := P) end.

(** The frame, the accounts of the parties and the file after any command. *)
Lemma run_effect fuel io c st st' r :
  run fuel io c st = Some (st', r) →
  (∀ k, (∀ a, a ∈ parties c → k ≠ pretty a) → users st' !! k = users st !! k)
  ∧ (∀ a, a ∈ parties c →
       (st' = st ∧ ∀ b u, effect c r b u = u)
       ∨ users st' !! pretty a = Some (effect c r a (account st a)))
  ∧ disk st' = (if carried_out r then file_after io (users st') (disk st) else disk st).
Proof.
  intros Hrun.
  destruct (wager_of c) as [[[g author] mise]|] eqn:Hw.
  { pose proof (wager_cases _ _ _ _ _ _ _ _ _ Hw Hrun) as Hres.
    destruct (wager_effect _ _ _ _ _ _ _ _ Hw Hres) as (Hframe & Hparty & Hdisk).
    rewrite (parties_wager _ _ _ _ Hw).
    split; [intros k Hk; apply Hframe, Hk; by left|].
    split; [by intros a ->%elem_of_one|done]. }
  destruct c; try done; simpl in Hrun; injection Hrun as Hrun;
    cbn [parties]; hide_goal st' r; revert Hrun.
  1: (* daily *)
    unfold daily; store_simpl; cbn zeta;
    repeat case_match; intros [= <- <-]; subst Hidden; store_simpl;
      (split;
       [ intros k Hk; rewrite lookup_insert_ne; [done|apply not_eq_sym, Hk; by left]
       | split; [|done];
         intros a ->%elem_of_one; right; rewrite lookup_insert_eq; simpl;
         by rewrite ?Z.eqb_refl ]).
  1: (* acheter *)
    unfold acheter; store_simpl; cbn zeta;
    repeat case_match; intros [= <- <-]; subst Hidden; store_simpl;
      rewrite ?alter_insert_eq;
      (split;
       [ intros k Hk; rewrite lookup_insert_ne; [done|apply not_eq_sym, Hk; by left]
       | split; [|done];
         intros a ->%elem_of_one; right; rewrite lookup_insert_eq; simpl;
         rewrite ?Z.eqb_refl; by repeat case_match ]).
  1: (* steal *)
    unfold steal;
    destruct (bot cible || (id cible =? author)) eqn:E;
      [ intros [= <- <-]; subst Hidden; cbn beta; auto |];
    apply orb_false_iff in E as [_ E]; pose proof E as E'; apply Z.eqb_neq in E';
    assert (pretty author ≠ pretty (id cible)) as Hk by (apply pretty_ne; congruence);
    store_simpl; rewrite (account_beside _ _ _ _ _ Hk); store_simpl;
    repeat case_match; intros [= <- <-]; subst Hidden; store_simpl;
      (split;
       [ intros key Hk'; rewrite !lookup_insert_ne;
           [done|apply not_eq_sym, Hk'; by left
                |apply not_eq_sym, Hk'; right; by left]
       | split; [|done];
         intros a [->| ->]%elem_of_two; right;
         [ rewrite lookup_insert_ne by done; rewrite lookup_insert_eq; simpl;
           by rewrite ?Z.eqb_refl
         | rewrite lookup_insert_eq; simpl; by rewrite ?E, ?Z.eqb_refl ] ]).
  1-2: (* give, remove *)
    unfold give, remove; destruct owner; cbn [negb];
      [| intros [= <- <-]; subst Hidden; cbn beta; auto];
    store_simpl; intros [= <- <-]; subst Hidden; store_simpl;
      (split;
       [ intros key Hk0; rewrite lookup_insert_ne; [done|apply not_eq_sym, Hk0; by left]
       | split; [|done];
         intros a ->%elem_of_one; right; rewrite lookup_insert_eq; simpl;
         by rewrite ?Z.eqb_refl ]).
  1: (* don *)
    unfold don; destruct (id membre =? author) eqn:E;
    [ apply Z.eqb_eq in E; rewrite E; store_simpl; rewrite account_insert;
      rewrite insert_insert_eq; cbn zeta;
      repeat case_match; intros [= <- <-]; subst Hidden; store_simpl; rewrite ?E;
      (split;
       [ intros key Hk0; rewrite lookup_insert_ne; [done|apply not_eq_sym, Hk0; by left]
       | split; [|done];
         intros a [->| ->]%elem_of_two; right; by rewrite lookup_insert_eq ])
    | pose proof E as E'; apply Z.eqb_neq in E';
      assert (pretty author ≠ pretty (id membre)) as Hk
        by (apply pretty_ne; congruence);
      store_simpl; rewrite (account_beside _ _ _ _ _ Hk); store_simpl;
      repeat case_match; intros [= <- <-]; subst Hidden; store_simpl;
      (split;
       [ intros key Hk'; rewrite !lookup_insert_ne;
           [done|apply not_eq_sym, Hk'; by left
                |apply not_eq_sym, Hk'; right; by left]
       | split; [|done];
         intros a [->| ->]%elem_of_two; right;
         [ rewrite lookup_insert_ne by done; rewrite lookup_insert_eq; simpl;
           by rewrite ?Z.eqb_refl
         | rewrite lookup_insert_eq; simpl; by rewrite ?E, ?Z.eqb_refl ] ]) ].
Qed.

(** Where an account of the dictionary comes from after a command: it was
    there before, or it is the account of a party, as the command left it. *)
Lemma run_lookup fuel io c st st' r k u' :
  run fuel io c st = Some (st', r) →
  users st' !! k = Some u' →
  users st !! k = Some u'
  ∨ ∃ a, a ∈ parties c ∧ k = pretty a ∧ u' = effect c r a (account st a).
Proof.
  intros Hrun Hk. destruct (run_effect _ _ _ _ _ _ Hrun) as (Hframe & Hparty & _).
  destruct (decide (Exists (λ a, k = pretty a) (parties c))) as [Hex|Hno].
  - apply Exists_exists in Hex as (a & Ha & ->).
    destruct (Hparty a Ha) as [[-> _]|E]; [by left|].
    right. exists a. rewrite E in Hk. by simplify_eq.
  - left. rewrite <- Hframe; [done|].
    intros a Ha ->. apply Hno, Exists_exists. eauto.
Qed.

Lemma account_stored st a u : users st !! pretty a = Some u → account st a = u.
Proof. unfold account. by intros ->. Qed.

Lemma every_account_party P st a :
  P new_user → every_account P (users st) → P (account st a).
Proof.
  intros Hnew Hall. unfold account.
  destruct (users st !! pretty a) as [u|] eqn:E; [by apply (Hall _ _ E)|done].
Qed.

(** A property of accounts that the default record has and that the updates
    of a command keep holds of every account after the command. *)
Lemma run_invariant (P : user → Prop) fuel io c st st' r :
  P new_user →
  (∀ a, a ∈ parties c → P (account st a) → P (effect c r a (account st a))) →
  run fuel io c st = Some (st', r) →
  every_account P (users st) → every_account P (users st').
Proof.
  intros Hnew Hstep Hrun Hall k u' Hk.
  destruct (run_lookup _ _ _ _ _ _ _ _ Hrun Hk) as [E|(a & Ha & -> & ->)].
  - by apply (Hall _ _ E).
  - apply Hstep; [done|]. by apply every_account_party.
Qed.

Lemma effect_stranger c r a u : a ∉ parties c → effect c r a u = u.
Proof.
  intros Ha.
  assert (∀ b, b ∈ parties c → (a =? b) = false) as Hb.
  { intros b Hb. apply Z.eqb_neq. by intros ->. }
  destruct c, r; cbn [effect]; try done; cbn [parties] in Hb;
    rewrite ?(Hb author), ?(Hb (id cible)), ?(Hb (id target)), ?(Hb (id membre));
    try done; rewrite !elem_of_cons; auto.
Qed.

(** The account of any user after a command. *)
Lemma run_account fuel io c st st' r a :
  run fuel io c st = Some (st', r) →
  account st' a = effect c r a (account st a).
Proof.
  intros Hrun. destruct (run_effect _ _ _ _ _ _ Hrun) as (Hframe & Hparty & _).
  destruct (decide (a ∈ parties c)) as [Ha|Ha].
  - destruct (Hparty a Ha) as [[-> Hid]|E]; [by rewrite Hid|]. by apply account_stored.
  - rewrite effect_stranger by done. unfold account. rewrite Hframe; [done|].
    intros b Hb E. apply Ha. by rewrite (inj pretty _ _ E).
Qed.

(** ** The guards behind the answers *)

Lemma game_result_stake fuel io c g author mise st st' o :
  wager_of c = Some (g, author, mise) →
  run fuel io c st = Some (st', GameResult o) →
  0 < mise ≤ balance (account st author) ∧ 0 ≤ payout mise o.
Proof.
  intros Hw Hrun. apply (wager_cases _ _ _ _ _ _ _ _ _ Hw) in Hrun.
  by inversion Hrun.
Qed.

Lemma bought_guard author objet now io st st' o p :
  acheter author objet now io st = (st', Bought o p) →
  o = Py.replace " " "_" (Py.lower objet)
  ∧ prix_of o = Some p
  ∧ p ≤ balance (account st author)
  ∧ Py.mem o (items (account st author)) = false.
Proof.
  unfold acheter. store_simpl.
  destruct (prix_of _) as [prix|] eqn:Ep; [|done].
  destruct (_ <? prix) eqn:Eb; [done|apply Z.ltb_ge in Eb].
  destruct (Py.mem _ _) eqn:Em; [done|].
  intros [= _ <- <-]. done.
Qed.

Lemma steal_guard author cible now_reset now r k io st st' answer :
  steal author cible now_reset now r k io st = (st', answer) →
  carried_out answer = true →
  let thief := account st author in
  let victim := account st (id cible) in
  bot cible = false ∧ id cible ≠ author
  ∧ Z.of_nat (length (steals_today now_reset thief)) < max_steals_of thief
  ∧ 50 ≤ balance victim
  ∧ ∀ gain, answer = StealDone gain →
      gain = Random.randint 20 (Z.min 100 (balance victim / 2)) k
      ∧ 20 ≤ gain ≤ balance victim / 2.
Proof.
  unfold steal. destruct (bot cible) eqn:Eb; [by intros [= <- <-]|].
  destruct (id cible =? author) eqn:E; [by intros [= <- <-]|].
  apply Z.eqb_neq in E. cbn [orb].
  assert (pretty author ≠ pretty (id cible)) as Hk by (apply pretty_ne; congruence).
  store_simpl. rewrite (account_beside _ _ _ _ _ Hk). store_simpl.
  change (steals (reset_steals_if_needed now_reset (account st author)))
    with (steals_today now_reset (account st author)).
  change (items (reset_steals_if_needed now_reset (account st author)))
    with (items (account st author)).
  fold (max_steals_of (account st author)).
  destruct (_ <=? _) eqn:Eq; [by intros [= <- <-]|apply Z.leb_gt in Eq].
  destruct (_ <? 50) eqn:Er; [by intros [= <- <-]|apply Z.ltb_ge in Er].
  assert (20 ≤ Z.min 100 (balance (account st (id cible)) / 2)).
  { apply Z.min_glb; [lia|]. apply Z.div_le_lower_bound; lia. }
  pose proof (randint_range 20 (Z.min 100 (balance (account st (id cible)) / 2)) k).
  destruct (Random.random_gt_0_7 r); intros [= <- <-] _; cbn zeta;
    (do 4 (split; [done|])); intros gain [= <-]. split; [done|lia].
Qed.

Lemma don_guard author membre montant io st st' m :
  don author membre montant io st = (st', DonDone m) →
  m = montant ∧ bot membre = false ∧ id membre ≠ author
  ∧ 0 < montant ≤ balance (account st author).
Proof.
  unfold don. rewrite !get_user_data_ensure. cbn zeta.
  destruct (bot membre); [done|].
  destruct (id membre =? author) eqn:E; [done|apply Z.eqb_neq in E].
  assert (pretty author ≠ pretty (id membre)) as Hk by (apply pretty_ne; congruence).
  store_simpl. rewrite (account_beside _ _ _ _ _ Hk). store_simpl.
  destruct (montant <=? 0) eqn:E0; [done|apply Z.leb_gt in E0].
  destruct (_ <? montant) eqn:E1; [done|apply Z.ltb_ge in E1].
  intros [= _ <-]. repeat split; try done; lia.
Qed.

(** ** Totals over the dictionary *)

Lemma sum_over_insert_None f k u m :
  m !! k = None → sum_over f (<[k:=u]> m) = sum_over f m + f u.
Proof.
  intros E. unfold sum_over. rewrite map_fold_insert_L; [done|intros; lia|done].
Qed.

Lemma sum_over_insert_Some f k u old m :
  m !! k = Some old → sum_over f (<[k:=u]> m) = sum_over f m - f old + f u.
Proof.
  intros E.
  assert (sum_over f m = sum_over f (delete k m) + f old) as ->.
  { rewrite <- (insert_delete_id m k old E) at 1.
    apply sum_over_insert_None, lookup_delete_eq. }
  rewrite <- (insert_delete_eq m k u).
  rewrite sum_over_insert_None by apply lookup_delete_eq. lia.
Qed.

Lemma circulation_insert f k u m :
  circulation f (<[k:=u]> m)
  = circulation f m + f u - f (default new_user (m !! k)).
Proof.
  unfold circulation. rewrite map_size_insert.
  destruct (m !! k) as [old|] eqn:E; simpl.
  - rewrite (sum_over_insert_Some _ _ _ _ _ E). lia.
  - rewrite (sum_over_insert_None _ _ _ _ E). lia.
Qed.

Lemma written_lookup_ne g l m k :
  (∀ a, a ∈ l → k ≠ pretty a) → written g l m !! k = m !! k.
Proof.
  induction l as [|x l IH]; intros Hk; [done|]. simpl.
  rewrite lookup_insert_ne by (apply not_eq_sym, Hk; by left).
  apply IH. intros a Ha. apply Hk. by right.
Qed.

Lemma written_lookup g l m a :
  a ∈ l → written g l m !! pretty a = Some (g a).
Proof.
  induction l as [|x l IH]; [by intros ?%elem_of_nil|].
  intros Ha. simpl. destruct (decide (x = a)) as [->|Hne].
  - by rewrite lookup_insert_eq.
  - rewrite lookup_insert_ne by (by apply pretty_ne).
    apply IH. apply elem_of_cons in Ha as [->|Ha]; done.
Qed.

Lemma written_size g l m :
  (size m ≤ size (written g l m) ≤ size m + length l)%nat.
Proof.
  induction l as [|x l IH]; simpl; [lia|].
  rewrite map_size_insert. destruct (_ !! _); simpl; lia.
Qed.

Lemma written_circulation f g l m :
  NoDup l →
  circulation f (written g l m)
  = circulation f m
    + Py.sum (map (λ a, f (g a) - f (default new_user (m !! pretty a))) l).
Proof.
  induction 1 as [|x l Hx Hl IH]; simpl; [lia|].
  rewrite circulation_insert, IH.
  rewrite written_lookup_ne; [lia|].
  intros a Ha E. apply Hx. by rewrite (inj pretty _ _ E).
Qed.

(** The dictionary after any command. *)
Lemma run_users fuel io c st st' r :
  run fuel io c st = Some (st', r) →
  (st' = st ∧ ∀ b u, effect c r b u = u) ∨ users st' = applied c r st.
Proof.
  intros Hrun. destruct (run_effect _ _ _ _ _ _ Hrun) as (Hframe & Hparty & _).
  assert ((st' = st ∧ ∀ b u, effect c r b u = u)
          ∨ ∀ a, a ∈ parties c →
              users st' !! pretty a = Some (effect c r a (account st a))) as [?|Hall].
  { revert Hparty. generalize (parties c) as l.
    induction l as [|x l IH]; intros Hparty.
    - right. by intros a ?%elem_of_nil.
    - destruct (Hparty x) as [?|Hx]; [by left|by left|].
      destruct IH as [?|Hl]; [intros a Ha; apply Hparty; by right|by left|].
      right. intros a [->|Ha]%elem_of_cons; auto. }
  { by left. }
  right. apply map_eq. intros k. unfold applied.
  destruct (decide (Exists (λ a, k = pretty a) (parties c))) as [Hex|Hno].
  - apply Exists_exists in Hex as (a & Ha & ->).
    by rewrite written_lookup, Hall.
  - assert (∀ a, a ∈ parties c → k ≠ pretty a) as Hk.
    { intros a Ha ->. apply Hno, Exists_exists. eauto. }
    by rewrite written_lookup_ne, Hframe.
Qed.

(** [don] to oneself only looks the account up. *)
Lemma don_self author membre montant io st :
  id membre = author →
  don author membre montant io st
  = (ensure author st, if bot membre then DonToBot else DonToSelf).
Proof.
  intros E. unfold don. rewrite !get_user_data_ensure. cbn zeta.
  rewrite E, Z.eqb_refl.
  rewrite (ensure_same author (ensure author st)) by apply present_ensure.
  by destruct (bot membre).
Qed.

Lemma steal_self author cible now_reset now r k io st :
  id cible = author →
  steal author cible now_reset now r k io st = (st, CannotSteal).
Proof. intros E. unfold steal. by rewrite E, Z.eqb_refl, orb_true_r. Qed.

Lemma NoDup_two (a b : Z) : a ≠ b → NoDup [a; b].
Proof.
  intros Hne. apply NoDup_cons. split; [|apply NoDup_singleton].
  by intros ->%list_elem_of_singleton.
Qed.

(** What a command adds to a total, party by party. *)
Lemma run_circulation f fuel io c st st' r :
  run fuel io c st = Some (st', r) →
  circulation f (users st')
  = circulation f (users st)
    + Py.sum (map (λ a, f (effect c r a (account st a)) - f (account st a)) (parties c)).
Proof.
  intros Hrun.
  assert (NoDup (parties c) →
          circulation f (users st')
          = circulation f (users st)
            + Py.sum (map (λ a, f (effect c r a (account st a)) - f (account st a))
                        (parties c))) as Hdistinct.
  { intros Hnd. destruct (run_users _ _ _ _ _ _ Hrun) as [[-> Hid]| ->].
    - assert (∀ l, Py.sum (map (λ a, f (effect c r a (account st a)) - f (account st a)) l)
                   = 0) as ->; [|lia].
      induction l as [|x l IH]; [done|].
      cbn [map Py.sum fold_right]. fold (Py.sum (map (λ a, f (effect c r a (account st a)) - f (account st a)) l)).
      rewrite IH, Hid. lia.
    - unfold applied. by rewrite written_circulation. }
  destruct c; try (apply Hdistinct; apply NoDup_singleton).
  - destruct (decide (author = id cible)) as [E|E]; [|by apply Hdistinct, NoDup_two].
    simpl in Hrun. rewrite steal_self in Hrun by done.
    injection Hrun as <- <-. simpl. lia.
  - destruct (decide (author = id membre)) as [E|E]; [|by apply Hdistinct, NoDup_two].
    simpl in Hrun. rewrite don_self in Hrun by done.
    injection Hrun as <- <-. rewrite ensure_insert. cbn [users].
    rewrite circulation_insert. fold (account st author).
    destruct (bot membre); simpl; lia.
Qed.

(** ** What every command does to the store *)

Lemma pretty_3_ne_1 : pretty 3 ≠ (pretty 1 : string).
Proof. by vm_compute. Qed.

(** X1: a command writes only the accounts of its parties (the caller, and
    the target of [steal], [give], [remove] and [don]): every other entry of
    the dictionary is left as it was, no entry is ever deleted, an entry
    that appears belongs to a party and is the default record as the
    command updated it, and the number of players grows by at most the
    number of parties. *)
Theorem command_touches_only_its_parties fuel io c st st' r :
  run fuel io c st = Some (st', r) →
  (∀ k, (∀ a, a ∈ parties c → k ≠ pretty a) → users st' !! k = users st !! k)
  ∧ (∀ k, is_Some (users st !! k) → is_Some (users st' !! k))
  ∧ (∀ k u', users st !! k = None → users st' !! k = Some u' →
       ∃ a, a ∈ parties c ∧ k = pretty a ∧ u' = effect c r a new_user)
  ∧ (size (users st) ≤ size (users st') ≤ size (users st) + length (parties c))%nat.
Proof.
  intros Hrun. destruct (run_effect _ _ _ _ _ _ Hrun) as (Hframe & Hparty & _).
  split; [done|]. split; [|split].
  - intros k Hk.
    destruct (decide (Exists (λ a, k = pretty a) (parties c))) as [Hex|Hno].
    + apply Exists_exists in Hex as (a & Ha & ->).
      destruct (Hparty a Ha) as [[-> _]|E]; [done|by rewrite E].
    + rewrite Hframe; [done|]. intros a Ha ->. apply Hno, Exists_exists. eauto.
  - intros k u' Hnone Hk.
    destruct (run_lookup _ _ _ _ _ _ _ _ Hrun Hk) as [E|(a & Ha & -> & ->)];
      [congruence|].
    exists a. unfold account. by rewrite Hnone.
  - destruct (run_users _ _ _ _ _ _ Hrun) as [[-> _]| ->]; [lia|].
    apply written_size.
Qed.

Lemma command_touches_only_its_parties_witness :
  let st := single 3 new_user in
  let st' := (don 1 (mkMember 2 false) 100 Written st).1 in
  users st' !! pretty 3 = users st !! pretty 3
  ∧ (size (users st) ≤ size (users st') ≤ size (users st) + 2)%nat.
Proof.
  intros st st'.
  assert (run 0 Written (Don 1 (mkMember 2 false) 100) st = Some (st', DonDone 100)) as Hrun.
  { by vm_compute. }
  destruct (command_touches_only_its_parties _ _ _ _ _ _ Hrun) as (Hframe & _ & _ & Hsize).
  split; [|exact Hsize].
  apply Hframe. intros a [->| ->]%elem_of_two; by vm_compute.
Defined.

(** X2: only a command that is carried out touches the file: a command
    answered by a result (a game played, a grant, a purchase, a steal
    attempted, a transfer) calls [save_users] once, at its end; the file then
    holds the whole dictionary as it stands when the write succeeds, is left
    as it was when it cannot be opened, and is left empty or partial, read
    back as the empty dictionary, when the write fails after [open] has
    emptied it.  A rejected or interrupted command leaves the file as it
    was, whatever it did to the dictionary. *)
Theorem file_written_when_carried_out fuel io c st st' r :
  run fuel io c st = Some (st', r) →
  disk st' = (if carried_out r then file_after io (users st') (disk st) else disk st)
  ∧ (carried_out r = true → io = Written → disk st' = users st')
  ∧ (carried_out r = true → io = NotOpened → disk st' = disk st)
  ∧ (carried_out r = true → io = Truncated → disk st' = ∅)
  ∧ (carried_out r = false → disk st' = disk st).
Proof.
  intros Hrun. destruct (run_effect _ _ _ _ _ _ Hrun) as (_ & _ & ->).
  split; [done|]. by repeat split; intros ->; try intros ->.
Qed.

Lemma file_written_when_carried_out_witness :
  let st := (give true (mkMember 3 false) 5 Written empty_state).1 in
  let st1 := (don 1 (mkMember 2 false) 0 Written st).1 in
  let st2 := (give true (mkMember 3 false) 5 Truncated st1).1 in
  size (disk st) = 1%nat
  ∧ disk st1 = disk st ∧ size (users st1) = 3%nat
  ∧ disk st2 = ∅ ∧ size (users st2) = 3%nat.
Proof.
  intros st st1 st2.
  split; [by vm_compute|].
  destruct (file_written_when_carried_out 0 Written (Don 1 (mkMember 2 false) 0) st st1
              DonNotPositive) as (_ & _ & _ & _ & Hrejected); [by vm_compute|].
  split; [by apply Hrejected|]. split; [by vm_compute|].
  destruct (file_written_when_carried_out 0 Truncated (Give true (mkMember 3 false) 5)
              st1 st2 (Given 5)) as (_ & _ & _ & Htruncated & _); [by vm_compute|].
  split; [by apply Htruncated|]. by vm_compute.
Defined.

(** ** Statistics *)

Lemma game_result_wager fuel io c st st' o :
  run fuel io c st = Some (st', GameResult o) → is_Some (wager_of c).
Proof.
  destruct c; simpl; eauto;
    unfold daily, acheter, steal, give, remove, don; repeat case_match; done.
Qed.

Lemma effect_counters c r a u :
  (∀ o, r ≠ GameResult o) →
  games_played (effect c r a u) = games_played u
  ∧ total_winnings (effect c r a u) = total_winnings u
  ∧ total_losses (effect c r a u) = total_losses u.
Proof.
  intros Hr. destruct c, r; simpl; try (by destruct (Hr o));
    repeat case_match; done.
Qed.

Lemma settle_counters mise o u :
  0 < mise → 0 ≤ payout mise o →
  games_played (settle mise o u) = games_played u + 1
  ∧ total_winnings u ≤ total_winnings (settle mise o u)
  ∧ total_losses u ≤ total_losses (settle mise o u).
Proof.
  intros Hm Hp. destruct o as [gain| |]; simpl in *; repeat case_match; lia.
Qed.

(** X3: the statistics of an account never decrease, and only a game the
    account's owner has played to its end changes them: whatever the
    command, [games_played], [total_winnings] and [total_losses] of every
    user are at least what they were, and they are what they were unless
    the command is a wager of that user answered by a game result, which
    adds exactly one game. *)
Theorem statistics_only_grow fuel io c st st' r a :
  run fuel io c st = Some (st', r) →
  counters_grow (account st a) (account st' a)
  ∧ ((∀ g mise o, ¬ (wager_of c = Some (g, a, mise) ∧ r = GameResult o)) →
       games_played (account st' a) = games_played (account st a)
       ∧ total_winnings (account st' a) = total_winnings (account st a)
       ∧ total_losses (account st' a) = total_losses (account st a))
  ∧ (∀ g mise o, wager_of c = Some (g, a, mise) → r = GameResult o →
       games_played (account st' a) = games_played (account st a) + 1).
Proof.
  intros Hrun. rewrite (run_account _ _ _ _ _ _ a Hrun). unfold counters_grow.
  assert ((∀ o, r ≠ GameResult o) ∨ ∃ o, r = GameResult o) as [Hr|[o ->]].
  { destruct r; eauto; by left. }
  { destruct (effect_counters c r a (account st a) Hr) as (-> & -> & ->).
    split; [lia|]. split; [done|]. intros g mise o _ ->. by destruct (Hr o). }
  destruct (game_result_wager _ _ _ _ _ _ Hrun) as [[[g author] mise] Hw].
  destruct (game_result_stake _ _ _ _ _ _ _ _ _ Hw Hrun) as [Hm Hp].
  rewrite (effect_wager _ _ _ _ _ _ _ Hw).
  destruct (settle_counters mise o (account st a)) as (Hg & Hwin & Hloss); [lia|done|].
  destruct (a =? author) eqn:E; [apply Z.eqb_eq in E as ->|apply Z.eqb_neq in E].
  - split; [lia|]. split; [intros Hno; by destruct (Hno g mise o)|done].
  - split; [lia|]. split; [done|]. intros g' mise' o' Hw'. congruence.
Qed.

Lemma statistics_only_grow_witness :
  let st' := (dice 1 10 3 3 0 Written empty_state).1 in
  games_played (account st' 1) = games_played (account empty_state 1) + 1.
Proof.
  intros st'.
  assert (run 0 Written (Dice 1 10 3 3 0) empty_state = Some (st', GameResult Push)) as Hrun.
  { by vm_compute. }
  destruct (statistics_only_grow _ _ _ _ _ _ 1 Hrun) as (_ & _ & Hplayed).
  by apply (Hplayed G_dice 10 Push).
Defined.

(** ** Invariants of the accounts *)

Lemma effect_items c r a u :
  items (effect c r a u) = items u
  ∨ ∃ author objet now o p,
      c = Acheter author objet now ∧ r = Bought o p ∧ a = author
      ∧ items (effect c r a u) = items u ++ [o].
Proof.
  destruct c, r; cbn [effect]; try (by left);
    try (left; repeat case_match; try done; match goal with o : outcome |- _ => by destruct o end).
  destruct (a =? author) eqn:E; [apply Z.eqb_eq in E|by left].
  right. do 5 eexists. split; [done|]. split; [done|]. split; [done|].
  by destruct (Py.contains _ _).
Qed.

Lemma effect_steals c r a u :
  steals (effect c r a u) = steals u
  ∨ ∃ author cible now_reset now x k,
      c = Steal author cible now_reset now x k ∧ a = author
      ∧ (steals (effect c r a u) = steals_today now_reset u
         ∨ carried_out r = true
           ∧ steals (effect c r a u) = steals_today now_reset u ++ [date now]).
Proof.
  destruct c, r; cbn [effect]; try (by left);
    try (left; repeat case_match; try done; match goal with o : outcome |- _ => by destruct o end);
    (destruct (a =? author) eqn:E; [apply Z.eqb_eq in E|left; by repeat case_match]);
    right; do 6 eexists; (split; [done|]); (split; [done|]); auto.
Qed.

Lemma mem_app x l1 l2 : Py.mem x (l1 ++ l2) = Py.mem x l1 || Py.mem x l2.
Proof. apply existsb_app. Qed.

(** X4: no account ever lists an item twice: if the item lists of all
    accounts are free of duplicates before a command, they are after it,
    whatever the command and its outcome ([acheter] is the only writer and
    appends an item only after checking that it is not owned). *)
Theorem items_stay_distinct fuel io c st st' r :
  every_account (λ u, NoDup (items u)) (users st) →
  run fuel io c st = Some (st', r) →
  every_account (λ u, NoDup (items u)) (users st').
Proof.
  intros Hall Hrun.
  eapply (run_invariant (λ u, NoDup (items u)));
    [apply NoDup_nil_2| |exact Hrun|exact Hall].
  intros a Ha Hnd.
  destruct (effect_items c r a (account st a))
    as [->|(author & objet & now & o & p & -> & -> & -> & ->)]; [done|].
  simpl in Hrun. injection Hrun as Hrun.
  apply bought_guard in Hrun as (_ & _ & _ & Hmem). apply mem_not_In in Hmem.
  apply NoDup_app. split; [done|]. split; [|apply NoDup_singleton].
  intros x Hx ->%list_elem_of_singleton. by apply Hmem, list_elem_of_In.
Qed.

Lemma items_stay_distinct_witness :
  let st' := (acheter 1 "badge" 0 Written empty_state).1 in
  items (account st' 1) = ["badge"%string] ∧ NoDup (items (account st' 1)).
Proof.
  intros st'. split; [by vm_compute|].
  assert (every_account (λ u, NoDup (items u)) (users st')) as Hall.
  { apply (items_stay_distinct 0 Written (Acheter 1 "badge" 0) empty_state st' (Bought "badge" 500)).
    - intros k u Hk. simpl in Hk. by rewrite lookup_empty in Hk.
    - by vm_compute. }
  apply (Hall (pretty 1)). by vm_compute.
Defined.

(** X5: no account ever records more steals than its quota: if every
    account holds at most [max_steals] entries in its list of steals (3, or
    4 with the item extra_steal) before a command, so it does after it;
    an attempt is recorded only when fewer entries than the quota are left
    for the day, and an item once bought is never lost. *)
Theorem steals_within_quota fuel io c st st' r :
  every_account (λ u, Z.of_nat (length (steals u)) ≤ max_steals_of u) (users st) →
  run fuel io c st = Some (st', r) →
  every_account (λ u, Z.of_nat (length (steals u)) ≤ max_steals_of u) (users st').
Proof.
  intros Hall Hrun.
  eapply (run_invariant (λ u, Z.of_nat (length (steals u)) ≤ max_steals_of u));
    [by vm_compute| |exact Hrun|exact Hall].
  cbn beta. intros a Ha Hq.
  assert (max_steals_of (account st a) ≤ max_steals_of (effect c r a (account st a))) as Hmax.
  { unfold max_steals_of.
    destruct (effect_items c r a (account st a))
      as [->|(author & objet & now & o & p & -> & -> & -> & ->)]; [done|].
    rewrite mem_app. destruct (Py.mem _ (items _)); simpl; [done|]. case_match; lia. }
  destruct (effect_steals c r a (account st a))
    as [->|(author & cible & now_reset & now & x & k & -> & -> & [E|[Hc E]])];
    [lia| |]; rewrite E.
  - pose proof (List.filter_length_le (λ s, s =? date now_reset) (steals (account st author))).
    unfold steals_today. lia.
  - simpl in Hrun. injection Hrun as Hrun.
    destruct (steal_guard _ _ _ _ _ _ _ _ _ _ Hrun Hc) as (_ & _ & Hlt & _).
    rewrite length_app, Nat2Z.inj_add. change (Z.of_nat (length [date now])) with 1. lia.
Qed.

Lemma steals_within_quota_witness :
  let st := single 2 new_user in
  let st' := (steal 1 (mkMember 2 false) 0 0 0 80 Written st).1 in
  Z.of_nat (length (steals (account st' 1))) ≤ 3.
Proof.
  intros st st'.
  assert (every_account (λ u, Z.of_nat (length (steals u)) ≤ max_steals_of u) (users st'))
    as Hall.
  { apply (steals_within_quota 0 Written (Steal 1 (mkMember 2 false) 0 0 0 80) st st'
             (StealDone 100)).
    - intros k u Hk. subst st. unfold single in Hk. simpl in Hk.
      apply lookup_singleton_Some in Hk as [<- <-]. by vm_compute.
    - by vm_compute. }
  apply (Hall (pretty 1) (account st' 1)). by vm_compute.
Defined.

(** X6: solvency is kept along any session: starting from a dictionary and
    a file without negative balances, no sequence of commands, whatever
    their arguments, random draws and write failures, produces a negative
    balance, as long as the owner gives no negative amount. *)
Theorem session_keeps_balances_nonnegative fuel cs st st' :
  Forall (λ x, credits_only x.2) cs →
  sound st →
  session fuel cs st = Some st' →
  sound st'.
Proof.
  intros Hcs. revert st. induction Hcs as [|[io c] cs Hc Hcs IH]; intros st Hs; simpl.
  - by intros [= <-].
  - destruct (run fuel io c st) as [[st1 r]|] eqn:Hrun; [|done].
    apply IH. by eapply run_sound.
Qed.

Lemma session_keeps_balances_nonnegative_witness :
  let cs := [(Written, Give true (mkMember 1 false) 40);
             (NotOpened, Remove true (mkMember 1 false) 1000);
             (Truncated, Don 2 (mkMember 1 false) 500);
             (Written, Slot 2 1 0 0 0 0)] in
  ∃ st', session 0 cs empty_state = Some st' ∧ sound st'.
Proof.
  intros cs.
  exists (default empty_state (session 0 cs empty_state)).
  assert (session 0 cs empty_state
          = Some (default empty_state (session 0 cs empty_state))) as Hs.
  { by vm_compute. }
  split; [exact Hs|].
  apply (session_keeps_balances_nonnegative 0 cs empty_state); [| |exact Hs].
  - subst cs. repeat apply Forall_cons_2; try apply Forall_nil_2; simpl; try done; lia.
  - split; intros k u Hk; simpl in Hk; by rewrite lookup_empty in Hk.
Defined.

(** ** The figures of [stats] *)

Lemma sum_zero (g : Z → Z) l : (∀ a, g a = 0) → Py.sum (map g l) = 0.
Proof.
  intros Hg. induction l as [|x l IH]; [done|].
  cbn [map Py.sum fold_right]. fold (Py.sum (map g l)). rewrite IH, Hg. lia.
Qed.

(** X7: [don] and [steal] move coins and neither mint nor burn them: the
    coins in circulation that [stats] reports after such a command,
    whatever its answer, are those before it plus the 500 coins of each
    account it created. *)
Theorem transfers_conserve_coins fuel io c st st' r :
  transfer c = true →
  run fuel io c st = Some (st', r) →
  let '(players, coins, _) := stats st in
  let '(players', coins', _) := stats st' in
  coins' = coins + 500 * (Z.of_nat players' - Z.of_nat players).
Proof.
  intros Hc Hrun. unfold stats. cbn beta iota zeta.
  pose proof (run_circulation balance _ _ _ _ _ _ Hrun) as Hcirc.
  unfold circulation in Hcirc. change (balance new_user) with 500 in Hcirc.
  enough (Py.sum (map (λ a, balance (effect c r a (account st a)) - balance (account st a))
                    (parties c)) = 0) as Hz; [lia|].
  clear Hcirc. destruct c; try done; clear Hc; simpl in Hrun; injection Hrun as Hrun.
  - destruct (decide (id cible = author)) as [E|E].
    { rewrite steal_self in Hrun by done. injection Hrun as <- <-. apply sum_zero. intros a. simpl. lia. }
    apply Z.eqb_neq in E. cbn [parties map Py.sum fold_right].
    destruct r; cbn [effect]; rewrite ?Z.eqb_refl, ?E; simpl; lia.
  - destruct (decide (id membre = author)) as [E|E].
    { rewrite don_self in Hrun by done. injection Hrun as <- <-.
      apply sum_zero. intros a. destruct (bot membre); simpl; lia. }
    apply Z.eqb_neq in E. cbn [parties map Py.sum fold_right].
    destruct r; cbn [effect]; rewrite ?Z.eqb_refl, ?E; simpl; lia.
Qed.

Lemma transfers_conserve_coins_witness :
  let st' := (don 1 (mkMember 2 false) 120 Written empty_state).1 in
  let '(players, coins, _) := stats empty_state in
  let '(players', coins', _) := stats st' in
  coins' = coins + 500 * (Z.of_nat players' - Z.of_nat players).
Proof.
  intros st'.
  apply (transfers_conserve_coins 0 Written (Don 1 (mkMember 2 false) 120) empty_state st'
           (DonDone 120) eq_refl).
  by vm_compute.
Defined.

(** X8: [stats] counts every game played to its end, and nothing else: the
    number of games it reports grows by exactly one with each command
    answered by a game result and is unchanged by every other command,
    rejected, interrupted or not a game. *)
Theorem stats_counts_completed_games fuel io c st st' r :
  run fuel io c st = Some (st', r) →
  (stats st').2 = (stats st).2 + games_of r.
Proof.
  intros Hrun. unfold stats. cbn [snd].
  pose proof (run_circulation games_played _ _ _ _ _ _ Hrun) as Hcirc.
  unfold circulation in Hcirc. change (games_played new_user) with 0 in Hcirc.
  enough (Py.sum (map (λ a, games_played (effect c r a (account st a))
                            - games_played (account st a)) (parties c))
          = games_of r) as Hz; [lia|].
  clear Hcirc.
  assert ((∀ o, r ≠ GameResult o) ∨ ∃ o, r = GameResult o) as [Hr|[o ->]].
  { destruct r; eauto; by left. }
  { replace (games_of r) with 0 by (destruct r; try done; by destruct (Hr o)).
    apply sum_zero. intros a.
    destruct (effect_counters c r a (account st a) Hr) as (-> & _). lia. }
  destruct (game_result_wager _ _ _ _ _ _ Hrun) as [[[g author] mise] Hw].
  destruct (game_result_stake _ _ _ _ _ _ _ _ _ Hw Hrun) as [Hm Hp].
  rewrite (parties_wager _ _ _ _ Hw). cbn [map Py.sum fold_right games_of].
  rewrite (effect_wager _ _ _ _ _ _ _ Hw), Z.eqb_refl.
  destruct (settle_counters mise o (account st author)) as (-> & _); [lia|done|lia].
Qed.

Lemma stats_counts_completed_games_witness :
  let st' := (dice 1 10 3 3 0 Written empty_state).1 in
  (stats st').2 = 1.
Proof.
  intros st'.
  apply (stats_counts_completed_games 0 Written (Dice 1 10 3 3 0) empty_state st'
           (GameResult Push)).
  by vm_compute.
Defined.

(** ** The daily reward *)

Lemma daily_cases author now now_boost io st :
  let u := account st author in
  let gain := 100 * get_boost_multiplier now_boost u in
  let grant := (save_users io (put author (granted now gain u) st), DailyGranted gain) in
  daily author now now_boost io st
  = match last_daily u with
    | Iso last =>
        if now - last <? hours 24
        then (ensure author st, DailyTooSoon (hours 24 - (now - last)))
        else grant
    | Unparsable _ => grant
    end.
Proof.
  unfold daily, granted, put, apply_boost. store_simpl. cbn zeta.
  destruct (last_daily (account st author)) as [last|text]; simpl.
  - destruct (now - last <? hours 24); [done|]. by store_simpl.
  - destruct (negb _); by store_simpl.
Qed.

(** X9: [daily] grants the reward unless a claim is on record from less
    than 24 hours before: a new account, an empty or unreadable
    [last_daily] and a claim at least 24 hours old all pass; the reward is
    100 coins times the boost multiplier (100, 200 or 300), it is added to
    the balance, the time of the claim is recorded and nothing else in the
    account changes; otherwise the answer is the time left, which is
    positive, and the account is untouched. *)
Theorem daily_spec author now now_boost io st :
  let u := account st author in
  let st' := (daily author now now_boost io st).1 in
  let answer := (daily author now now_boost io st).2 in
  let gain := 100 * get_boost_multiplier now_boost u in
  ((∀ last, last_daily u = Iso last → hours 24 ≤ now - last) →
     answer = DailyGranted gain
     ∧ (gain = 100 ∨ gain = 200 ∨ gain = 300)
     ∧ account st' author = granted now gain u
     ∧ balance (account st' author) = balance u + gain
     ∧ last_daily (account st' author) = Iso now)
  ∧ (∀ last, last_daily u = Iso last → now - last < hours 24 →
     answer = DailyTooSoon (hours 24 - (now - last))
     ∧ 0 < hours 24 - (now - last)
     ∧ account st' author = u
     ∧ disk st' = disk st).
Proof.
  intros u st' answer gain. subst st' answer.
  rewrite daily_cases. fold u gain. cbn zeta.
  assert (gain = 100 ∨ gain = 200 ∨ gain = 300) as Hgain.
  { subst gain. unfold get_boost_multiplier. repeat case_match; lia. }
  split.
  - intros Hold.
    assert (match last_daily u with
            | Iso last =>
                if now - last <? hours 24
                then (ensure author st, DailyTooSoon (hours 24 - (now - last)))
                else (save_users io (put author (granted now gain u) st), DailyGranted gain)
            | Unparsable _ =>
                (save_users io (put author (granted now gain u) st), DailyGranted gain)
            end
            = (save_users io (put author (granted now gain u) st), DailyGranted gain)) as ->.
    { destruct (last_daily u) as [last|text] eqn:E; [|done].
      specialize (Hold last eq_refl).
      destruct (now - last <? hours 24) eqn:E'; [apply Z.ltb_lt in E'; lia|done]. }
    cbn [fst snd]. rewrite account_save_users, account_put.
    split; [done|]. split; [done|]. split; [done|]. split; done.
  - intros last E Hsoon. rewrite E.
    apply Z.ltb_lt in Hsoon as Hsoon'. rewrite Hsoon'. cbn [fst snd].
    split; [done|]. split; [lia|]. split; [apply account_ensure|apply ensure_disk].
Qed.

Lemma daily_spec_witness :
  let st' := (daily 1 0 0 Written empty_state).1 in
  (daily 1 0 0 Written empty_state).2 = DailyGranted 100
  ∧ balance (account st' 1) = 600.
Proof.
  intros st'.
  destruct (daily_spec 1 0 0 Written empty_state) as [Hgrant _].
  destruct Hgrant as (Ha & _ & _ & Hb & _); [by intros last [=]|].
  split; [exact Ha|exact Hb].
Defined.

(** X10: the cooldown of [daily] runs from the last granted claim: after a
    claim granted at time [now], a claim of the same user at time [now2] is
    rejected exactly when less than 24 hours have passed, with the
    remaining time [24h - (now2 - now)] and no change of the state; from
    24 hours on it is granted again, and the two rewards add up. *)
Theorem daily_cooldown author now now_boost io st st1 gain now2 now_boost2 io2 :
  daily author now now_boost io st = (st1, DailyGranted gain) →
  (now2 - now < hours 24 →
     daily author now2 now_boost2 io2 st1
     = (st1, DailyTooSoon (hours 24 - (now2 - now))))
  ∧ (hours 24 ≤ now2 - now →
     ∃ st2 gain2,
       daily author now2 now_boost2 io2 st1 = (st2, DailyGranted gain2)
       ∧ balance (account st2 author) = balance (account st author) + gain + gain2
       ∧ last_daily (account st2 author) = Iso now2).
Proof.
  intros Hfirst.
  assert (users st1 !! pretty author = Some (granted now gain (account st author))) as Hst1.
  { revert Hfirst. rewrite daily_cases. cbn zeta.
    destruct (last_daily (account st author)) as [last|text];
      [destruct (now - last <? hours 24); [done|]|];
      intros [= <- <-]; by rewrite users_save_users, lookup_put. }
  pose proof (account_stored _ _ _ Hst1) as Hacc.
  rewrite daily_cases, Hacc. cbn zeta. cbn [granted last_daily with_last_daily isoformat].
  split.
  - intros Hsoon. apply Z.ltb_lt in Hsoon. rewrite Hsoon.
    by rewrite (ensure_present _ _ _ Hst1).
  - intros Hlate. apply Z.ltb_ge in Hlate. rewrite Hlate.
    eexists _, _. split; [done|].
    rewrite account_save_users, account_put. by split.
Qed.

Lemma daily_cooldown_witness :
  let st1 := (daily 1 0 0 Written empty_state).1 in
  daily 1 (hours 23) 0 Written st1 = (st1, DailyTooSoon (hours 1)).
Proof.
  intros st1.
  destruct (daily_cooldown 1 0 0 Written empty_state st1 100 (hours 23) 0 Written) as [Hsoon _];
    [by vm_compute|].
  apply Hsoon. by vm_compute.
Defined.

(** ** The shop *)

Lemma prix_of_cases o p :
  prix_of o = Some p →
  0 < p
  ∧ (Py.contains "boost" o = true → o = "boost_x2"%string ∨ o = "boost_x3"%string)
  ∧ (Py.contains "boost" o = false →
       String.eqb "boost_x2" o = false ∧ String.eqb "boost_x3" o = false).
Proof.
  unfold prix_of, shop_items, prix_in.
  repeat match goal with
  | |- context [String.eqb o ?s] =>
      let E := fresh "E" in
      destruct (String.eqb o s) eqn:E;
        [ apply String.eqb_eq in E as ->; vm_compute; intros [= <-];
          split; [done|]; split; intros; auto; done
        | clear E ]
  end.
  done.
Qed.

(** X11: a purchase is made only of a catalogue item, named up to case and
    spaces, that the buyer can pay and does not own yet; it takes the
    (positive) price from the balance, appends the item to the list of
    items, starts a boost of one hour from the time of purchase when the
    item is a boost and leaves the end of the boost alone otherwise; the
    counters, the steals and the time of the last daily claim are kept. *)
Theorem acheter_purchase author objet now io st st' o p :
  acheter author objet now io st = (st', Bought o p) →
  let u := account st author in
  let u' := account st' author in
  o = Py.replace " " "_" (Py.lower objet)
  ∧ prix_of o = Some p
  ∧ 0 < p ≤ balance u
  ∧ ¬ In o (items u)
  ∧ balance u' = balance u - p
  ∧ items u' = items u ++ [o]
  ∧ boost_end u'
    = (if Py.contains "boost" o then Some (Iso (now + hours 1)) else boost_end u)
  ∧ steals u' = steals u ∧ last_daily u' = last_daily u
  ∧ games_played u' = games_played u
  ∧ total_winnings u' = total_winnings u ∧ total_losses u' = total_losses u.
Proof.
  intros Hbuy u u'.
  destruct (bought_guard _ _ _ _ _ _ _ _ Hbuy) as (Ho & Hp & Hle & Hmem).
  destruct (prix_of_cases _ _ Hp) as (Hpos & _).
  apply mem_not_In in Hmem.
  split; [done|]. split; [done|]. split; [done|]. split; [done|].
  subst u'.
  rewrite (run_account 0 io (Acheter author objet now) st st' (Bought o p) author)
    by (simpl; by rewrite Hbuy).
  cbn [effect]. rewrite Z.eqb_refl. fold u.
  by destruct (Py.contains "boost" o).
Qed.

Lemma acheter_purchase_witness :
  let objet := ("TIC" ++ Py.kelvin_sign ++ "ET Loterie")%string in
  let st' := (acheter 1 objet 0 Written empty_state).1 in
  (acheter 1 objet 0 Written empty_state).2 = Bought "ticket_loterie" 250
  ∧ balance (account st' 1) = 250
  ∧ items (account st' 1) = ["ticket_loterie"%string].
Proof.
  intros objet st'.
  destruct (acheter_purchase 1 objet 0 Written empty_state st' "ticket_loterie" 250)
    as (_ & _ & _ & _ & Hb & Hi & _); [by vm_compute|].
  split; [by vm_compute|]. split; [exact Hb|exact Hi].
Defined.

(** X12: a boost runs for one hour from its purchase: after buying an item
    whose name contains "boost" at time [now], the multiplier of the buyer
    is 3 or 2 at every time before [now + 1h] and 1 from then on; it is 3
    as soon as boost_x3 is among the items, so that buying boost_x2 brings
    an expired boost_x3 back for an hour.  A purchase of any other item
    changes the multiplier at no time. *)
Theorem boost_runs_one_hour author objet now io st st' o p :
  acheter author objet now io st = (st', Bought o p) →
  let u := account st author in
  let u' := account st' author in
  (Py.contains "boost" o = true →
     ∀ t, get_boost_multiplier t u'
          = if t <? now + hours 1
            then (if Py.mem "boost_x3" (items u) || String.eqb o "boost_x3" then 3 else 2)
            else 1)
  ∧ (Py.contains "boost" o = false →
     ∀ t, get_boost_multiplier t u' = get_boost_multiplier t u).
Proof.
  intros Hbuy u u'.
  destruct (bought_guard _ _ _ _ _ _ _ _ Hbuy) as (Ho & Hp & Hle & Hmem).
  destruct (prix_of_cases _ _ Hp) as (_ & Hboost & Hother).
  subst u'.
  rewrite (run_account 0 io (Acheter author objet now) st st' (Bought o p) author)
    by (simpl; by rewrite Hbuy).
  cbn [effect]. rewrite Z.eqb_refl. fold u.
  split; intros Hc; rewrite Hc; intros t; unfold get_boost_multiplier, has_boost;
    cbn [boost_end items with_boost_end with_items with_balance truthy fromisoformat isoformat];
    rewrite !mem_app; cbn [Py.mem existsb]; rewrite !orb_false_r.
  - destruct (t <? now + hours 1); [|done]. cbn [negb].
    destruct (Hboost Hc) as [-> | ->].
    + change ("boost_x2" =? "boost_x3")%string with false.
      change ("boost_x3" =? "boost_x2")%string with false.
      change ("boost_x2" =? "boost_x2")%string with true.
      rewrite !orb_false_r, orb_true_r. by destruct (Py.mem "boost_x3" (items u)).
    + change ("boost_x3" =? "boost_x3")%string with true.
      by rewrite !orb_true_r.
  - destruct (Hother Hc) as [-> ->]. by rewrite !orb_false_r.
Qed.

Lemma boost_runs_one_hour_witness :
  let st := single 1 (mkUser 1200 (Unparsable "") [] ["boost_x3"%string]
                        (Some (Iso 0)) 0 0 0) in
  let st' := (acheter 1 "boost x2" 5 Written st).1 in
  get_boost_multiplier 5 (account st 1) = 1
  ∧ get_boost_multiplier 5 (account st' 1) = 3
  ∧ get_boost_multiplier (5 + hours 1) (account st' 1) = 1.
Proof.
  intros st st'.
  destruct (boost_runs_one_hour 1 "boost x2" 5 Written st st' "boost_x2" 1200) as [Hboost _];
    [by vm_compute|].
  split; [by vm_compute|].
  split; [by rewrite (Hboost eq_refl 5)|by rewrite (Hboost eq_refl (5 + hours 1))].
Defined.

(** ** Names are read up to case and spaces *)

Lemma lower_ascii_idem c : Py.lower_ascii (Py.lower_ascii c) = Py.lower_ascii c.
Proof. destruct c as [[] [] [] [] [] [] [] []]; by vm_compute. Qed.

Lemma lower_ascii_high c x :
  x = "226"%char ∨ x = "132"%char ∨ x = "170"%char →
  Py.lower_ascii c = x → c = x.
Proof.
  intros [->|[->| ->]]; destruct c as [[] [] [] [] [] [] [] []]; vm_compute; congruence.
Qed.

Lemma lower_kelvin c c2 c3 s :
  Py.is_kelvin c c2 c3 = true →
  Py.lower (String c (String c2 (String c3 s))) = String "k" (Py.lower s).
Proof. intros E. cbn [Py.lower]. by rewrite E. Qed.

Lemma lower_other c s :
  kelvin_at (String c s) = false →
  Py.lower (String c s) = String (Py.lower_ascii c) (Py.lower s).
Proof.
  destruct s as [|c2 [|c3 s]]; try done. cbn [kelvin_at]. intros E.
  cbn [Py.lower]. by rewrite E.
Qed.

Lemma is_kelvin_eq c c2 c3 :
  Py.is_kelvin c c2 c3 = true ↔ c = "226"%char ∧ c2 = "132"%char ∧ c3 = "170"%char.
Proof.
  unfold Py.is_kelvin. rewrite !andb_true_iff, !Ascii.eqb_eq. tauto.
Qed.

Lemma lower_head c s t :
  Py.lower s = String c t →
  c = "k"%char ∧ kelvin_at s = true
  ∨ ∃ c0 s0, s = String c0 s0 ∧ kelvin_at s = false ∧ c = Py.lower_ascii c0 ∧ t = Py.lower s0.
Proof.
  destruct s as [|c0 s0]; [done|].
  destruct (kelvin_at (String c0 s0)) eqn:E.
  - destruct s0 as [|c2 [|c3 s0]]; cbn [kelvin_at] in E; try done. rewrite lower_kelvin by done.
    intros [= <- <-]. by left.
  - rewrite lower_other by done. intros [= <- <-]. right. by exists c0, s0.
Qed.

(** Lowered text holds no KELVIN SIGN. *)
Lemma lower_no_kelvin s : kelvin_at (Py.lower s) = false.
Proof.
  destruct (kelvin_at (Py.lower s)) eqn:E; [|done]. exfalso.
  destruct (Py.lower s) as [|c [|c2 [|c3 t]]] eqn:Es; try done.
  cbn [kelvin_at] in E. apply is_kelvin_eq in E as (-> & -> & ->).
  destruct (lower_head _ _ _ Es) as [[? _]|(c0 & s0 & -> & Hk & H0 & Es0)]; [done|].
  symmetry in H0. apply lower_ascii_high in H0 as ->; [|auto].
  symmetry in Es0.
  destruct (lower_head _ _ _ Es0) as [[? _]|(c1 & s1 & -> & Hk1 & H1 & Es1)]; [done|].
  symmetry in H1. apply lower_ascii_high in H1 as ->; [|auto].
  symmetry in Es1.
  destruct (lower_head _ _ _ Es1) as [[? _]|(c2 & s2 & -> & Hk2 & H2 & Es2)]; [done|].
  symmetry in H2. apply lower_ascii_high in H2 as ->; [|auto].
  done.
Qed.

Lemma string_length_ind (P : string → Prop) :
  (∀ s, (∀ t, (String.length t < String.length s)%nat → P t) → P s) → ∀ s, P s.
Proof.
  intros Hstep s.
  assert (∀ n t, (String.length t < n)%nat → P t) as H.
  { induction n as [|n IH]; intros t Ht; [lia|].
    apply Hstep. intros t' Ht'. apply IH. lia. }
  apply (H (S (String.length s))). lia.
Qed.

Lemma lower_idem s : Py.lower (Py.lower s) = Py.lower s.
Proof.
  induction s as [s IH] using string_length_ind.
  destruct s as [|c s0]; [done|].
  destruct (kelvin_at (String c s0)) eqn:E.
  - destruct s0 as [|c2 [|c3 s0]]; cbn [kelvin_at] in E; try done. rewrite lower_kelvin by done.
    rewrite lower_other.
    + rewrite IH by (simpl; lia). done.
    + pose proof (lower_no_kelvin s0) as Hn.
      destruct (Py.lower s0) as [|d1 [|d2 t]]; done.
  - rewrite lower_other by done.
    pose proof (lower_no_kelvin (String c s0)) as Hn. rewrite lower_other in Hn by done.
    rewrite lower_other by done.
    rewrite lower_ascii_idem, IH by (simpl; lia). done.
Qed.

Lemma replace_ascii_lower c :
  Py.lower_ascii (if Ascii.eqb c " " then "_"%char else c)
  = if Ascii.eqb (Py.lower_ascii c) " " then "_"%char else Py.lower_ascii c.
Proof. destruct c as [[] [] [] [] [] [] [] []]; by vm_compute. Qed.

Lemma replace_kelvin_at s : kelvin_at (Py.replace " " "_" s) = kelvin_at s.
Proof.
  destruct s as [|c [|c2 [|c3 s]]]; try done. cbn [Py.replace kelvin_at].
  unfold Py.is_kelvin.
  destruct (Ascii.eqb c " ") eqn:E1; [apply Ascii.eqb_eq in E1 as ->|];
    (destruct (Ascii.eqb c2 " ") eqn:E2; [apply Ascii.eqb_eq in E2 as ->|]);
    (destruct (Ascii.eqb c3 " ") eqn:E3; [apply Ascii.eqb_eq in E3 as ->|]);
    cbn; rewrite ?andb_false_r; done.
Qed.

(** Lowering and the replacement of spaces commute. *)
Lemma lower_replace s :
  Py.lower (Py.replace " " "_" s) = Py.replace " " "_" (Py.lower s).
Proof.
  induction s as [s IH] using string_length_ind.
  destruct s as [|c s0]; [done|].
  destruct (kelvin_at (String c s0)) eqn:E.
  - destruct s0 as [|c2 [|c3 s0]]; cbn [kelvin_at] in E; try done.
    pose proof E as E'. cbn [kelvin_at] in E'. apply is_kelvin_eq in E' as (-> & -> & ->).
    cbn [Py.replace]. change (Ascii.eqb "226" " ") with false.
    change (Ascii.eqb "132" " ") with false. change (Ascii.eqb "170" " ") with false.
    cbn match. rewrite !lower_kelvin by done. cbn [Py.replace].
    rewrite IH by (simpl; lia). done.
  - rewrite (lower_other c s0) by done. cbn [Py.replace].
    rewrite lower_other.
    + rewrite replace_ascii_lower, IH by (simpl; lia). done.
    + change (kelvin_at (Py.replace " " "_" (String c s0)) = false).
      by rewrite replace_kelvin_at.
Qed.

Lemma replace_idem s :
  Py.replace " " "_" (Py.replace " " "_" s) = Py.replace " " "_" s.
Proof.
  induction s as [|c s IH]; simpl; [done|]. rewrite IH. f_equal.
  destruct (Ascii.eqb c " ") eqn:E; [done|by rewrite E].
Qed.

Lemma normalise_idem s :
  Py.replace " " "_" (Py.lower (Py.replace " " "_" (Py.lower s)))
  = Py.replace " " "_" (Py.lower s).
Proof. by rewrite lower_replace, replace_idem, lower_idem. Qed.

(** X13: item names and colours are read up to the case of the letters, and
    item names up to the choice between space and underscore: [acheter]
    answers and acts on a name as on its normal form (lower case, spaces
    replaced by underscores), and [roulette] on a colour as on its
    lower-case form. *)
Theorem names_are_normalised author objet couleur mise k now io st :
  acheter author (Py.replace " " "_" (Py.lower objet)) now io st
  = acheter author objet now io st
  ∧ roulette author mise (Py.lower couleur) k now io st
    = roulette author mise couleur k now io st.
Proof.
  split.
  - unfold acheter. by rewrite normalise_idem.
  - unfold roulette. by rewrite lower_idem.
Qed.

(** ** Transfers *)

(** X14: [don] transfers exactly when the receiver is not a bot and not the
    giver, the amount is positive and the giver holds it; the amount then
    leaves the giver's balance and reaches the receiver's, and no other
    field or account changes.  Otherwise the answer is a rejection, chosen
    in the order bot, self, amount, balance, and every account is as
    before. *)
Theorem don_spec author membre montant io st :
  let st' := (don author membre montant io st).1 in
  let answer := (don author membre montant io st).2 in
  let giver := account st author in
  let receiver := account st (id membre) in
  (answer = DonDone montant
   ↔ bot membre = false ∧ id membre ≠ author ∧ 0 < montant ≤ balance giver)
  ∧ (answer = DonDone montant →
       account st' author = with_balance (λ b, b - montant) giver
       ∧ account st' (id membre) = with_balance (λ b, b + montant) receiver
       ∧ ∀ a, a ≠ author → a ≠ id membre → account st' a = account st a)
  ∧ (answer ≠ DonDone montant →
       rejection answer = true
       ∧ disk st' = disk st
       ∧ ∀ a, account st' a = account st a)
  ∧ answer
    = (if bot membre then DonToBot
       else if id membre =? author then DonToSelf
       else if montant <=? 0 then DonNotPositive
       else if balance giver <? montant then DonTooHigh
       else DonDone montant).
Proof.
  intros st' answer giver receiver.
  assert (run 0 io (Don author membre montant) st = Some (st', answer)) as Hrun.
  { simpl. subst st' answer. by destruct (don author membre montant io st). }
  assert (∀ a, account st' a = effect (Don author membre montant) answer a (account st a))
    as Hacc by (intros a; by apply (run_account 0 io)).
  pose proof (file_untouched := run_effect _ _ _ _ _ _ Hrun).
  destruct file_untouched as (_ & _ & Hdisk).
  assert (answer
          = (if bot membre then DonToBot
             else if id membre =? author then DonToSelf
             else if montant <=? 0 then DonNotPositive
             else if balance giver <? montant then DonTooHigh
             else DonDone montant)) as Hanswer.
  { subst answer giver. unfold don. rewrite !get_user_data_ensure. cbn zeta.
    destruct (bot membre); [done|].
    destruct (id membre =? author) eqn:E; [done|apply Z.eqb_neq in E].
    assert (pretty author ≠ pretty (id membre)) as Hk by (apply pretty_ne; congruence).
    store_simpl. rewrite (account_beside _ _ _ _ _ Hk). store_simpl.
    by repeat case_match. }
  split; [|split; [|split; [|done]]].
  - rewrite Hanswer. split.
    + destruct (bot membre); [done|].
      destruct (id membre =? author) eqn:E; [done|apply Z.eqb_neq in E].
      destruct (montant <=? 0) eqn:E0; [done|apply Z.leb_gt in E0].
      destruct (_ <? montant) eqn:E1; [done|apply Z.ltb_ge in E1]. intros _. split; [done|]. split; [done|lia].
    + intros (-> & Hne & Hm). apply Z.eqb_neq in Hne. rewrite Hne.
      destruct (montant <=? 0) eqn:E0; [apply Z.leb_le in E0; lia|].
      destruct (_ <? montant) eqn:E1; [apply Z.ltb_lt in E1; lia|done].
  - intros Hdone.
    assert (id membre ≠ author) as Hne.
    { rewrite Hanswer in Hdone. destruct (bot membre); [done|].
      destruct (id membre =? author) eqn:E; [done|by apply Z.eqb_neq in E]. }
    rewrite !Hacc, Hdone. cbn [effect]. rewrite !Z.eqb_refl.
    apply Z.eqb_neq in Hne as Hne'. rewrite Hne'.
    split; [done|]. split; [done|].
    intros a Ha Hb. rewrite Hacc, Hdone. cbn [effect].
    apply Z.eqb_neq in Ha, Hb. by rewrite Ha, Hb.
  - intros Hno.
    assert (rejection answer = true) as Hrej.
    { rewrite Hanswer in *. by repeat case_match. }
    split; [done|]. split.
    + rewrite Hdisk. by destruct answer.
    + intros a. rewrite Hacc. by destruct answer.
Qed.

(** ** The owner's commands *)

Lemma give_answer fuel target amount io st :
  run fuel io (Give true target amount) st
  = Some ((give true target amount io st).1, Given amount).
Proof. simpl. unfold give. simpl. by rewrite get_user_data_ensure. Qed.

Lemma remove_answer fuel target amount io st :
  run fuel io (Remove true target amount) st
  = Some ((remove true target amount io st).1, Removed amount).
Proof. simpl. unfold remove. simpl. by rewrite get_user_data_ensure. Qed.

(** X15: [remove] undoes a [give] of the same amount, but [give] does not
    always undo a [remove]: after [give] then [remove] the balance is the
    one before, or 0 if that was negative; after [remove] then [give] it
    is the larger of the balance before and the amount, because [remove]
    stops at 0.  In both orders only the balance of the target changes. *)
Theorem give_remove_round_trip target amount io1 io2 st :
  let t := id target in
  let st2 := (remove true target amount io2 (give true target amount io1 st).1).1 in
  let st3 := (give true target amount io2 (remove true target amount io1 st).1).1 in
  account st2 t = with_balance (λ b, Z.max b 0) (account st t)
  ∧ account st3 t = with_balance (λ b, Z.max b amount) (account st t)
  ∧ (∀ a, a ≠ t → account st2 a = account st a ∧ account st3 a = account st a).
Proof.
  intros t st2 st3.
  assert (∀ amount1 amount2 io io' a,
    account (remove true target amount2 io' (give true target amount1 io st).1).1 a
    = effect (Remove true target amount2) (Removed amount2) a
        (effect (Give true target amount1) (Given amount1) a (account st a))) as Hgr.
  { intros amount1 amount2 io io' a.
    rewrite (run_account _ _ _ _ _ _ a (remove_answer 0 target amount2 io' _)).
    f_equal. apply (run_account _ _ _ _ _ _ a (give_answer 0 target amount1 io st)). }
  assert (∀ amount1 amount2 io io' a,
    account (give true target amount2 io' (remove true target amount1 io st).1).1 a
    = effect (Give true target amount2) (Given amount2) a
        (effect (Remove true target amount1) (Removed amount1) a (account st a))) as Hrg.
  { intros amount1 amount2 io io' a.
    rewrite (run_account _ _ _ _ _ _ a (give_answer 0 target amount2 io' _)).
    f_equal. apply (run_account _ _ _ _ _ _ a (remove_answer 0 target amount1 io st)). }
  subst st2 st3. rewrite !Hgr, !Hrg. cbn [effect]. fold t. rewrite Z.eqb_refl.
  unfold with_balance; cbn [balance last_daily steals items boost_end games_played
                            total_winnings total_losses].
  split; [f_equal; lia|]. split; [f_equal; lia|].
  intros a Ha%Z.eqb_neq. by rewrite !Hgr, !Hrg; cbn [effect]; fold t; rewrite Ha.
Qed.

(** ** The games *)

Lemma played_account fuel io c g author mise st st' o :
  run fuel io c st = Some (st', GameResult o) →
  wager_of c = Some (g, author, mise) →
  account st' author = settle mise o (account st author).
Proof.
  intros Hrun Hw. rewrite (run_account _ _ _ _ _ _ author Hrun).
  by rewrite (effect_wager _ _ _ _ _ _ _ Hw), Z.eqb_refl.
Qed.

Lemma coin_side k :
  Random.choice ["pile"; "face"]%string ""%string k
  = if (k mod 2 =? 0)%nat then "pile"%string else "face"%string.
Proof.
  unfold Random.choice. cbn [length].
  pose proof (Nat.mod_upper_bound k 2).
  destruct (k mod 2)%nat as [|[|n]]; [done|done|lia].
Qed.

Lemma coinflip_answer author mise k1 k2 now io st :
  0 < mise ≤ balance (account st author) →
  (coinflip author mise k1 k2 now io st).2
  = if (k1 mod 2 =? k2 mod 2)%nat
    then GameResult (Win (mise * 2 * get_boost_multiplier now (account st author)))
    else GameResult Loss.
Proof.
  intros Hstake. unfold coinflip. store_simpl.
  destruct (validate_bet_cases (account st author) mise)
    as [[? ->]|[(? & ? & ->)|[_ ->]]]; [lia | lia |].
  cbn [negb]. store_simpl. rewrite !coin_side.
  pose proof (Nat.mod_upper_bound k1 2). pose proof (Nat.mod_upper_bound k2 2).
  destruct (k1 mod 2)%nat as [|[|n1]]; [| |lia];
    (destruct (k2 mod 2)%nat as [|[|n2]]; [| |lia]); cbn; by destruct io.
Qed.

(** X16: [coinflip] tosses two coins, one for the player and one for the
    house, whatever the player wishes: with a valid stake the player wins
    exactly when the two tosses agree, the win credits twice the stake times
    the boost multiplier, which is more than the stake, and a loss keeps
    the stake; either way the game is recorded in the statistics. *)
Theorem coinflip_spec author mise k1 k2 now io st :
  0 < mise ≤ balance (account st author) →
  let u := account st author in
  let st' := (coinflip author mise k1 k2 now io st).1 in
  let answer := (coinflip author mise k1 k2 now io st).2 in
  let gain := mise * 2 * get_boost_multiplier now u in
  ((k1 mod 2 = k2 mod 2)%nat →
     answer = GameResult (Win gain) ∧ account st' author = settle mise (Win gain) u)
  ∧ ((k1 mod 2 ≠ k2 mod 2)%nat →
     answer = GameResult Loss ∧ account st' author = settle mise Loss u)
  ∧ mise < gain.
Proof.
  intros Hstake u st' answer gain.
  assert (run 0 io (Coinflip author mise k1 k2 now) st = Some (st', answer)) as Hrun.
  { simpl. subst st' answer. by destruct (coinflip _ _ _ _ _ _ _). }
  pose proof (coinflip_answer author mise k1 k2 now io st Hstake) as Hanswer.
  fold answer u gain in Hanswer.
  split; [|split].
  - intros Hsame. apply Nat.eqb_eq in Hsame. rewrite Hsame in Hanswer.
    split; [done|]. rewrite Hanswer in Hrun. by apply (played_account _ _ _ _ _ _ _ _ _ Hrun eq_refl).
  - intros Hdiff. apply Nat.eqb_neq in Hdiff. rewrite Hdiff in Hanswer.
    split; [done|]. rewrite Hanswer in Hrun. by apply (played_account _ _ _ _ _ _ _ _ _ Hrun eq_refl).
  - subst gain. pose proof (get_boost_multiplier_range now u). nia.
Qed.

Lemma coinflip_spec_witness :
  let st' := (coinflip 1 10 0 2 0 Written empty_state).1 in
  (coinflip 1 10 0 2 0 Written empty_state).2 = GameResult (Win 20)
  ∧ balance (account st' 1) = 510.
Proof.
  intros st'.
  destruct (coinflip_spec 1 10 0 2 0 Written empty_state) as (Hwin & _); [by vm_compute|].
  destruct Hwin as [Ha Hb]; [done|].
  split; [exact Ha|]. fold st' in Hb. by rewrite Hb.
Defined.

Lemma wheel_pocket k : Random.choice resultats ""%string k = pocket (k mod 37).
Proof.
  unfold Random.choice.
  change (length resultats) with 37%nat.
  pose proof (Nat.mod_upper_bound k 37).
  generalize dependent (k mod 37)%nat. intros n Hn.
  do 37 (destruct n as [|n]; [by vm_compute|]). lia.
Qed.

Lemma pocket_colour n :
  (n < 37)%nat →
  (pocket n = "rouge"%string ↔ (n < 18)%nat)
  ∧ (pocket n = "noir"%string ↔ (18 ≤ n < 36)%nat)
  ∧ (pocket n = "vert"%string ↔ (n = 36)%nat).
Proof.
  intros Hn. unfold pocket.
  destruct (n <? 18)%nat eqn:E1; [apply Nat.ltb_lt in E1|apply Nat.ltb_ge in E1];
    (destruct (n <? 36)%nat eqn:E2; [apply Nat.ltb_lt in E2|apply Nat.ltb_ge in E2]);
    repeat split; intros; first [done | lia].
Qed.

Lemma roulette_answer author mise couleur k now io st :
  0 < mise ≤ balance (account st author) →
  In (Py.lower couleur) ["rouge"; "noir"; "vert"]%string →
  (roulette author mise couleur k now io st).2
  = if String.eqb (Py.lower couleur) (pocket (k mod 37))
    then GameResult (Win (mise * colour_odds (Py.lower couleur)
                          * get_boost_multiplier now (account st author)))
    else GameResult Loss.
Proof.
  intros Hstake Hcolour. unfold roulette, colour_odds.
  apply mem_In in Hcolour. rewrite Hcolour. cbn [negb]. store_simpl.
  destruct (validate_bet_cases (account st author) mise)
    as [[? ->]|[(? & ? & ->)|[_ ->]]]; [lia | lia |].
  cbn [negb]. store_simpl. rewrite wheel_pocket.
  destruct (String.eqb _ (pocket _)); [|by destruct io].
  destruct (String.eqb _ "vert"); store_simpl; by destruct io.
Qed.

(** X17: [roulette] pays by the colour of the pocket: the wheel has 37
    pockets, 18 red, 18 black and one green; with a valid stake and one of
    the three colours, in any case of the letters, the player wins exactly
    when the ball lands on the chosen colour, a win credits 35 times the
    stake on green and twice the stake on red or black, times the boost
    multiplier, and a loss keeps the stake. *)
Theorem roulette_spec author mise couleur k now io st :
  0 < mise ≤ balance (account st author) →
  let colour := Py.lower couleur in
  In colour ["rouge"; "noir"; "vert"]%string →
  let u := account st author in
  let st' := (roulette author mise couleur k now io st).1 in
  let answer := (roulette author mise couleur k now io st).2 in
  let landed := pocket (k mod 37) in
  let gain := mise * (if String.eqb colour "vert" then 35 else 2)
              * get_boost_multiplier now u in
  (colour = landed →
     answer = GameResult (Win gain) ∧ account st' author = settle mise (Win gain) u)
  ∧ (colour ≠ landed →
     answer = GameResult Loss ∧ account st' author = settle mise Loss u)
  ∧ (landed = "rouge"%string ↔ (k mod 37 < 18)%nat)
  ∧ (landed = "noir"%string ↔ (18 ≤ k mod 37 < 36)%nat)
  ∧ (landed = "vert"%string ↔ (k mod 37 = 36)%nat).
Proof.
  intros Hstake colour Hcolour u st' answer landed gain.
  assert (run 0 io (Roulette author mise couleur k now) st = Some (st', answer)) as Hrun.
  { simpl. subst st' answer. by destruct (roulette _ _ _ _ _ _ _). }
  pose proof (roulette_answer author mise couleur k now io st Hstake Hcolour) as Hanswer.
  fold answer u colour landed in Hanswer. unfold colour_odds in Hanswer. fold gain in Hanswer.
  split; [|split].
  - intros Hsame. apply String.eqb_eq in Hsame. rewrite Hsame in Hanswer.
    split; [done|]. rewrite Hanswer in Hrun. by apply (played_account _ _ _ _ _ _ _ _ _ Hrun eq_refl).
  - intros Hdiff. apply String.eqb_neq in Hdiff. rewrite Hdiff in Hanswer.
    split; [done|]. rewrite Hanswer in Hrun. by apply (played_account _ _ _ _ _ _ _ _ _ Hrun eq_refl).
  - subst landed. apply pocket_colour, Nat.mod_upper_bound. lia.
Qed.

Lemma roulette_spec_witness :
  let st' := (roulette 1 10 "VERT" 36 0 Written empty_state).1 in
  (roulette 1 10 "VERT" 36 0 Written empty_state).2 = GameResult (Win 350)
  ∧ balance (account st' 1) = 840.
Proof.
  intros st'.
  destruct (roulette_spec 1 10 "VERT" 36 0 Written empty_state) as (Hwin & _);
    [by vm_compute|vm_compute; auto|].
  destruct Hwin as [Ha Hb]; [done|].
  split; [exact Ha|]. fold st' in Hb. by rewrite Hb.
Defined.

Lemma slot_multiplier_table r1 r2 r3 :
  let m := slot_multiplier r1 r2 r3 in
  (m = 0 ↔ r1 ≠ r2 ∧ r2 ≠ r3 ∧ r1 ≠ r3)
  ∧ (m = 2 ↔ ¬ (r1 = r2 ∧ r2 = r3) ∧ (r1 = r2 ∨ r2 = r3 ∨ r1 = r3))
  ∧ (r1 = r2 → r2 = r3 →
       m = match r1 with
           | Seven => 50 | Star => 25 | Gem => 15 | Cherries => 10
           | _ => 5
           end)
  ∧ (m = 0 ∨ 2 ≤ m ≤ 50).
Proof.
  cbn zeta.
  split; [|split; [|split]].
  - destruct r1, r2, r3; apply (bool_decide_unpack _); by vm_compute.
  - destruct r1, r2, r3; apply (bool_decide_unpack _); by vm_compute.
  - intros <- <-. by destruct r1.
  - destruct r1, r2, r3; apply (bool_decide_unpack _); by vm_compute.
Qed.

Lemma slot_answer author mise k1 k2 k3 now io st :
  0 < mise ≤ balance (account st author) →
  let m := slot_multiplier (Random.choices symbols weights Apple k1)
             (Random.choices symbols weights Apple k2)
             (Random.choices symbols weights Apple k3) in
  (slot author mise k1 k2 k3 now io st).2
  = if 0 <? m
    then GameResult (Win (mise * m * get_boost_multiplier now (account st author)))
    else GameResult Loss.
Proof.
  intros Hstake m. unfold slot. store_simpl.
  destruct (validate_bet_cases (account st author) mise)
    as [[? ->]|[(? & ? & ->)|[_ ->]]]; [lia | lia |].
  cbn [negb]. store_simpl. fold m.
  destruct (0 <? m); store_simpl; by destruct io.
Qed.

(** X18: [slot] pays by the three reels alone: with a valid stake, three
    equal symbols pay 50 (sevens), 25 (stars), 15 (gems), 10 (cherries) or
    5 (any fruit) times the stake, exactly two equal symbols, adjacent or
    not, pay twice the stake, and three different symbols lose it; every
    payout is multiplied by the boost multiplier, so that a win always
    credits more than the stake. *)
Theorem slot_spec author mise k1 k2 k3 now io st :
  0 < mise ≤ balance (account st author) →
  let u := account st author in
  let st' := (slot author mise k1 k2 k3 now io st).1 in
  let answer := (slot author mise k1 k2 k3 now io st).2 in
  let reel1 := Random.choices symbols weights Apple k1 in
  let reel2 := Random.choices symbols weights Apple k2 in
  let reel3 := Random.choices symbols weights Apple k3 in
  let m := slot_multiplier reel1 reel2 reel3 in
  let gain := mise * m * get_boost_multiplier now u in
  (m ≠ 0 →
     answer = GameResult (Win gain) ∧ account st' author = settle mise (Win gain) u
     ∧ mise < gain)
  ∧ (m = 0 →
     answer = GameResult Loss ∧ account st' author = settle mise Loss u)
  ∧ (m = 0 ↔ reel1 ≠ reel2 ∧ reel2 ≠ reel3 ∧ reel1 ≠ reel3)
  ∧ (m = 2 ↔ ¬ (reel1 = reel2 ∧ reel2 = reel3)
             ∧ (reel1 = reel2 ∨ reel2 = reel3 ∨ reel1 = reel3))
  ∧ (reel1 = reel2 → reel2 = reel3 →
       m = match reel1 with
           | Seven => 50 | Star => 25 | Gem => 15 | Cherries => 10
           | _ => 5
           end).
Proof.
  intros Hstake u st' answer reel1 reel2 reel3 m gain.
  assert (run 0 io (Slot author mise k1 k2 k3 now) st = Some (st', answer)) as Hrun.
  { simpl. subst st' answer. by destruct (slot _ _ _ _ _ _ _ _). }
  pose proof (slot_answer author mise k1 k2 k3 now io st Hstake) as Hanswer.
  cbn zeta in Hanswer. fold reel1 reel2 reel3 in Hanswer. fold m answer u in Hanswer.
  fold gain in Hanswer.
  destruct (slot_multiplier_table reel1 reel2 reel3) as (Hzero & Htwo & Hthree & Hrange).
  fold m in Hzero, Htwo, Hthree, Hrange.
  split; [|split; [|done]].
  - intros Hm. assert (0 < m) as Hpos by lia. apply Z.ltb_lt in Hpos as Hpos'.
    rewrite Hpos' in Hanswer. split; [done|]. rewrite Hanswer in Hrun.
    split; [by apply (played_account _ _ _ _ _ _ _ _ _ Hrun eq_refl)|].
    subst gain. pose proof (get_boost_multiplier_range now u) as Hb.
    assert (2 ≤ m) as Hm2 by lia.
    assert (mise * 2 ≤ mise * m) as H1 by (apply Z.mul_le_mono_nonneg_l; lia).
    assert (mise * m * 1 ≤ mise * m * get_boost_multiplier now u) as H2
      by (apply Z.mul_le_mono_nonneg_l; lia).
    lia.
  - intros Hm. rewrite Hm in Hanswer. cbn in Hanswer. split; [done|].
    rewrite Hanswer in Hrun. by apply (played_account _ _ _ _ _ _ _ _ _ Hrun eq_refl).
Qed.

Lemma slot_spec_witness :
  let st' := (slot 1 10 99 99 99 0 Written empty_state).1 in
  (slot 1 10 99 99 99 0 Written empty_state).2 = GameResult (Win 500)
  ∧ balance (account st' 1) = 990.
Proof.
  intros st'.
  destruct (slot_spec 1 10 99 99 99 0 Written empty_state) as (Hwin & _); [by vm_compute|].
  destruct Hwin as (Ha & Hb & _); [by vm_compute|].
  split; [exact Ha|]. fold st' in Hb. by rewrite Hb.
Defined.

(** *** Blackjack *)

Lemma reduce_aces_upper aces total :
  reduce_aces aces total ≤ 21 ∨ reduce_aces aces total = total - 10 * Z.of_nat aces.
Proof.
  revert total. induction aces as [|aces IH]; intros total; simpl; [right; lia|].
  destruct (21 <? total) eqn:E; [|apply Z.ltb_ge in E; by left].
  destruct (IH (total - 10)) as [?| ->]; [by left|right; lia].
Qed.

Lemma sum_snoc l c : Py.sum (l ++ [c]) = Py.sum l + c.
Proof. induction l as [|x l IH]; simpl in *; lia. Qed.

Lemma count_snoc v l c :
  Py.count v (l ++ [c]) = (Py.count v l + (if (c =? v)%Z then 1 else 0))%nat.
Proof.
  unfold Py.count. rewrite List.filter_app, length_app. simpl.
  by destruct (c =? v).
Qed.

(** A card adds at most 10 to a hand, unless the hand stays within 21. *)
Lemma hand_value_snoc cards c :
  1 ≤ c ≤ 11 →
  get_hand_value (cards ++ [c]) ≤ Z.max 21 (get_hand_value cards + 10).
Proof.
  intros Hc. unfold get_hand_value. rewrite sum_snoc, count_snoc.
  pose proof (reduce_aces_lower (Py.count 11 cards) (Py.sum cards)) as Hlow.
  destruct (reduce_aces_upper (Py.count 11 cards + (if c =? 11 then 1 else 0))
              (Py.sum cards + c)) as [?| ->]; [lia|].
  destruct (c =? 11) eqn:E; [apply Z.eqb_eq in E|apply Z.eqb_neq in E]; lia.
Qed.

Lemma dealer_hits_bound fuel draw i cards final :
  get_hand_value cards ≤ 26 →
  dealer_hits fuel draw i cards = Some final →
  get_hand_value final ≤ 26.
Proof.
  revert i cards. induction fuel as [|fuel IH]; intros i cards Hle; simpl.
  - destruct (get_hand_value cards <? 17); [done|]. by intros [= <-].
  - destruct (get_hand_value cards <? 17) eqn:E; [|by intros [= <-]].
    apply Z.ltb_lt in E. apply IH.
    pose proof (hand_value_snoc cards (get_card_value (draw i))
                  (get_card_value_range _)). lia.
Qed.

Lemma two_cards_value a b :
  1 ≤ a ≤ 11 → 1 ≤ b ≤ 11 → 2 ≤ get_hand_value [a; b] ≤ 21.
Proof.
  intros Ha Hb. unfold get_hand_value. rewrite !count_cons. cbn [Py.sum fold_right Py.count
    List.filter length].
  destruct (a =? 11) eqn:Ea; [apply Z.eqb_eq in Ea|apply Z.eqb_neq in Ea];
    (destruct (b =? 11) eqn:Eb; [apply Z.eqb_eq in Eb|apply Z.eqb_neq in Eb]);
    subst; simpl; repeat case_match; lia.
Qed.

Lemma blackjack_answer fuel author mise draw now io st dealer_cards :
  0 < mise ≤ balance (account st author) →
  dealer_hits fuel draw 4 [get_card_value (draw 2%nat); get_card_value (draw 3%nat)]
  = Some dealer_cards →
  let player := get_hand_value [get_card_value (draw 0%nat); get_card_value (draw 1%nat)] in
  let dealer := get_hand_value dealer_cards in
  let gain := mise * 2 * get_boost_multiplier now (account st author) in
  ∃ st',
    blackjack fuel author mise draw now io st
    = Some (st', if 21 <? dealer then GameResult (Win gain)
                 else if dealer <? player then GameResult (Win gain)
                 else if player =? dealer then GameResult Push
                 else GameResult Loss).
Proof.
  intros Hstake Hdealer player dealer gain. unfold blackjack. store_simpl.
  destruct (validate_bet_cases (account st author) mise)
    as [[? ->]|[(? & ? & ->)|[_ ->]]]; [lia | lia |].
  cbn [negb]. store_simpl. rewrite Hdealer. fold player dealer.
  pose proof (two_cards_value (get_card_value (draw 0%nat)) (get_card_value (draw 1%nat))
                (get_card_value_range _) (get_card_value_range _)) as Hp.
  fold player in Hp.
  destruct (21 <? player) eqn:E; [apply Z.ltb_lt in E; lia|].
  destruct (21 <? dealer); [store_simpl; eexists; by destruct io|].
  destruct (dealer <? player); [store_simpl; eexists; by destruct io|].
  destruct (player =? dealer); store_simpl; eexists; by destruct io.
Qed.

(** X19: [blackjack] is decided by the two totals: with a valid stake the
    game always ends; the player's two cards total between 2 and 21, so
    the player never busts, and the dealer stops with a total between 17
    and 26; the player wins twice the stake times the boost multiplier
    when the dealer is over 21 or below the player, gets the stake back on
    equal totals and loses it otherwise. *)
Theorem blackjack_spec n author mise draw now io st :
  0 < mise ≤ balance (account st author) →
  let u := account st author in
  let player := get_hand_value [get_card_value (draw 0%nat); get_card_value (draw 1%nat)] in
  let gain := mise * 2 * get_boost_multiplier now u in
  ∃ dealer_cards st' o,
    dealer_hits (15 + n) draw 4 [get_card_value (draw 2%nat); get_card_value (draw 3%nat)]
    = Some dealer_cards
    ∧ blackjack (15 + n) author mise draw now io st = Some (st', GameResult o)
    ∧ account st' author = settle mise o u
    ∧ let dealer := get_hand_value dealer_cards in
      2 ≤ player ≤ 21
      ∧ 17 ≤ dealer ≤ 26
      ∧ (21 < dealer ∨ dealer < player → o = Win gain)
      ∧ (dealer = player → o = Push)
      ∧ (player < dealer ≤ 21 → o = Loss).
Proof.
  intros Hstake u player gain.
  destruct (dealer_hits_total (15 + n) draw 4
              [get_card_value (draw 2%nat); get_card_value (draw 3%nat)])
    as (dealer_cards & Hdealer & Hge & _).
  { repeat constructor; apply get_card_value_range. }
  { simpl. lia. }
  pose proof (two_cards_value (get_card_value (draw 0%nat)) (get_card_value (draw 1%nat))
                (get_card_value_range _) (get_card_value_range _)) as Hp.
  pose proof (two_cards_value (get_card_value (draw 2%nat)) (get_card_value (draw 3%nat))
                (get_card_value_range _) (get_card_value_range _)) as Hd.
  assert (get_hand_value dealer_cards ≤ 26) as Hle.
  { eapply dealer_hits_bound; [|exact Hdealer]. lia. }
  destruct (blackjack_answer (15 + n) author mise draw now io st dealer_cards Hstake Hdealer)
    as [st' Hrun].
  fold u player gain in Hrun. fold player in Hp.
  set (dealer := get_hand_value dealer_cards) in *.
  assert (∃ o, (if 21 <? dealer then GameResult (Win gain)
                else if dealer <? player then GameResult (Win gain)
                else if player =? dealer then GameResult Push
                else GameResult Loss) = GameResult o
               ∧ (21 < dealer ∨ dealer < player → o = Win gain)
               ∧ (dealer = player → o = Push)
               ∧ (player < dealer ≤ 21 → o = Loss)) as (o & Ho & Hcases).
  { destruct (21 <? dealer) eqn:E1; [apply Z.ltb_lt in E1|apply Z.ltb_ge in E1].
    { exists (Win gain). repeat split; intros; first [done | lia]. }
    destruct (dealer <? player) eqn:E2; [apply Z.ltb_lt in E2|apply Z.ltb_ge in E2].
    { exists (Win gain). repeat split; intros; first [done | lia]. }
    destruct (player =? dealer) eqn:E3; [apply Z.eqb_eq in E3|apply Z.eqb_neq in E3].
    { exists Push. repeat split; intros; first [done | lia]. }
    exists Loss. repeat split; intros; first [done | lia]. }
  rewrite Ho in Hrun.
  exists dealer_cards, st', o. split; [done|]. split; [done|].
  split; [by apply (played_account (15 + n) io (Blackjack author mise draw now)
                      G_blackjack author mise st st' o Hrun)|].
  cbn zeta. split; [done|]. split; [lia|]. done.
Qed.

Lemma blackjack_spec_witness :
  ∃ dealer_cards st' o,
    dealer_hits 15 (λ _, 9%nat) 4 [get_card_value 9; get_card_value 9] = Some dealer_cards
    ∧ blackjack 15 1 10 (λ _, 9%nat) 0 Written empty_state = Some (st', GameResult o)
    ∧ o = Push.
Proof.
  destruct (blackjack_spec 0 1 10 (λ _, 9%nat) 0 Written empty_state)
    as (dealer_cards & st' & o & Hd & Hrun & _ & _ & _ & _ & Hpush & _); [by vm_compute|].
  exists dealer_cards, st', o. split; [exact Hd|]. split; [exact Hrun|].
  apply Hpush. vm_compute in Hd. injection Hd as <-. by vm_compute.
Defined.

(** ** The leaderboard *)

Lemma insert_desc_perm x l : insert_desc x l ≡ₚ x :: l.
Proof.
  induction l as [|y l IH]; simpl; [done|].
  destruct (balance x.2 <? balance y.2); [|done].
  rewrite IH. apply Permutation_swap.
Qed.

Lemma sorted_desc_perm l : sorted_desc l ≡ₚ l.
Proof.
  induction l as [|x l IH]; simpl; [done|].
  by rewrite insert_desc_perm, IH.
Qed.

Lemma insert_desc_sorted x l :
  StronglySorted before l → StronglySorted before (insert_desc x l).
Proof.
  induction 1 as [|y l Hl IH Hy]; simpl; [repeat constructor|].
  destruct (balance x.2 <? balance y.2) eqn:E;
    [apply Z.ltb_lt in E|apply Z.ltb_ge in E].
  - constructor; [done|]. rewrite insert_desc_perm. constructor; [|done].
    unfold before. lia.
  - constructor; [by constructor|]. constructor; [done|].
    eapply Forall_impl; [exact Hy|]. unfold before. intros z Hz. simpl in *. lia.
Qed.

Lemma sorted_desc_sorted l : StronglySorted before (sorted_desc l).
Proof.
  induction l as [|x l IH]; simpl; [constructor|]. by apply insert_desc_sorted.
Qed.

(** X20: [classement] shows the ten richest players: the list has at most
    ten entries, all taken from the dictionary, none of them the owner and
    none with a balance of 0 or less; it is in order of decreasing balance;
    and a player left out, though neither the owner nor without coins, has
    at most the balance of every player shown, the list being full. *)
Theorem classement_spec owner_id entries :
  let top := classement owner_id entries in
  (length top ≤ 10)%nat
  ∧ (∀ e, e ∈ top → e ∈ entries ∧ ranked owner_id e)
  ∧ StronglySorted before top
  ∧ (∀ e, e ∈ entries → ranked owner_id e → e ∉ top →
       length top = 10%nat ∧ ∀ e', e' ∈ top → before e' e).
Proof.
  intros top. subst top. unfold classement. cbn zeta.
  set (eligible := λ e : Z * user, negb (e.1 =? owner_id) && (0 <? balance e.2)).
  set (l := sorted_desc (List.filter eligible entries)).
  assert (∀ e, e ∈ l ↔ e ∈ entries ∧ ranked owner_id e) as Hl.
  { intros e. subst l. rewrite sorted_desc_perm, !list_elem_of_In, filter_In.
    subst eligible. cbn beta. unfold ranked.
    rewrite andb_true_iff, negb_true_iff, Z.eqb_neq, Z.ltb_lt. tauto. }
  assert (StronglySorted before (take 10 l ++ drop 10 l)) as Hsorted.
  { rewrite take_drop. apply sorted_desc_sorted. }
  split; [rewrite length_take; lia|]. split; [|split].
  - intros e He. apply Hl. rewrite <- (take_drop 10 l). apply elem_of_app. by left.
  - by apply StronglySorted_app_1_l in Hsorted.
  - intros e He Hr Hout.
    assert (e ∈ drop 10 l) as Hdrop.
    { assert (e ∈ take 10 l ++ drop 10 l) as [?|?]%elem_of_app; [|done|done].
      rewrite take_drop. by apply Hl. }
    split.
    + rewrite length_take. destruct (decide (10 ≤ length l)%nat); [lia|].
      rewrite drop_ge in Hdrop by lia. by apply elem_of_nil in Hdrop.
    + intros e' He'. by apply (StronglySorted_app_1_elem_of _ _ _ _ _ Hsorted).
Qed.

(** ** Looking an account up *)

(** X21: [get_user_data] hands out the key [str(user_id)] and leaves under
    it the stored account, or the default one (500 coins, nothing else)
    when none was stored: an existing account is never reset, a missing
    one adds one player, no other entry and not the file is touched, a
    second lookup changes nothing, and two different users never share an
    account. *)
Theorem get_user_data_spec user_id st :
  let ref := (get_user_data user_id st).1 in
  let st' := (get_user_data user_id st).2 in
  ref = pretty user_id
  ∧ users st' !! ref = Some (account st user_id)
  ∧ deref st' ref = account st user_id
  ∧ (∀ u, users st !! ref = Some u → st' = st ∧ account st user_id = u)
  ∧ (users st !! ref = None →
       account st user_id = new_user ∧ size (users st') = S (size (users st)))
  ∧ (∀ k, k ≠ ref → users st' !! k = users st !! k)
  ∧ disk st' = disk st
  ∧ get_user_data user_id st' = (ref, st')
  ∧ (∀ other, other ≠ user_id → (get_user_data other st).1 ≠ ref).
Proof.
  intros ref st'. subst ref st'. rewrite get_user_data_ensure. cbn [fst snd].
  split; [done|]. split; [apply lookup_ensure|].
  split; [apply deref_lookup, lookup_ensure|].
  split; [|split; [|split; [|split; [|split]]]].
  - intros u Hu. split; [by apply (ensure_present _ _ u)|by apply account_stored].
  - intros Hnone. split; [unfold account; by rewrite Hnone|].
    rewrite ensure_insert. cbn [users]. by apply map_size_insert_None.
  - intros k Hk. by apply lookup_ensure_ne.
  - apply ensure_disk.
  - rewrite get_user_data_ensure. f_equal. apply ensure_same, present_ensure.
  - intros other Hne. rewrite get_user_data_ensure. cbn [fst]. by apply pretty_ne.
Qed.

(** ** The profile *)

(** X22: [profil] shows the account as it is stored and never writes the
    file: it looks up the member named, or the caller when none is, shows
    the special title exactly for the owner, the balance, items and
    counters of the account and whether a boost is running; the number it
    shows as today's steals is the length of the stored list, which is not
    pruned here, so it is at least the number of steals of the day and
    equals it only when no older entry is left. *)
Theorem profil_spec owner_id author target now st :
  let shown := from_option id author target in
  let u := account st shown in
  let st' := (profil owner_id author target now st).1 in
  let p := (profil owner_id author target now st).2 in
  st' = ensure shown st
  ∧ disk st' = disk st
  ∧ (∀ a, account st' a = account st a)
  ∧ (shown_creator p = true ↔ shown = owner_id)
  ∧ shown_balance p = balance u ∧ shown_items p = items u
  ∧ shown_games p = games_played u
  ∧ shown_winnings p = total_winnings u ∧ shown_losses p = total_losses u
  ∧ (shown_boost p = true ↔ ∃ t, boost_end u = Some (Iso t) ∧ now < t)
  ∧ shown_steals p = length (steals u)
  ∧ (length (steals_today now u) ≤ shown_steals p)%nat
  ∧ (shown_steals p = length (steals_today now u)
     ↔ Forall (λ s, s = date now) (steals u)).
Proof.
  intros shown u st' p. subst st' p. unfold profil.
  replace (match target with Some m => id m | None => author end) with shown
    by (by destruct target).
  rewrite get_user_data_ensure. cbn [fst snd shown_creator shown_balance shown_items
    shown_boost shown_steals shown_games shown_winnings shown_losses].
  rewrite (deref_lookup _ _ _ (lookup_ensure shown st)). fold u.
  split; [done|]. split; [apply ensure_disk|].
  split.
  { intros a. destruct (decide (a = shown)) as [->|Hne]; [apply account_ensure|].
    unfold account. rewrite lookup_ensure_ne; [done|by apply pretty_ne]. }
  split; [apply Z.eqb_eq|].
  do 5 (split; [done|]).
  split; [|split; [done|]].
  { unfold has_boost. destruct (boost_end u) as [[t|text]|]; simpl.
    - rewrite Z.ltb_lt. split; [eauto|]. by intros (t' & [= <-] & ?).
    - split; [by destruct (negb _)|]. by intros (t' & [=] & ?).
    - split; [done|]. by intros (t' & [=] & ?). }
  unfold steals_today. generalize (steals u). intros l.
  pose proof (List.filter_length_le (λ s, s =? date now) l) as Hle.
  split; [done|].
  induction l as [|s l IH]; simpl; [split; [constructor|done]|].
  pose proof (List.filter_length_le (λ s, s =? date now) l) as Hle'.
  destruct (s =? date now) eqn:E; [apply Z.eqb_eq in E|apply Z.eqb_neq in E]; simpl in *.
  - split.
    + intros [= Hlen]. constructor; [done|]. apply IH; [lia|done].
    + intros [_ Hall]%Forall_cons. f_equal. apply IH; [lia|done].
  - split; [lia|]. by intros [? _]%Forall_cons.
Qed.

(** ** Boosts run out *)

(** X23: waiting never brings a boost back: the boost multiplier of an
    account can only fall as time passes, and once the end of the boost is
    reached it is 1 for good, whatever items the account holds. *)
Theorem boost_only_runs_out t t' u :
  t ≤ t' →
  get_boost_multiplier t' u ≤ get_boost_multiplier t u
  ∧ (has_boost t u = false → get_boost_multiplier t' u = 1)
  ∧ (∀ stop, boost_end u = Some (Iso stop) → stop ≤ t → get_boost_multiplier t' u = 1).
Proof.
  intros Hle.
  assert (has_boost t u = false → has_boost t' u = false) as Hmono.
  { unfold has_boost. destruct (boost_end u) as [[stop|text]|]; simpl; try done.
    rewrite !Z.ltb_ge. lia. }
  split; [|split].
  - unfold get_boost_multiplier.
    destruct (has_boost t u) eqn:E; [|by rewrite Hmono].
    cbn [negb]. destruct (has_boost t' u); cbn [negb]; repeat case_match; lia.
  - intros Hoff. unfold get_boost_multiplier. by rewrite (Hmono Hoff).
  - intros stop Hstop Hpast. unfold get_boost_multiplier, has_boost. rewrite Hstop. simpl.
    destruct (t' <? stop) eqn:E; [apply Z.ltb_lt in E; lia|done].
Qed.

Lemma boost_only_runs_out_witness :
  let u := mkUser 0 (Unparsable "") [] ["boost_x3"%string] (Some (Iso 10)) 0 0 0 in
  get_boost_multiplier 9 u = 3 ∧ get_boost_multiplier 10 u = 1
  ∧ get_boost_multiplier 11 u ≤ get_boost_multiplier 9 u.
Proof.
  intros u. split; [by vm_compute|]. split; [by vm_compute|].
  apply (boost_only_runs_out 9 11 u). lia.
Defined.

(** ** The shop window *)

Lemma listed_item name prix :
  In (name, prix) shop_items →
  Py.replace " " "_" (Py.lower name) = name ∧ prix_of name = Some prix.
Proof.
  intros Hin. simpl in Hin.
  repeat (destruct Hin as [[= <- <-]|Hin]; [by vm_compute|]). done.
Qed.

(** X24: every item of the shop can be bought under the name the shop shows
    for it: for each entry of the catalogue, whoever holds its price and
    does not own the item yet gets it for exactly the listed price, while
    a buyer short of the price is told that price and a buyer who owns the
    item is told so. *)
Theorem listed_items_can_be_bought author name prix now io st :
  In (name, prix) shop_items →
  let u := account st author in
  let answer := (acheter author name now io st).2 in
  (prix ≤ balance u → ¬ In name (items u) → answer = Bought name prix)
  ∧ (balance u < prix → answer = TooExpensive prix)
  ∧ (prix ≤ balance u → In name (items u) → answer = AlreadyOwned).
Proof.
  intros Hin u answer. destruct (listed_item _ _ Hin) as [Hname Hprix].
  subst answer. unfold acheter. store_simpl. rewrite Hname, Hprix. fold u.
  destruct (balance u <? prix) eqn:E; [apply Z.ltb_lt in E|apply Z.ltb_ge in E].
  { split; [lia|]. split; [done|lia]. }
  destruct (Py.mem name (items u)) eqn:Em;
    [apply mem_In in Em|apply mem_not_In in Em].
  - split; [done|]. split; [lia|done].
  - split; [|split; [lia|done]]. intros _ _. by destruct (Py.contains _ _).
Qed.

Lemma listed_items_can_be_bought_witness :
  (acheter 1 "ticket_loterie" 0 Written empty_state).2 = Bought "ticket_loterie" 250.
Proof.
  destruct (listed_items_can_be_bought 1 "ticket_loterie" 250 0 Written empty_state)
    as (Hbuy & _); [simpl; tauto|].
  apply Hbuy; [by vm_compute|]. by vm_compute.
Defined.

(** * Rejections *)

(** ** The state a rejection leaves *)

Lemma rejected_exact fuel io c st st' r :
  run fuel io c st = Some (st', r) → rejection r = true →
  st' = left_by_rejection c r st.
Proof.
  intros Hrun.
  destruct (wager_of c) as [[[g author] mise]|] eqn:Hw.
  { apply (wager_cases _ _ _ _ _ _ _ _ _ Hw) in Hrun.
    inversion Hrun; subst; try done; intros _;
      destruct c; try done; by injection Hw as <- <- <-. }
  destruct c; try done; simpl in Hrun; injection Hrun as Hrun; revert Hrun.
  - (* daily *)
    unfold daily. rewrite get_user_data_ensure.
    repeat case_match; intros [= <- <-]; try done.
  - (* acheter *)
    unfold acheter. rewrite get_user_data_ensure.
    repeat case_match; intros [= <- <-]; try done.
  - (* steal *)
    unfold steal.
    destruct (bot cible || (id cible =? author)) eqn:E.
    + by intros [= <- <-] _.
    + rewrite !get_user_data_ensure.
      repeat case_match; intros [= <- <-]; try done.
  - (* give *)
    unfold give. destruct owner; simpl.
    + rewrite get_user_data_ensure. by intros [= <- <-].
    + by intros [= <- <-] _.
  - (* remove *)
    unfold remove. destruct owner; simpl.
    + rewrite get_user_data_ensure. by intros [= <- <-].
    + by intros [= <- <-] _.
  - (* don *)
    unfold don. rewrite !get_user_data_ensure.
    repeat case_match; intros [= <- <-]; try done.
Qed.

(** The rejections of [steal]: the bad target, or the two that follow the
    pruning. *)
Lemma steal_rejections fuel io author cible now_reset now x k st st' r :
  run fuel io (Steal author cible now_reset now x k) st = Some (st', r) →
  rejection r = true →
  r = CannotSteal ∧ (bot cible = true ∨ id cible = author)
  ∨ ((∃ m, r = StealLimit m) ∨ r = VictimTooPoor)
    ∧ bot cible = false ∧ id cible ≠ author.
Proof.
  simpl. intros [= Hrun]. revert Hrun. unfold steal.
  destruct (bot cible) eqn:Eb; [intros [= <- <-] _; left; auto|].
  destruct (id cible =? author) eqn:E;
    [apply Z.eqb_eq in E; intros [= <- <-] _; left; auto|apply Z.eqb_neq in E].
  cbn [orb]. rewrite !get_user_data_ensure.
  repeat case_match; intros [= <- <-]; try done; intros _; right; eauto.
Qed.

(** A rejection leaves an account as it was, but for the pruning of the
    steals of the caller of [steal]. *)
Lemma effect_rejected fuel io c st st' r a u :
  run fuel io c st = Some (st', r) → rejection r = true →
  effect c r a u = u
  ∨ ∃ cible now_reset now x k,
      c = Steal a cible now_reset now x k ∧ timed r = true
      ∧ effect c r a u = reset_steals_if_needed now_reset u.
Proof.
  intros Hrun Hrej.
  destruct c; try (left; by destruct r).
  destruct (steal_rejections _ _ _ _ _ _ _ _ _ _ _ Hrun Hrej)
    as [[-> _]|([[m ->]| ->] & _)]; [by left| |];
    (destruct (a =? author) eqn:E;
     [ apply Z.eqb_eq in E as ->; right; exists cible, now_reset, now, r0, k;
       cbn [effect]; by rewrite Z.eqb_refl
     | left; cbn [effect]; by rewrite E ]).
Qed.

Lemma reset_new_user now : reset_steals_if_needed now new_user = new_user.
Proof. done. Qed.

Lemma same_but_steals_reset now u : same_but_steals u (reset_steals_if_needed now u).
Proof. by repeat split. Qed.

(** ** Making a rejected request again *)

Lemma reset_same_day now now' u :
  date now' = date now →
  reset_steals_if_needed now' (reset_steals_if_needed now u)
  = reset_steals_if_needed now u.
Proof.
  intros Hday. unfold reset_steals_if_needed at 1. cbn zeta. rewrite Hday.
  apply reset_steals_twice.
Qed.

Lemma update_reset_same_day k now now' st :
  date now' = date now →
  update k (reset_steals_if_needed now') (update k (reset_steals_if_needed now) st)
  = update k (reset_steals_if_needed now) st.
Proof.
  intros Hday. unfold update, set_users. simpl. f_equal.
  rewrite alter_alter_eq. apply alter_ext. intros u _. simpl.
  by apply reset_same_day.
Qed.

(** A wager with a stake that is not positive or exceeds the balance. *)
Lemma wager_rejected fuel io c g author mise st :
  wager_of c = Some (g, author, mise) →
  colour_ok c →
  (mise ≤ 0 → run fuel io c st = Some (ensure author st, BetNotPositive))
  ∧ (0 < mise → balance (account st author) < mise →
       run fuel io c st = Some (ensure author st, BetTooHigh)).
Proof.
  intros Hw Hok.
  assert (∀ r, (validate_bet (account st author) mise) = (false, r) →
               run fuel io c st = Some (ensure author st, r)) as Hrun.
  { intros r Hv. destruct c; try done; injection Hw as <- <- <-; simpl;
      unfold coinflip, dice, roulette, blackjack, slot;
      try (unfold colour_ok in Hok; rewrite Hok; cbn [negb]);
      rewrite get_user_data_ensure; cbn zeta;
      rewrite (deref_lookup _ _ _ (lookup_ensure _ _)), Hv; done. }
  split.
  - intros Hm. apply Hrun. unfold validate_bet.
    by destruct (mise <=? 0) eqn:E; [|apply Z.leb_gt in E; lia].
  - intros Hm Hb. apply Hrun. unfold validate_bet.
    destruct (mise <=? 0) eqn:E; [apply Z.leb_le in E; lia|].
    by destruct (_ <? mise) eqn:E'; [|apply Z.ltb_ge in E'; lia].
Qed.

Lemma ensure_twice a st : ensure a (ensure a st) = ensure a st.
Proof. apply ensure_same, present_ensure. Qed.

(** The rejected request made again on the state its rejection left is
    rejected in the same way and changes nothing more, when the clock reads
    the same or the rejection does not depend on it. *)
Lemma rejected_again fuel io c st st' r fuel' io' c' :
  run fuel io c st = Some (st', r) → rejection r = true →
  same_request c c' →
  same_time c c' ∨ timed r = false →
  run fuel' io' c' st' = Some (st', r).
Proof.
  intros Hrun Hrej Hreq Htime.
  destruct (wager_of c) as [[[g author] mise]|] eqn:Hw.
  { assert (wager_of c' = Some (g, author, mise)) as Hw'.
    { destruct c, c'; try done; simpl in Hreq, Hw |- *; intuition congruence. }
    assert (colour_ok c → colour_ok c') as Hok'.
    { destruct c, c'; try done; simpl in Hreq |- *. by destruct Hreq as (_ & _ & ->). }
    pose proof (wager_cases _ _ _ _ _ _ _ _ _ Hw Hrun) as Hcases.
    assert (colour_ok c
            ∨ ∃ a m couleur k now,
                c = Roulette a m couleur k now
                ∧ Py.mem (Py.lower couleur) ["rouge"; "noir"; "vert"]%string = false
                ∧ r = BadColour ∧ st' = st)
      as [Hok|(a & m & couleur & k & now & -> & Hbad & -> & ->)].
    { destruct c; try (by left). unfold colour_ok.
      destruct (Py.mem (Py.lower couleur) _) eqn:E; [by left|right].
      rewrite (bad_colour_rejected _ _ _ _ _ _ _ _ E) in Hrun. simplify_eq.
      by eexists _, _, _, _, _. }
    - destruct (wager_rejected fuel' io' c' g author mise (ensure author st) Hw' (Hok' Hok))
        as [Hneg Hhigh].
      rewrite ensure_twice in Hneg, Hhigh. rewrite account_ensure in Hhigh.
      inversion Hcases; subst; try done; auto.
      unfold colour_ok in Hok. congruence.
    - destruct c'; try done. simpl in Hreq. destruct Hreq as (-> & -> & ->).
      by apply bad_colour_rejected. }
  destruct c, c'; try done; simpl in Hreq, Htime, Hrun |- *;
    injection Hrun as Hrun; f_equal.
  - (* daily *)
    subst author0.
    assert (now0 = now) as ->.
    { destruct Htime as [?|Ht]; [done|].
      revert Hrun. unfold daily. rewrite get_user_data_ensure. cbn zeta.
      repeat case_match; intros [= <- <-]; done. }
    unfold daily in Hrun. rewrite get_user_data_ensure in Hrun. cbn zeta in Hrun.
    repeat case_match; simplify_eq; try done.
    unfold daily. rewrite get_user_data_ensure, ensure_same by auto with present.
    cbn zeta. repeat case_match; congruence.
  - (* acheter *)
    destruct Hreq as [-> ->].
    unfold acheter in Hrun. rewrite get_user_data_ensure in Hrun. cbn zeta in Hrun.
    repeat case_match; simplify_eq; try done;
      unfold acheter; rewrite get_user_data_ensure, ensure_same by auto with present;
      cbn zeta; repeat case_match; congruence.
  - (* steal *)
    destruct Hreq as [-> ->].
    unfold steal in Hrun.
    destruct (bot cible || (id cible =? author)) eqn:Etarget;
      [simplify_eq; unfold steal; by rewrite Etarget|].
    rewrite !get_user_data_ensure in Hrun. cbn zeta in Hrun.
    assert (date now_reset0 = date now_reset) as Hday.
    { destruct Htime as [?|Ht]; [done|].
      revert Hrun. repeat case_match; intros [= <- <-]; done. }
    repeat case_match; simplify_eq; try done;
      unfold steal; rewrite Etarget, !get_user_data_ensure; cbn zeta;
      rewrite !ensure_same by auto with present;
      rewrite update_reset_same_day by done; repeat case_match; congruence.
  - (* give *)
    destruct Hreq as (-> & -> & ->).
    unfold give in Hrun. destruct owner; simpl in Hrun; [|by simplify_eq].
    rewrite get_user_data_ensure in Hrun. by simplify_eq.
  - (* remove *)
    destruct Hreq as (-> & -> & ->).
    unfold remove in Hrun. destruct owner; simpl in Hrun; [|by simplify_eq].
    rewrite get_user_data_ensure in Hrun. by simplify_eq.
  - (* don *)
    destruct Hreq as (-> & -> & ->).
    unfold don in Hrun. rewrite !get_user_data_ensure in Hrun. cbn zeta in Hrun.
    repeat case_match; simplify_eq; try done;
      unfold don; rewrite !get_user_data_ensure; cbn zeta;
      rewrite !ensure_same by auto with present;
      repeat case_match; congruence.
Qed.

(** ** What a rejection leaves behind *)

Lemma same_request_refl c : same_request c c.
Proof. by destruct c. Qed.

Lemma same_time_refl c : same_time c c.
Proof. by destruct c. Qed.

(** C4, as the code has it: a rejection never writes the file and never
    changes the balance, items, timestamps or counters of a stored account.
    The bad-colour, bad-target and not-owner rejections change nothing at
    all.  Every other rejection leaves in the dictionary the account of each
    user the command looked up (the caller, and the target of [don] and
    [steal]), adding the default record where none was stored, and adds no
    other record; the quota and too-poor rejections of [steal], and only
    they, also leave the caller's steals pruned to the entries of the day.
    The same request made again on the state so left is rejected in the
    same way and changes nothing more, whatever the draws and the fate of
    the write, at any time when the rejection does not depend on the clock
    and, for the rejections of [steal] that follow the pruning, on the same
    day; a [daily] rejected with the time left [reste] is rejected again,
    with the time left reduced by the time elapsed, before [reste] has
    elapsed, and is granted from then on. *)
Theorem rejection_leaves_accounts fuel io c st st' r :
  run fuel io c st = Some (st', r) →
  rejection r = true →
  disk st' = disk st
  ∧ st' = left_by_rejection c r st
  ∧ (∀ k u, users st !! k = Some u →
       ∃ u', users st' !! k = Some u' ∧ same_but_steals u u'
             ∧ (steals u' = steals u
                ∨ ∃ a cible now_reset now x n,
                    c = Steal a cible now_reset now x n ∧ k = pretty a
                    ∧ ((∃ m, r = StealLimit m) ∨ r = VictimTooPoor)
                    ∧ steals u' = steals_today now_reset u))
  ∧ (∀ k, users st !! k = None →
       users st' !! k = None
       ∨ users st' !! k = Some new_user ∧ ∃ a, a ∈ parties c ∧ k = pretty a)
  ∧ (early r = true → st' = st)
  ∧ (early r = false → ∀ a, a ∈ parties c → is_Some (users st' !! pretty a))
  ∧ run fuel io c st' = Some (st', r)
  ∧ (∀ fuel' io' c',
       same_request c c' → same_time c c' ∨ timed r = false →
       run fuel' io' c' st' = Some (st', r))
  ∧ (∀ a now now_boost reste now' now_boost' fuel' io',
       c = Daily a now now_boost → r = DailyTooSoon reste →
       0 < reste
       ∧ (now' - now < reste →
            run fuel' io' (Daily a now' now_boost') st'
            = Some (st', DailyTooSoon (reste - (now' - now))))
       ∧ (reste ≤ now' - now →
            ∃ st'' gain,
              run fuel' io' (Daily a now' now_boost') st'
              = Some (st'', DailyGranted gain))).
Proof.
  intros Hrun Hrej.
  pose proof (rejected_exact _ _ _ _ _ _ Hrun Hrej) as Hexact.
  destruct (run_effect _ _ _ _ _ _ Hrun) as (Hframe & Hparty & Hdisk).
  assert (carried_out r = false) as Hnot by (by destruct r).
  rewrite Hnot in Hdisk.
  split; [done|]. split; [done|].
  split; [|split; [|split; [|split; [|split; [|split]]]]].
  - (* the accounts stored before *)
    intros k u Hk.
    assert (is_Some (users st' !! k)) as [u' Hk'].
    { destruct (decide (Exists (λ a, k = pretty a) (parties c))) as [Hex|Hno].
      - apply Exists_exists in Hex as (a & Ha & ->).
        destruct (Hparty a Ha) as [[-> _]|E]; [by rewrite Hk|by rewrite E].
      - rewrite Hframe, Hk; [done|]. intros a Ha ->. apply Hno, Exists_exists. eauto. }
    exists u'. split; [done|].
    destruct (run_lookup _ _ _ _ _ _ _ _ Hrun Hk') as [E|(a & Ha & -> & ->)].
    { assert (u' = u) as -> by congruence. split; [apply same_but_steals_refl|by left]. }
    rewrite (account_stored _ _ _ Hk).
    destruct (effect_rejected _ _ _ _ _ _ a u Hrun Hrej)
      as [->|(cible & now_reset & now & x & n & -> & Ht & ->)].
    { split; [apply same_but_steals_refl|by left]. }
    split; [apply same_but_steals_reset|]. right.
    exists a, cible, now_reset, now, x, n. split; [done|]. split; [done|].
    split; [|done].
    destruct (steal_rejections _ _ _ _ _ _ _ _ _ _ _ Hrun Hrej) as [[-> _]|[? _]]; done.
  - (* the accounts added *)
    intros k Hk. destruct (users st' !! k) as [u'|] eqn:Hk'; [right|by left].
    destruct (run_lookup _ _ _ _ _ _ _ _ Hrun Hk') as [E|(a & Ha & -> & ->)];
      [congruence|].
    assert (account st a = new_user) as -> by (unfold account; by rewrite Hk).
    split; [|by exists a].
    destruct (effect_rejected _ _ _ _ _ _ a new_user Hrun Hrej)
      as [->|(cible & now_reset & now & x & n & -> & Ht & ->)]; done.
  - (* the early rejections *)
    intros He. rewrite Hexact. unfold left_by_rejection. by rewrite He.
  - (* the accounts looked up *)
    intros He a Ha. rewrite Hexact. unfold left_by_rejection. rewrite He.
    destruct c; cbn [parties] in Ha;
      first [ apply elem_of_one in Ha as -> | apply elem_of_two in Ha as [->| ->] ];
      auto with present.
  - (* the same call *)
    apply (rejected_again _ _ _ _ _ _ _ _ _ Hrun Hrej (same_request_refl c)).
    left. apply same_time_refl.
  - (* the same request, later *)
    intros fuel' io' c' Hreq Htime.
    by apply (rejected_again _ _ _ _ _ _ _ _ _ Hrun Hrej Hreq).
  - (* the cooldown of daily *)
    intros a now now_boost reste now' now_boost' fuel' io' -> ->.
    simpl in Hrun. injection Hrun as Hrun.
    rewrite daily_cases in Hrun. cbn zeta in Hrun.
    destruct (last_daily (account st a)) as [last|text] eqn:Elast; [|done].
    destruct (now - last <? hours 24) eqn:E; [apply Z.ltb_lt in E|done].
    injection Hrun as <- <-.
    split; [lia|]. simpl. rewrite !daily_cases. cbn zeta.
    rewrite account_ensure, Elast, ensure_twice.
    split.
    + intros Hsoon.
      destruct (now' - last <? hours 24) eqn:E'; [|apply Z.ltb_ge in E'; lia].
      do 3 f_equal. lia.
    + intros Hlate.
      destruct (now' - last <? hours 24) eqn:E'; [apply Z.ltb_lt in E'; lia|].
      by eexists _, _.
Qed.

Lemma rejection_leaves_accounts_witness :
  let thief := mkUser 500 (Unparsable "") [-1; 0; 0; 0] [] None 0 0 0 in
  let c := Steal 1 (mkMember 2 false) 0 0 0 0 in
  let st' := (steal 1 (mkMember 2 false) 0 0 0 0 Written (single 1 thief)).1 in
  run 0 Written c (single 1 thief) = Some (st', StealLimit 3)
  ∧ disk st' = disk (single 1 thief)
  ∧ (∃ u', users st' !! pretty 1 = Some u' ∧ same_but_steals thief u')
  ∧ run 7 Truncated (Steal 1 (mkMember 2 false) (hours 23) (hours 23) 5 9) st'
    = Some (st', StealLimit 3).
Proof.
  intros thief c st'.
  assert (run 0 Written c (single 1 thief) = Some (st', StealLimit 3)) as Hrun.
  { by vm_compute. }
  split; [exact Hrun|].
  destruct (rejection_leaves_accounts 0 Written c (single 1 thief) st' (StealLimit 3)
              Hrun eq_refl) as (Hdisk & _ & Hkept & _ & _ & _ & _ & Hagain & _).
  split; [exact Hdisk|]. split.
  - destruct (Hkept (pretty 1) thief) as (u' & Hu' & Hsame & _); [by vm_compute|].
    by exists u'.
  - apply Hagain; [done|]. left. by vm_compute.
Defined.

(** C4 as stated fails: a gift of 0 coins to a bot, asked by a user unknown
    to the store, is rejected, yet the default records of the caller and of
    the target are added to the dictionary. *)
Lemma rejection_can_create_accounts :
  ¬ (∀ fuel io c st st' r,
       run fuel io c st = Some (st', r) → rejection r = true → st' = st).
Proof.
  intros H.
  pose (st' := (don 1 (mkMember 2 true) 0 Written empty_state).1).
  assert (st' = empty_state) as E.
  { apply (H 0%nat Written (Don 1 (mkMember 2 true) 0) empty_state st' DonToBot);
      by vm_compute. }
  apply (f_equal (λ s, balance <$> users s !! pretty 1)) in E.
  by vm_compute in E.
Qed.

(** The rejected steal of a user over quota rewrites that user's steals. *)
Lemma rejected_steal_prunes :
  let thief := mkUser 500 (Unparsable "") [-1; 0; 0; 0] [] None 0 0 0 in
  let '(st', r) := steal 1 (mkMember 2 false) 0 0 0 0 Written (single 1 thief) in
  r = StealLimit 3 ∧ steals (account st' 1) = [0; 0; 0].
Proof. by vm_compute. Qed.

(** The clock matters to the repetition: a steal rejected because the victim
    is too poor, made again a day later, is rejected again, yet prunes the
    caller's steals of the day before; and a [daily] rejected for the
    cooldown is granted once the time left has elapsed. *)
Lemma rejection_repeated_later_can_change_state :
  let thief := mkUser 500 (Unparsable "") [0; 0] [] None 0 0 0 in
  let victim := mkUser 40 (Unparsable "") [] [] None 0 0 0 in
  let st := put 2 victim (single 1 thief) in
  let '(st1, r1) := steal 1 (mkMember 2 false) 0 0 0 0 Written st in
  let '(st2, r2) := steal 1 (mkMember 2 false) (hours 24) (hours 24) 0 0 Written st1 in
  r1 = VictimTooPoor ∧ steals (account st1 1) = [0; 0]
  ∧ r2 = VictimTooPoor ∧ steals (account st2 1) = [].
Proof. by vm_compute. Qed.
